(** * batsim-py: the RJMS control layer ([batsim_py/rjms.py])

    A shallow embedding of [RJMSHandler] and [Agenda], and the properties
    of the allocation pipeline, the agenda and the time-advance loop.

    Python objects that are shared and mutated in place (jobs, resources)
    live in stores and are named by reference; methods that may raise are
    computations in a state-and-exception monad whose state survives a
    raise, as the attributes of [self] do. *)

From stdpp Require Import gmap strings list sorting.
From Stdlib Require Import Floats.

Open Scope float_scope.
Set Warnings "-inexact-float".

(* ===================================================================== *)
(** * Exceptions and the state-and-exception monad *)
(* ===================================================================== *)

Inductive exn : Type :=
| AssertionError
| KeyError
| AttributeError
| TypeError
| StopIteration
| ZeroDivisionError
| InvalidState
| ValueError
| InsufficientResources.

(** The outcome of a call: a value, a raised exception, or [Blocked] when
    the call waits for an event batch that the simulator never sends. *)
Inductive result (A : Type) : Type :=
| Ok (a : A)
| Raised (e : exn)
| Blocked.
Arguments Ok {A} a.
Arguments Raised {A} e.
Arguments Blocked {A}.

Definition is_ok {A} (r : result A) : bool :=
  match r with Ok _ => true | _ => false end.

Definition M (S A : Type) : Type := S -> result A * S.

Definition ret {S A} (a : A) : M S A := fun s => (Ok a, s).

Definition bind {S A B} (c : M S A) (k : A -> M S B) : M S B :=
  fun s =>
    match c s with
    | (Ok a, s') => k a s'
    | (Raised e, s') => (Raised e, s')
    | (Blocked, s') => (Blocked, s')
    end.

Definition raise {S A} (e : exn) : M S A := fun s => (Raised e, s).
Definition blocked {S A} : M S A := fun s => (Blocked, s).
Definition get {S} : M S S := fun s => (Ok s, s).
Definition gets {S A} (f : S -> A) : M S A := fun s => (Ok (f s), s).
Definition modify {S} (f : S -> S) : M S unit := fun s => (Ok tt, f s).

(** [assert b] *)
Definition assert {S} (b : bool) : M S unit :=
  if b then ret tt else raise AssertionError.

(** A Python value that may be [None], used where [None] is a type error. *)
Definition not_none {S A} (o : option A) : M S A :=
  match o with Some a => ret a | None => raise TypeError end.

(** A dictionary lookup [d[k]]. *)
Definition getitem {S A} (o : option A) : M S A :=
  match o with Some a => ret a | None => raise KeyError end.

Declare Scope monad_scope.
Delimit Scope monad_scope with monad.
Notation "'let*' x ':=' c 'in' k" := (bind c (fun x => k))
  (at level 10, x name, c at level 100, k at level 200) : monad_scope.
Notation "c '>>' k" := (bind c (fun _ => k))
  (at level 100, k at level 200, right associativity) : monad_scope.
Open Scope monad_scope.

(** [for x in l: body(x)] *)
Fixpoint for_ {S A} (l : list A) (body : A -> M S unit) : M S unit :=
  match l with
  | [] => ret tt
  | x :: l' => body x >> for_ l' body
  end.

(** [[f(x) for x in l]] *)
Fixpoint mapM {S A B} (f : A -> M S B) (l : list A) : M S (list B) :=
  match l with
  | [] => ret []
  | x :: l' => let* y := f x in let* ys := mapM f l' in ret (y :: ys)
  end.

(** Running a computation on a component of a larger state. *)
Definition zoom {S T A} (proj : S -> T) (upd : T -> S -> S) (c : M T A) : M S A :=
  fun s => let '(r, t') := c (proj s) in (r, upd t' s).

(* ===================================================================== *)
(** * Numbers *)
(* ===================================================================== *)

(** Times, durations and progress values are Python floats: IEEE 754
    binary64 values with their rounded arithmetic and their comparisons,
    the primitive floats. [a < b] is [a <? b], [a >= b] is [b <=? a].
    A time that arrives as a small int (a JSON number without a fraction)
    behaves in these operations as the float of the same value; ints too
    large for a float are not modelled. *)

(** [not a] on a float: true of [0.0] and [-0.0]. *)
Definition falsy (a : float) : bool := (a =? 0).

(** [a / b] on floats: a zero divisor raises. *)
Definition truediv {S} (a b : float) : M S float :=
  if falsy b then raise ZeroDivisionError else ret (a / b).

(* ===================================================================== *)
(** * Jobs *)
(* ===================================================================== *)

Inductive JobState : Type :=
| SUBMITTED
| RUNNABLE
| RUNNING
| COMPLETED_SUCCESSFULLY
| COMPLETED_KILLED
| COMPLETED_WALLTIME_REACHED
| REJECTED.

Global Instance JobState_eq_dec : EqDecision JobState.
Proof. solve_decision. Defined.

(** Job objects are shared between the cohorts and the agenda and are
    mutated in place; a [ref] names one in the store of job objects. *)
Definition ref : Type := nat.

Module Job.

(** Modelled from the spec: the class [Job] of [batsim_py.job], which
    [rjms.py] imports and which is not part of the sources. A job has a
    string id, a requested resource count [res], a walltime (the
    float [infinity] if absent), a lifecycle state, an optional
    allocation (a list of resource ids) and optional start and stop
    times; the walltime and the times are floats. *)
Record t : Type := mk {
  id : string;
  res : nat;
  walltime : float;
  state : JobState;
  allocation : option (list nat);
  start_time : option float;
  stop_time : option float
}.

(** Modelled from the spec: [set_allocation] binds the allocation and
    the job becomes runnable. *)
Definition set_allocation (ids : list nat) (j : t) : t :=
  mk (id j) (res j) (walltime j) RUNNABLE (Some ids) (start_time j) (stop_time j).

(** Modelled from the spec: [start] sets [start_time] and the job is
    running. *)
Definition start (now : float) (j : t) : t :=
  mk (id j) (res j) (walltime j) RUNNING (allocation j) (Some now) (stop_time j).

(** Modelled from the spec: [terminate] sets [stop_time] and the final
    state. *)
Definition terminate (now : float) (final : JobState) (j : t) : t :=
  mk (id j) (res j) (walltime j) final (allocation j) (start_time j) (Some now).

End Job.

(** Reading a job object through its reference. A reference outside the
    store does not arise from the handlers below; it is reported as a
    [KeyError] to keep the functions total. *)
Definition deref {S} (jobs : list Job.t) (j : ref) : M S Job.t :=
  getitem (jobs !! j).

(* ===================================================================== *)
(** * The agenda *)
(* ===================================================================== *)

Module Agenda.

(** [reservations] is a [SortedDict] from resources to the job that
    reserves each, or [None]: a dictionary together with its keys in
    ascending order of [int(k.id)]. The source builds it with the
    platform's resource objects as keys and then indexes it with
    resource ids ([reserve], [release]); a resource and its id are thus
    one key, here the id. *)
Record t : Type := mk {
  reservations : gmap nat (option ref)
}.

(** [Agenda(platform)], given the ids of the platform's resources. *)
Definition init (resource_ids : list nat) : t :=
  mk (list_to_map (map (fun r => (r, None)) resource_ids)).

Definition key_le (x y : nat * option ref) : Prop := (x.1 <= y.1)%nat.

Global Instance key_le_dec x y : Decision (key_le x y).
Proof. unfold key_le. apply _. Defined.

(** [self.reservations.items()]: in ascending order of the resource id. *)
Definition items (a : t) : list (nat * option ref) :=
  merge_sort key_le (map_to_list (reservations a)).

(** [self.reservations[r]] *)
Definition getitem_reservation (r : nat) : M t (option ref) :=
  let* a := get in getitem (reservations a !! r).

(** [self.reservations[r] = v]. Assigning to a key that is absent makes
    the [SortedDict] compute its sort key [int(k.id)] of the raw id,
    which raises. *)
Definition setitem_reservation (r : nat) (v : option ref) : M t unit :=
  let* a := get in
  match reservations a !! r with
  | Some _ => modify (fun a => mk (<[r := v]> (reservations a)))
  | None => raise AttributeError
  end.

(** [all(self.reservations[r] is None for r in allocation)] *)
Fixpoint all_free (allocation : list nat) : M t bool :=
  match allocation with
  | [] => ret true
  | r :: rest =>
      let* v := getitem_reservation r in
      match v with
      | None => all_free rest
      | Some _ => ret false
      end
  end.

(** [get_available_resources]: the free resources, in key order. *)
Definition get_available_resources (a : t) : list nat :=
  map fst (filter (fun it => it.2 = None) (items a)).

(** [reserve(job)] *)
Definition reserve (jobs : list Job.t) (job : ref) : M t unit :=
  let* j := deref jobs job in
  let* allocation := not_none (Job.allocation j) in
  let* free := all_free allocation in
  assert free >>
  for_ allocation (fun r => setitem_reservation r (Some job)).

(** [release], called with any number of resource ids. *)
Definition release (resource_ids : list nat) : M t unit :=
  for_ resource_ids (fun r => setitem_reservation r None).

(** The body of the loop of [get_progress], for one item [(r, j)]. *)
Definition progress_of (jobs : list Job.t) (current_time : float)
    (it : nat * option ref) : M t float :=
  match it.2 with
  | None => ret 0
  | Some j =>
      let* job := deref jobs j in
      if decide (Job.state job = RUNNING) then
        let* start := not_none (Job.start_time job) in
        let runtime := current_time - start in
        let* q := truediv runtime (Job.walltime job) in
        ret (1 - q)
      else ret 1
  end.

(** [get_progress(current_time)] *)
Definition get_progress (jobs : list Job.t) (current_time : float) : M t (list float) :=
  let* a := get in
  mapM (progress_of jobs current_time) (items a).

(** The body of the loop of [get_reserved_time], for one item
    [(r, j)]. *)
Definition reserved_of (jobs : list Job.t) (current_time : float)
    (it : nat * option ref) : M t float :=
  match it.2 with
  | None => ret 0
  | Some j =>
      let* job := deref jobs j in
      if decide (Job.state job = RUNNING) then
        let* start := not_none (Job.start_time job) in
        let end_time := start + Job.walltime job in
        ret (end_time - current_time)
      else ret (Job.walltime job)
  end.

(** [get_reserved_time(current_time)] *)
Definition get_reserved_time (jobs : list Job.t) (current_time : float)
    : M t (list float) :=
  let* a := get in
  mapM (reserved_of jobs current_time) (items a).

End Agenda.

(* ===================================================================== *)
(** * The platform: nodes, resources and power states *)
(* ===================================================================== *)

Inductive ResourceState : Type :=
| SLEEPING
| SWITCHING_ON
| SWITCHING_OFF
| IDLE
| COMPUTING.

Global Instance ResourceState_eq_dec : EqDecision ResourceState.
Proof. solve_decision. Defined.

Inductive PowerStateType : Type :=
| computation
| sleep
| switching_on
| switching_off.

Global Instance PowerStateType_eq_dec : EqDecision PowerStateType.
Proof. solve_decision. Defined.

Module PowerState.
Record t : Type := mk { id : nat; type : PowerStateType }.
End PowerState.

Module Resource.

(** Modelled from the spec: the class [Resource] of [batsim_py.resource],
    which is not part of the sources. The handler reads [parent_id],
    [state], [is_idle] and [is_sleeping] of a resource and calls
    [start_computing], [release] and [set_pstate] on it. The lifecycle
    is the one the spec gives for a host: idle and computing are
    exchanged by [start_computing] and [release]; every other
    transition is rejected with [InvalidState]. *)
Record t : Type := mk {
  parent_id : nat;
  state : ResourceState;
  pstate : nat
}.

Definition is_idle (r : t) : bool := bool_decide (state r = IDLE).
Definition is_sleeping (r : t) : bool := bool_decide (state r = SLEEPING).

Definition set_state (st : ResourceState) (r : t) : t :=
  mk (parent_id r) st (pstate r).

Definition start_computing : M t unit :=
  let* r := get in
  match state r with
  | IDLE | COMPUTING => modify (set_state COMPUTING)
  | _ => raise InvalidState
  end.

Definition release : M t unit :=
  let* r := get in
  match state r with
  | IDLE | COMPUTING => modify (set_state IDLE)
  | _ => raise InvalidState
  end.

(** Modelled from the spec: a confirmed sleep power state takes a
    switching-off resource to sleeping, a confirmed computation power
    state takes a switching-on resource to idle, and an idle or
    computing resource may switch between computation power states. *)
Definition set_pstate (ps : PowerState.t) : M t unit :=
  let* r := get in
  match PowerState.type ps, state r with
  | sleep, SWITCHING_OFF => modify (fun r => mk (parent_id r) SLEEPING (PowerState.id ps))
  | computation, SWITCHING_ON => modify (fun r => mk (parent_id r) IDLE (PowerState.id ps))
  | computation, (IDLE | COMPUTING) =>
      modify (fun r => mk (parent_id r) (state r) (PowerState.id ps))
  | _, _ => raise InvalidState
  end.

(** The resource's part of [Node.wakeup]. *)
Definition wakeup : M t unit :=
  let* r := get in
  match state r with
  | SLEEPING => modify (set_state SWITCHING_ON)
  | _ => raise InvalidState
  end.

End Resource.

Module Node.
(** Modelled from the spec: the class of the nodes of a platform, with
    the attributes the handler reads: the ordered power states and the
    (ids of the) resources of the node. *)
Record t : Type := mk {
  power_states : list PowerState.t;
  resources : list nat
}.
End Node.

Module Platform.

(** Modelled from the spec: the class [Platform] of
    [batsim_py.resource]: the nodes and the resources by id. Resource
    objects are shared between the platform, the nodes and the agenda;
    they live here and are named by their id. *)
Record t : Type := mk {
  nodes : gmap nat Node.t;
  resources : gmap nat Resource.t
}.

Definition nb_resources (p : t) : nat := size (resources p).

(** [get_resources(ids)]: the resources with these ids, in the order of
    [ids]; an unknown id raises. [None] in place of the ids is a type
    error. *)
Definition get_resources (ids : option (list nat)) : M t (list nat) :=
  let* ids := not_none ids in
  let* p := get in
  mapM (fun r => let* _ := getitem (resources p !! r) in ret r) ids.

(** [get_node(i)] *)
Definition get_node (i : nat) : M t Node.t :=
  let* p := get in getitem (nodes p !! i).

(** Reading an attribute of the resource object [r]. *)
Definition resource (r : nat) : M t Resource.t :=
  let* p := get in getitem (resources p !! r).

(** Calling a method of the resource object [r]. *)
Definition on_resource {A} (r : nat) (method : M Resource.t A) : M t A :=
  let* o := resource r in
  match method o with
  | (Ok a, o') => modify (fun p => mk (nodes p) (<[r := o']> (resources p))) >> ret a
  | (Raised e, _) => raise e
  | (Blocked, _) => blocked
  end.

(** Modelled from the spec: [node.wakeup()] takes a sleeping node to
    switching-on and is rejected with [InvalidState] in any other
    state; a node is sleeping when its resources are. *)
Definition wakeup (node : Node.t) : M t unit :=
  let* rs := mapM resource (Node.resources node) in
  if forallb Resource.is_sleeping rs
  then for_ (Node.resources node) (fun r => on_resource r Resource.wakeup)
  else raise InvalidState.

(** Modelled from the spec: [resource.set_pstate(pstate_id)], with the
    power state looked up in the table of the resource's node. *)
Definition set_pstate (r : nat) (pstate_id : nat) : M t unit :=
  let* o := resource r in
  let* node := get_node (Resource.parent_id o) in
  let* ps := getitem (find (fun ps => bool_decide (PowerState.id ps = pstate_id))
                           (Node.power_states node)) in
  on_resource r (Resource.set_pstate ps).

End Platform.

(* ===================================================================== *)
(** * The simulator adapter *)
(* ===================================================================== *)

Inductive Request : Type :=
| EXECUTE_JOB (job_id : string) (allocation : option (list nat))
| REJECT_JOB (job_id : string)
| SET_RESOURCES_PSTATE (resource_ids : list nat) (pstate_id : nat)
| CALL_ME_LATER (t : float)
| FINISH.

Module Simulator.

(** Modelled from the spec: the simulator adapter
    ([GridSimulatorHandler], [BatsimSimulatorHandler] of
    [batsim_py.simulator], not part of the sources). The handler reads
    [is_running] and [current_time] and sends requests; [requests] is
    the log of the requests sent, oldest first. [finish] ends the
    simulation. *)
Record t : Type := mk {
  is_running : bool;
  current_time : float;
  requests : list Request
}.

Definition send (r : Request) : M t unit :=
  modify (fun s => mk (is_running s) (current_time s) (requests s ++ [r])).

Definition execute_job (job_id : string) (allocation : option (list nat)) : M t unit :=
  send (EXECUTE_JOB job_id allocation).
Definition reject_job (job_id : string) : M t unit := send (REJECT_JOB job_id).
Definition set_resources_pstate (ids : list nat) (ps : nat) : M t unit :=
  send (SET_RESOURCES_PSTATE ids ps).
Definition call_me_later (at_time : float) : M t unit := send (CALL_ME_LATER at_time).
Definition finish : M t unit :=
  send FINISH >> modify (fun s => mk false (current_time s) (requests s)).

End Simulator.

(* ===================================================================== *)
(** * Simulator events *)
(* ===================================================================== *)

Inductive NotifyType : Type :=
| no_more_static_job_to_submit
| registration_finished
| no_more_external_event_to_occur.

Module JobKilledData.
(** The data of a [JOB_KILLED] event. The event carries [job_ids];
    [on_job_killed] also reads an attribute [job_id], which is [None]
    here when the data object has no such attribute. *)
Record t : Type := mk {
  job_ids : list string;
  job_id : option string
}.
End JobKilledData.

Inductive Event : Type :=
| SIMULATION_BEGINS (platform : Platform.t)
| SIMULATION_ENDS
| JOB_SUBMITTED (job : Job.t)
| JOB_COMPLETED (job_id : string) (job_state : JobState)
| JOB_KILLED (data : JobKilledData.t)
| RESOURCE_STATE_CHANGED (resources : list nat) (pstate : nat)
| REQUESTED_CALL
| NOTIFY (type : NotifyType).

(** A batch of events, delivered by the simulator at time [now]. *)
Record Batch : Type := mkBatch {
  now : float;
  events : list Event
}.

(* ===================================================================== *)
(** * The handler: state *)
(* ===================================================================== *)

(** A subscriber of [JOB_ALLOCATED]: called with the current time and the
    job; it observes, and may raise. *)
Definition Callback : Type := float -> Job.t -> option exn.

Module Jobs.
(** [self._jobs]: the four cohorts. [running] is a dictionary by job id,
    the others are lists. *)
Record t : Type := mk {
  queue : list ref;
  running : gmap string ref;
  ready : list ref;
  completed : list ref
}.
Definition empty : t := mk [] ∅ [] [].
End Jobs.

Record RJMSHandler : Type := mkRJMSHandler {
  use_batsim : bool;
  simulator : Simulator.t;
  store : list Job.t;               (* the job objects, by reference *)
  _jobs : Jobs.t;
  _agenda : option Agenda.t;
  platform : option Platform.t;
  simulation_time : option float;
  submitter_ended : bool;
  _callbacks : list Callback
}.

Definition set_simulator (x : Simulator.t) (s : RJMSHandler) : RJMSHandler :=
  mkRJMSHandler (use_batsim s) x (store s) (_jobs s) (_agenda s) (platform s)
    (simulation_time s) (submitter_ended s) (_callbacks s).
Definition set_store (x : list Job.t) (s : RJMSHandler) : RJMSHandler :=
  mkRJMSHandler (use_batsim s) (simulator s) x (_jobs s) (_agenda s) (platform s)
    (simulation_time s) (submitter_ended s) (_callbacks s).
Definition set_jobs (x : Jobs.t) (s : RJMSHandler) : RJMSHandler :=
  mkRJMSHandler (use_batsim s) (simulator s) (store s) x (_agenda s) (platform s)
    (simulation_time s) (submitter_ended s) (_callbacks s).
Definition set_agenda (x : option Agenda.t) (s : RJMSHandler) : RJMSHandler :=
  mkRJMSHandler (use_batsim s) (simulator s) (store s) (_jobs s) x (platform s)
    (simulation_time s) (submitter_ended s) (_callbacks s).
Definition set_platform (x : option Platform.t) (s : RJMSHandler) : RJMSHandler :=
  mkRJMSHandler (use_batsim s) (simulator s) (store s) (_jobs s) (_agenda s) x
    (simulation_time s) (submitter_ended s) (_callbacks s).
Definition set_simulation_time (x : option float) (s : RJMSHandler) : RJMSHandler :=
  mkRJMSHandler (use_batsim s) (simulator s) (store s) (_jobs s) (_agenda s) (platform s)
    x (submitter_ended s) (_callbacks s).
Definition set_submitter_ended (x : bool) (s : RJMSHandler) : RJMSHandler :=
  mkRJMSHandler (use_batsim s) (simulator s) (store s) (_jobs s) (_agenda s) (platform s)
    (simulation_time s) x (_callbacks s).

Definition set_queue (x : list ref) (s : RJMSHandler) : RJMSHandler :=
  set_jobs (Jobs.mk x (Jobs.running (_jobs s)) (Jobs.ready (_jobs s))
              (Jobs.completed (_jobs s))) s.
Definition set_running (x : gmap string ref) (s : RJMSHandler) : RJMSHandler :=
  set_jobs (Jobs.mk (Jobs.queue (_jobs s)) x (Jobs.ready (_jobs s))
              (Jobs.completed (_jobs s))) s.
Definition set_ready (x : list ref) (s : RJMSHandler) : RJMSHandler :=
  set_jobs (Jobs.mk (Jobs.queue (_jobs s)) (Jobs.running (_jobs s)) x
              (Jobs.completed (_jobs s))) s.
Definition set_completed (x : list ref) (s : RJMSHandler) : RJMSHandler :=
  set_jobs (Jobs.mk (Jobs.queue (_jobs s)) (Jobs.running (_jobs s))
              (Jobs.ready (_jobs s)) x) s.

(** [RJMSHandler(use_batsim)] *)
Definition init (use_batsim : bool) : RJMSHandler :=
  mkRJMSHandler use_batsim (Simulator.mk false 0 []) [] Jobs.empty None None None false [].

(** Calls into the objects the handler holds. An attribute that is still
    [None] has no methods. *)
Definition on_simulator {A} (c : M Simulator.t A) : M RJMSHandler A :=
  zoom simulator set_simulator c.

Definition on_platform {A} (c : M Platform.t A) : M RJMSHandler A :=
  fun s =>
    match platform s with
    | None => (Raised AttributeError, s)
    | Some p => let '(r, p') := c p in (r, set_platform (Some p') s)
    end.

Definition on_agenda {A} (c : M Agenda.t A) : M RJMSHandler A :=
  fun s =>
    match _agenda s with
    | None => (Raised AttributeError, s)
    | Some a => let '(r, a') := c a in (r, set_agenda (Some a') s)
    end.

(** Reading the job object [j], and calling a method that updates it. *)
Definition job_of (j : ref) : M RJMSHandler Job.t :=
  let* s := get in deref (store s) j.

Definition on_job (j : ref) (method : Job.t -> Job.t) : M RJMSHandler unit :=
  let* o := job_of j in
  modify (fun s => set_store (<[j := method o]> (store s)) s).

(** The properties of the handler. *)
Definition current_time (s : RJMSHandler) : float := Simulator.current_time (simulator s).
Definition is_running (s : RJMSHandler) : bool := Simulator.is_running (simulator s).
Definition nb_running_jobs (s : RJMSHandler) : nat := size (Jobs.running (_jobs s)).
Definition nb_allocated_jobs (s : RJMSHandler) : nat := length (Jobs.ready (_jobs s)).
Definition nb_completed_jobs (s : RJMSHandler) : nat := length (Jobs.completed (_jobs s)).
Definition queue_lenght (s : RJMSHandler) : nat := length (Jobs.queue (_jobs s)).

(** [get_progress()] *)
Definition get_progress : M RJMSHandler (list float) :=
  let* s := get in
  assert (bool_decide (is_Some (_agenda s))) >>
  on_agenda (Agenda.get_progress (store s) (current_time s)).

(* ===================================================================== *)
(** * The handler: power control and the start sweep *)
(* ===================================================================== *)

(** [resources_new_state[ps_id].extend(ids)] on a [defaultdict(list)],
    which keeps its keys in insertion order. *)
Fixpoint extend_group (ps_id : nat) (ids : list nat)
    (groups : list (nat * list nat)) : list (nat * list nat) :=
  match groups with
  | [] => [(ps_id, ids)]
  | (k, v) :: rest =>
      if decide (k = ps_id) then (k, v ++ ids) :: rest
      else (k, v) :: extend_group ps_id ids rest
  end.

(** [next(ps.id for ps in node.power_states if ps.type == t)] *)
Definition next_power_state (t : PowerStateType) (node : Node.t) : M RJMSHandler nat :=
  match find (fun ps => bool_decide (PowerState.type ps = t)) (Node.power_states node) with
  | Some ps => ret (PowerState.id ps)
  | None => raise StopIteration
  end.

(** The first loop of [turn_on]. *)
Fixpoint turn_on_nodes (node_ids : list nat) (resources_new_state : list (nat * list nat))
    : M RJMSHandler (list (nat * list nat)) :=
  match node_ids with
  | [] => ret resources_new_state
  | i :: rest =>
      let* node := on_platform (Platform.get_node i) in
      on_platform (Platform.wakeup node) >>
      let* ps_id := next_power_state computation node in
      turn_on_nodes rest (extend_group ps_id (Node.resources node) resources_new_state)
  end.

(** [turn_on], called with any number of node ids. *)
Definition turn_on (node_ids : list nat) : M RJMSHandler unit :=
  let* resources_new_state := turn_on_nodes node_ids [] in
  for_ resources_new_state (fun '(ps_id, resources_ids) =>
    on_simulator (Simulator.set_resources_pstate resources_ids ps_id)).

(** The loop of [initiate_resources], from the current values of [ready]
    and [nodes_visited]. *)
Fixpoint initiate_resources_loop (resources : list nat) (ready : bool)
    (nodes_visited : gset nat) : M RJMSHandler bool :=
  match resources with
  | [] => ret ready
  | r :: rest =>
      let* o := on_platform (Platform.resource r) in
      if negb (Resource.is_idle o) &&
         negb (bool_decide (Resource.parent_id o ∈ nodes_visited))
      then
        (if Resource.is_sleeping o then turn_on [Resource.parent_id o] else ret tt) >>
        initiate_resources_loop rest false ({[Resource.parent_id o]} ∪ nodes_visited)
      else initiate_resources_loop rest ready nodes_visited
  end.

Definition initiate_resources (resources : list nat) : M RJMSHandler bool :=
  initiate_resources_loop resources true ∅.

(** [l.remove(x)]: removes the first occurrence, and raises if there is
    none. *)
Fixpoint list_remove (x : ref) (l : list ref) : option (list ref) :=
  match l with
  | [] => None
  | y :: l' => if decide (y = x) then Some l' else cons y <$> list_remove x l'
  end.

Definition remove_from {S} (x : ref) (l : list ref) : M S (list ref) :=
  match list_remove x l with
  | Some l' => ret l'
  | None => raise ValueError
  end.

(** The body of the loop of [start_ready_jobs], for one job of the
    snapshot of the ready cohort. *)
Definition start_if_ready (job : ref) : M RJMSHandler unit :=
  let* j := job_of job in
  let* allocated_resources := on_platform (Platform.get_resources (Job.allocation j)) in
  let* ready := initiate_resources allocated_resources in
  if ready then
    for_ allocated_resources (fun r =>
      on_platform (Platform.on_resource r Resource.start_computing)) >>
    let* now := gets current_time in
    on_job job (Job.start now) >>
    let* j := job_of job in
    on_simulator (Simulator.execute_job (Job.id j) (Job.allocation j)) >>
    let* s := get in
    let* ready' := remove_from job (Jobs.ready (_jobs s)) in
    modify (set_ready ready') >>
    let* j := job_of job in
    modify (fun s => set_running (<[Job.id j := job]> (Jobs.running (_jobs s))) s)
  else ret tt.

(** [start_ready_jobs]: a sweep over a snapshot of the ready cohort. *)
Definition start_ready_jobs : M RJMSHandler unit :=
  let* s := get in
  for_ (Jobs.ready (_jobs s)) start_if_ready.

(* ===================================================================== *)
(** * The handler: event handlers *)
(* ===================================================================== *)

(** [dict.pop(key)] on the running cohort. *)
Definition pop_running (job_id : string) : M RJMSHandler ref :=
  let* s := get in
  let* job := getitem (Jobs.running (_jobs s) !! job_id) in
  modify (set_running (delete job_id (Jobs.running (_jobs s)))) >>
  ret job.

(** The release of the resources of a terminated job, shared verbatim by
    [on_job_completed] and [on_job_killed]. *)
Definition release_resources (job : ref) : M RJMSHandler unit :=
  let* j := job_of job in
  let* resources := on_platform (Platform.get_resources (Job.allocation j)) in
  for_ resources (fun r =>
    on_platform (Platform.on_resource r Resource.release) >>
    on_agenda (Agenda.release [r])).

Definition on_simulation_begins (p : Platform.t) : M RJMSHandler unit :=
  modify (set_platform (Some p)) >>
  modify (set_agenda (Some (Agenda.init (map fst (map_to_list (Platform.resources p)))))) >>
  let* s := get in
  match simulation_time s with
  | Some t => if falsy t then ret tt else on_simulator (Simulator.call_me_later t)
  | None => ret tt
  end.

(** [on_simulation_ends] closes the job submitter, which has no state
    here. *)
Definition on_simulation_ends : M RJMSHandler unit := ret tt.

Definition on_job_submitted (job : Job.t) : M RJMSHandler unit :=
  let* nb := on_platform (gets Platform.nb_resources) in
  if decide (nb < Job.res job)%nat then
    on_simulator (Simulator.reject_job (Job.id job))
  else
    (* the job object enters the store, and the queue holds it *)
    let* s := get in
    modify (set_store (store s ++ [job])) >>
    modify (fun s' => set_queue (Jobs.queue (_jobs s') ++ [length (store s)]) s').

Definition on_job_completed (job_id : string) (job_state : JobState) : M RJMSHandler unit :=
  let* job := pop_running job_id in
  let* now := gets current_time in
  on_job job (Job.terminate now job_state) >>
  release_resources job >>
  modify (fun s => set_completed (Jobs.completed (_jobs s) ++ [job]) s).

(** [on_job_killed]: the loop runs over [data.job_ids], and its body
    reads [data.job_id]. *)
Definition on_job_killed (data : JobKilledData.t) : M RJMSHandler unit :=
  for_ (JobKilledData.job_ids data) (fun _id =>
    let* job_id := match JobKilledData.job_id data with
                   | Some i => ret i
                   | None => raise AttributeError
                   end in
    let* job := pop_running job_id in
    let* now := gets current_time in
    on_job job (Job.terminate now COMPLETED_KILLED) >>
    release_resources job).

(** [close()] *)
Definition close : M RJMSHandler unit :=
  let* running := gets is_running in
  if running then on_simulator Simulator.finish else ret tt.

(** The guard of [check_end_of_simulation]. *)
Definition end_of_simulation (s : RJMSHandler) : bool :=
  submitter_ended s && Simulator.is_running (simulator s) &&
  bool_decide (nb_allocated_jobs s = 0%nat) &&
  bool_decide (nb_running_jobs s = 0%nat) &&
  bool_decide (queue_lenght s = 0%nat).

(** [check_end_of_simulation], over the loop
    [while self.simulator.is_running: self.simulator.proceed_simulation()]
    that it guards; [skip] is the result when the guard fails. *)
Definition check_end_of_simulation {A} (skip : A) (loop : M RJMSHandler A) : M RJMSHandler A :=
  let* s := get in
  if end_of_simulation s then loop else ret skip.

Definition on_notify (type : NotifyType) : M RJMSHandler unit :=
  match type with
  | no_more_static_job_to_submit | registration_finished =>
      modify (set_submitter_ended true)
  | no_more_external_event_to_occur => close
  end.

Definition on_resource_power_state_changed (resources : list nat) (pstate : nat)
    : M RJMSHandler unit :=
  let* resources := on_platform (Platform.get_resources (Some resources)) in
  for_ resources (fun r => on_platform (Platform.set_pstate r pstate)).

Section EventHandlers.

(** [on_requested_call] calls [check_end_of_simulation], whose loop
    calls back into the simulator, which in turn calls the handlers.
    The handlers are written over that loop. *)
Variable loop : M RJMSHandler unit.

Definition on_requested_call : M RJMSHandler unit :=
  let* s := get in
  match simulation_time s with
  | Some t =>
      if negb (falsy t) && (t <=? current_time s) then
        if is_running s then on_simulator Simulator.finish
        else check_end_of_simulation tt loop
      else ret tt
  | None => ret tt
  end.

(** Modelled from the spec: the dispatch of [SimulatorEventHandler]
    ([batsim_py.network], not part of the sources): each event runs its
    handler, and [JOB_COMPLETED], [RESOURCE_STATE_CHANGED] and
    [JOB_KILLED] then run the callback [start_ready_jobs] that
    [__init__] registers for them. The adapter itself stops running on
    [SIMULATION_ENDS]. *)
Definition handle (e : Event) : M RJMSHandler unit :=
  match e with
  | SIMULATION_BEGINS p => on_simulation_begins p
  | SIMULATION_ENDS =>
      on_simulator (modify (fun sim =>
        Simulator.mk false (Simulator.current_time sim) (Simulator.requests sim))) >>
      on_simulation_ends
  | JOB_SUBMITTED job => on_job_submitted job
  | JOB_COMPLETED job_id job_state =>
      on_job_completed job_id job_state >> start_ready_jobs
  | JOB_KILLED data => on_job_killed data >> start_ready_jobs
  | RESOURCE_STATE_CHANGED resources pstate =>
      on_resource_power_state_changed resources pstate >> start_ready_jobs
  | REQUESTED_CALL => on_requested_call
  | NOTIFY type => on_notify type
  end.

(** Modelled from the spec: the arrival of one batch: the clock moves
    to the time of the batch and its events are handled in order. *)
Definition deliver (b : Batch) : M RJMSHandler unit :=
  on_simulator (modify (fun sim =>
    Simulator.mk (Simulator.is_running sim) (now b) (Simulator.requests sim))) >>
  for_ (events b) handle.

End EventHandlers.

(* ===================================================================== *)
(** * The handler: advancing the simulation *)
(* ===================================================================== *)

(** The events to come are a stream of batches, the input of the
    functions that advance the simulation; each returns what is left of
    it. On the branch of [on_requested_call] that reaches
    [check_end_of_simulation] the simulator is not running, so the guard
    of the nested check fails and its loop is never entered (see
    [on_requested_call_loop_irrelevant]). *)
Definition receive (b : Batch) : M RJMSHandler unit := deliver (ret tt) b.

(** Modelled from the spec: [simulator.proceed_simulation()] blocks for
    the next batch of events and handles it. *)
Definition proceed_simulation (stream : list Batch) : M RJMSHandler (list Batch) :=
  match stream with
  | [] => blocked
  | b :: rest => receive b >> ret rest
  end.

(** [while self.simulator.is_running: self.simulator.proceed_simulation()] *)
Fixpoint drain (stream : list Batch) : M RJMSHandler (list Batch) :=
  let* running := gets is_running in
  if running then
    match stream with
    | [] => blocked
    | b :: rest => receive b >> drain rest
    end
  else ret stream.

(** [while self.is_running and self.current_time < until:
       self.simulator.proceed_simulation()] *)
Fixpoint proceed_until (until : float) (stream : list Batch) : M RJMSHandler (list Batch) :=
  let* s := get in
  if is_running s && (current_time s <? until) then
    match stream with
    | [] => blocked
    | b :: rest => receive b >> proceed_until until rest
    end
  else ret stream.

(** The statement [if until > 0: ... else: ...] of [proceed_time]. *)
Definition advance (until : float) (stream : list Batch) : M RJMSHandler (list Batch) :=
  if 0 <? until then
    let* now := gets current_time in
    assert (now <? until) >>
    on_simulator (Simulator.call_me_later (until + 0.001)) >>
    proceed_until until stream
  else proceed_simulation stream.

(** [proceed_time(until=0)] *)
Definition proceed_time (until : float) (stream : list Batch) : M RJMSHandler (list Batch) :=
  let* running := gets is_running in
  assert running >>
  start_ready_jobs >>
  let* stream := advance until stream in
  let* s := get in
  if use_batsim s then check_end_of_simulation stream (drain stream)
  else ret stream.

(** [start(platform_fn, workload_fn, output_fn, simulation_time, qos_stretch)].
    Modelled from the spec: [simulator.start] begins the simulation and
    blocks for the first batch, which holds [SIMULATION_BEGINS]. The job
    submitter has no state here. *)
Definition start (simulation_time : option float) (stream : list Batch)
    : M RJMSHandler (list Batch) :=
  let* running := gets is_running in
  assert (negb running) >>
  assert (match simulation_time with
          | Some t => falsy t || (0 <? t)
          | None => true
          end) >>
  modify (set_simulation_time simulation_time) >>
  on_simulator (modify (fun sim =>
    Simulator.mk true (Simulator.current_time sim) (Simulator.requests sim))) >>
  let* stream := proceed_simulation stream in
  modify (set_jobs Jobs.empty) >>
  modify (set_submitter_ended false) >>
  ret stream.

(* ===================================================================== *)
(** * The handler: allocation *)
(* ===================================================================== *)

(** [self._dispatch(RJMSEventType.JOB_ALLOCATED, job)] *)
Definition _dispatch (job : ref) : M RJMSHandler unit :=
  let* s := get in
  for_ (_callbacks s) (fun call =>
    let* now := gets current_time in
    let* j := job_of job in
    match call now j with
    | Some e => raise e
    | None => ret tt
    end).

Section Allocation.

(** The values of the enumeration [ResourceState]
    ([batsim_py.resource]), by which [allocate] orders the free
    resources, are not part of the sources. *)
Variable state_value : ResourceState -> Z.

(** [sorted(l, key=...)]: a stable sort, here by insertion. *)
Fixpoint insert_by_key (x : Z * nat) (l : list (Z * nat)) : list (Z * nat) :=
  match l with
  | [] => [x]
  | y :: l' => if (x.1 <=? y.1)%Z then x :: y :: l' else y :: insert_by_key x l'
  end.

Definition sorted_by_key (l : list (Z * nat)) : list (Z * nat) :=
  foldr insert_by_key [] l.

(** The resource ids that [allocate] picks when it is given none. *)
Definition pick_resources (n : nat) : M RJMSHandler (list nat) :=
  let* available := on_agenda (gets Agenda.get_available_resources) in
  let* keyed := mapM (fun r =>
                  let* o := on_platform (Platform.resource r) in
                  ret (state_value (Resource.state o), r)) available in
  ret (map snd (take n (sorted_by_key keyed))).

(** [next(j for j in self._jobs['queue'] if j.id == job_id)] *)
Definition find_in_queue (job_id : string) : M RJMSHandler ref :=
  let* s := get in
  match find (fun j => match store s !! j with
                       | Some o => bool_decide (Job.id o = job_id)
                       | None => false
                       end) (Jobs.queue (_jobs s)) with
  | Some j => ret j
  | None => raise StopIteration
  end.

(** [allocate(job_id, resource_ids=None)] *)
Definition allocate (job_id : string) (resource_ids : option (list nat))
    : M RJMSHandler unit :=
  let* job := find_in_queue job_id in
  let* j := job_of job in
  let* resource_ids :=
    match resource_ids with
    | None => pick_resources (Job.res j)
    | Some ids => ret ids
    end in
  if decide (length resource_ids ≠ Job.res j) then raise InsufficientResources
  else
    on_job job (Job.set_allocation resource_ids) >>
    let* s := get in
    on_agenda (Agenda.reserve (store s) job) >>
    _dispatch job >>
    let* s := get in
    let* queue' := remove_from job (Jobs.queue (_jobs s)) in
    modify (set_queue queue') >>
    modify (fun s => set_ready (Jobs.ready (_jobs s) ++ [job]) s).

End Allocation.

(* ===================================================================== *)
(** * Definitions for the statements *)
(* ===================================================================== *)

(** A result that is not a value, at another type. *)
Definition fail_as {A B} (r : result A) : result B :=
  match r with
  | Raised e => Raised e
  | _ => Blocked
  end.

(** A computation that only reads: it returns [f s] or fails, and leaves
    the state as it is. *)
Definition read_only {S A} (c : M S A) : Prop :=
  forall s, (c s).2 = s.

(** A view [f] of the state that a computation leaves as it is,
    whatever its outcome. *)
Definition keeps {S A T} (f : S -> T) (c : M S A) : Prop :=
  forall s, f (c s).2 = f s.

(** A relation between the state before and after that a computation
    establishes, whatever its outcome. *)
Definition preserves {S A} (R : S -> S -> Prop) (c : M S A) : Prop :=
  forall s, R s (c s).2.

(** A computation that returns or raises: it never waits for events. *)
Definition never_blocks {S A} (c : M S A) : Prop :=
  forall s, (c s).1 <> Blocked.

Definition is_execute (r : Request) : bool :=
  match r with EXECUTE_JOB _ _ => true | _ => false end.

(** The [EXECUTE_JOB] requests sent so far. *)
Definition executions (s : RJMSHandler) : list Request :=
  filter (fun r => is_execute r = true) (Simulator.requests (simulator s)).

Module Accounting.

(** The [REJECT_JOB] requests sent so far: the handler keeps no cohort
    of rejected jobs, a rejection is a request to the simulator. *)
Definition is_reject (r : Request) : bool :=
  match r with REJECT_JOB _ => true | _ => false end.

Definition rejected (s : RJMSHandler) : nat :=
  length (filter (fun r => is_reject r = true) (Simulator.requests (simulator s))).

(** The jobs accounted for: queue + ready + running + completed +
    rejected. *)
Definition accounted (s : RJMSHandler) : nat :=
  (queue_lenght s + nb_allocated_jobs s + nb_running_jobs s + nb_completed_jobs s
   + rejected s)%nat.

(** The submissions in a stream of batches. *)
Definition is_submission (e : Event) : bool :=
  match e with JOB_SUBMITTED _ => true | _ => false end.


End Accounting.

Module AllocateSpec.

(** The handler after [job.set_allocation(ids)] on the job object [o]
    behind [job]. *)
Definition bound (job : ref) (o : Job.t) (ids : list nat) (s : RJMSHandler)
    : RJMSHandler :=
  set_store (<[job := Job.set_allocation ids o]> (store s)) s.

Section Failure.

Variable state_value : ResourceState -> Z.
Variable job_id : string.
Variable resource_ids : option (list nat).
Variable s : RJMSHandler.

(** [job], with job object [o], is the job that [allocate] finds in
    the queue of [s] for [job_id]. *)
Definition found (job : ref) (o : Job.t) : Prop :=
  (find_in_queue job_id s).1 = Ok job /\ store s !! job = Some o.

(** The resource ids that [allocate] works with for the job object
    [o]: those it is given, or those it picks. *)
Definition chosen (o : Job.t) : result (list nat) :=
  match resource_ids with
  | Some ids => Ok ids
  | None => (pick_resources state_value (Job.res o) s).1
  end.

(** Where the call [allocate(job_id, resource_ids)] on [s] can fail,
    with which outcome, and what it leaves behind: the handler as it
    was when no job is found, when the pick of resources fails and
    when the count check fails; the binding of the job that was
    found to the resource ids that were chosen when the reservation
    fails; that binding and the reservation when a subscriber of
    [JOB_ALLOCATED] raises. *)
Inductive allocate_failure : result unit -> RJMSHandler -> Prop :=
| failed_no_job :
    (find_in_queue job_id s).1 = Raised StopIteration ->
    allocate_failure (Raised StopIteration) s
| failed_in_pick job o r :
    found job o -> chosen o = r -> is_ok r = false ->
    allocate_failure (fail_as r) s
| failed_in_count job o ids :
    found job o -> chosen o = Ok ids -> length ids <> Job.res o ->
    allocate_failure (Raised InsufficientResources) s
| failed_in_reserve job o ids r :
    found job o -> chosen o = Ok ids -> length ids = Job.res o ->
    (on_agenda (Agenda.reserve (store (bound job o ids s)) job)
       (bound job o ids s)).1 = r ->
    is_ok r = false ->
    allocate_failure (fail_as r) (bound job o ids s)
| failed_in_subscriber job o ids a a' call e :
    found job o -> chosen o = Ok ids -> length ids = Job.res o ->
    _agenda s = Some a ->
    Agenda.reserve (store (bound job o ids s)) job a = (Ok tt, a') ->
    call ∈ _callbacks s ->
    call (current_time s) (Job.set_allocation ids o) = Some e ->
    allocate_failure (Raised e) (set_agenda (Some a') (bound job o ids s)).

End Failure.

End AllocateSpec.

Module ProceedSpec.

(** What lasts once a job has been started: a job that is out of the
    ready cohort stays out of it and keeps its [start_time] (when
    [track] is set), and a request that was sent stays sent. *)
Definition lasting (track : bool) (job : ref) (x : Request)
    (s s' : RJMSHandler) : Prop :=
  (track = true ->
   job ∉ Jobs.ready (_jobs s) -> is_Some (store s !! job) ->
     (job ∉ Jobs.ready (_jobs s')) /\
     (Job.start_time <$> store s' !! job) = (Job.start_time <$> store s !! job)) /\
  (x ∈ Simulator.requests (simulator s) -> x ∈ Simulator.requests (simulator s')).

(** The state of resource [r] on the platform of the handler. *)
Definition resource_state_of (s : RJMSHandler) (r : nat) : option ResourceState :=
  p ← platform s; Resource.state <$> Platform.resources p !! r.

(** The handler keeps its platform, and the resources of an allocation
    that are idle before are idle after. *)
Definition idle_kept (allocation : list nat) (s s' : RJMSHandler) : Prop :=
  (is_Some (platform s) -> is_Some (platform s')) /\
  forall r, r ∈ allocation ->
    resource_state_of s r = Some IDLE -> resource_state_of s' r = Some IDLE.

(** [job], with job object [o], and the resources of its allocation
    are as the sweep found them in [s]: the job object is the same,
    no allocation has changed, the resources are idle, the clock has
    not moved and the job is in the ready cohort, once. *)
Definition undisturbed (job : ref) (o : Job.t) (allocation : list nat)
    (s t : RJMSHandler) : Prop :=
  store t !! job = Some o /\
  (forall j : ref,
     (Job.allocation <$> store t !! j) = (Job.allocation <$> store s !! j)) /\
  (forall r, r ∈ allocation -> resource_state_of t r = Some IDLE) /\
  current_time t = current_time s /\
  is_Some (platform t) /\
  (exists l post,
     Jobs.ready (_jobs t) = l ++ job :: post /\ (job ∉ l) /\ (job ∉ post)).

(** Job [j] holds none of the resources of [allocation]. *)
Definition apart (allocation : list nat) (s : RJMSHandler) (j : ref) : Prop :=
  forall o a, store s !! j = Some o -> Job.allocation o = Some a ->
    forall r, r ∈ a -> r ∉ allocation.

(** [delivers s consumed s']: from [s], with the simulator running, the
    batches [consumed] are handled one after the other, none raises,
    and the last one leaves the simulator stopped, in [s']. *)
Inductive delivers : RJMSHandler -> list Batch -> RJMSHandler -> Prop :=
| delivers_stopped s :
    is_running s = false -> delivers s [] s
| delivers_batch s b s1 consumed s' :
    is_running s = true -> receive b s = (Ok tt, s1) ->
    delivers s1 consumed s' -> delivers s (b :: consumed) s'.

End ProceedSpec.

Module StartSpec.

Definition resource_state (p : Platform.t) (r : nat) : option ResourceState :=
  Resource.state <$> Platform.resources p !! r.

(** Every resource of the allocation is idle: what [initiate_resources]
    tests with [r.is_idle]. *)
Definition all_idle (p : Platform.t) (allocation : list nat) : Prop :=
  Forall (fun r => resource_state p r = Some IDLE) allocation.

Global Instance all_idle_dec p allocation : Decision (all_idle p allocation).
Proof. unfold all_idle. apply _. Defined.

(** Readiness in the words of the spec: idle or computing. *)
Definition spec_ready (p : Platform.t) (allocation : list nat) : Prop :=
  Forall (fun r => resource_state p r = Some IDLE \/
                   resource_state p r = Some COMPUTING) allocation.

(** The platform after [r.start_computing()] for each [r] of the
    allocation. *)
Definition mark_computing (allocation : list nat) (p : Platform.t) : Platform.t :=
  Platform.mk (Platform.nodes p)
    (foldl (fun m r => alter (Resource.set_state COMPUTING) r m)
           (Platform.resources p) allocation).

(** The handler after job [job], with job object [o] and allocation
    [allocation], was started on platform [p]: its resources compute,
    [start_time] is the current time, [EXECUTE_JOB] is sent, and the
    job has moved from ready (now [ready']) to running. *)
Definition started (job : ref) (o : Job.t) (allocation : list nat)
    (p : Platform.t) (ready' : list ref) (s : RJMSHandler) : RJMSHandler :=
  mkRJMSHandler (use_batsim s)
    (Simulator.mk (is_running s) (current_time s)
       (Simulator.requests (simulator s) ++ [EXECUTE_JOB (Job.id o) (Some allocation)]))
    (<[job := Job.start (current_time s) o]> (store s))
    (Jobs.mk (Jobs.queue (_jobs s))
             (<[Job.id o := job]> (Jobs.running (_jobs s)))
             ready'
             (Jobs.completed (_jobs s)))
    (_agenda s)
    (Some (mark_computing allocation p))
    (simulation_time s) (submitter_ended s) (_callbacks s).

End StartSpec.

Module AgendaSpec.
Import Agenda.

(** The reservation of [r] in [a]: [None] when [r] is no key of the
    agenda, [Some None] when it is free. *)
Definition reservation (a : t) (r : nat) : option (option ref) :=
  reservations a !! r.

Definition free (a : t) (r : nat) : Prop := reservation a r = Some None.
Definition known (a : t) (r : nat) : Prop := is_Some (reservation a r).

(** The effect of [self.reservations[r] = v] for each [r] of a list. *)
Definition assign_all (v : option ref) (rs : list nat) (a : t) : t :=
  mk (foldl (fun m r => <[r := v]> m) (reservations a) rs).

(** What [get_progress] reports for one item [(r, j)] of the
    reservations: the value the source computes, case by case. *)
Inductive progress_value (jobs : list Job.t) (now : float)
    : nat * option ref -> float -> Prop :=
| progress_free r :
    progress_value jobs now (r, None) 0
| progress_running r j o start :
    jobs !! j = Some o -> Job.state o = RUNNING ->
    Job.start_time o = Some start -> falsy (Job.walltime o) = false ->
    progress_value jobs now (r, Some j) (1 - (now - start) / Job.walltime o)
| progress_not_running r j o :
    jobs !! j = Some o -> Job.state o <> RUNNING ->
    progress_value jobs now (r, Some j) 1.

(** The job behind a reservation is a job object, and one that is
    running has the start time that [Job.start] gave it and a walltime
    that is not zero. *)
Definition reserved_job_ok (jobs : list Job.t) (it : nat * option ref) : Prop :=
  match it.2 with
  | None => True
  | Some j =>
      exists o, jobs !! j = Some o /\
        (Job.state o = RUNNING ->
         is_Some (Job.start_time o) /\ falsy (Job.walltime o) = false)
  end.

(** The progress of one item in the words of the spec: [0] if free;
    [1 - (now - start_time) / walltime] clamped to non-negative if the
    job is running with a finite walltime; [0] if it is running with an
    infinite walltime; [1] if it is reserved and not yet running. *)
Definition spec_progress (jobs : list Job.t) (now : float) (it : nat * option ref)
    : float :=
  match it.2 with
  | None => 0
  | Some j =>
      match jobs !! j with
      | Some o =>
          if decide (Job.state o = RUNNING) then
            match Job.start_time o with
            | Some start =>
                if is_infinity (Job.walltime o) then 0
                else
                  let v := 1 - (now - start) / Job.walltime o in
                  if 0 <=? v then v else 0
            | None => 0
            end
          else 1
      | None => 0
      end
  end.

End AgendaSpec.

(** ** Sample data: a platform of two nodes with one resource each *)

Module Sample.

Definition power_states : list PowerState.t :=
  [PowerState.mk 0 computation; PowerState.mk 1 sleep].

Definition platform (s0 s1 : ResourceState) : Platform.t :=
  Platform.mk
    (<[0%nat := Node.mk power_states [0%nat]]> (<[1%nat := Node.mk power_states [1%nat]]> ∅))
    (<[0%nat := Resource.mk 0 s0 0]> (<[1%nat := Resource.mk 1 s1 0]> ∅)).

(** Three resources; a job that overran its walltime on resource 0, a
    running job without walltime on resource 1, resource 2 free. *)
Definition overrun : Job.t :=
  Job.mk "w!0" 1 100 RUNNING (Some [0%nat]) (Some 0) None.
Definition unbounded : Job.t :=
  Job.mk "w!1" 1 infinity RUNNING (Some [1%nat]) (Some 0) None.
Definition progress_agenda : Agenda.t :=
  Agenda.mk (<[0%nat := Some 0%nat]> (<[1%nat := Some 1%nat]> (<[2%nat := None]> ∅))).

(** A runnable job allocated to resource 0. *)
Definition runnable : Job.t :=
  Job.mk "w!0" 1 100 RUNNABLE (Some [0%nat]) None None.

(** A running simulation at time 10 in which [runnable] is ready and
    holds resource 0, whose state is [s0]. *)
Definition waiting (use_batsim : bool) (s0 : ResourceState) : RJMSHandler :=
  mkRJMSHandler use_batsim (Simulator.mk true 10 []) [runnable]
    (Jobs.mk [] ∅ [0%nat] [])
    (Some (Agenda.mk (<[0%nat := Some 0%nat]> (<[1%nat := None]> ∅))))
    (Some (platform s0 IDLE)) None false [].

(** A simulation at time 10 in which job [w!0] runs on resource 0 and
    job [w!1] waits in the queue. *)
Definition running_job : Job.t :=
  Job.mk "w!0" 1 100 RUNNING (Some [0%nat]) (Some 5) None.
Definition queued_job : Job.t :=
  Job.mk "w!1" 1 200 SUBMITTED None None None.
Definition busy : RJMSHandler :=
  mkRJMSHandler false (Simulator.mk true 10 [EXECUTE_JOB "w!0" (Some [0%nat])])
    [running_job; queued_job]
    (Jobs.mk [1%nat] {["w!0" := 0%nat]} [] [])
    (Some (Agenda.mk (<[0%nat := Some 0%nat]> (<[1%nat := None]> ∅))))
    (Some (platform COMPUTING IDLE)) None false [].

(** A simulation at time 10 in which [w!0] runs on resource 0 and
    [w!1] on resource 1. *)
Definition other_running_job : Job.t :=
  Job.mk "w!1" 1 200 RUNNING (Some [1%nat]) (Some 5) None.
Definition two_running : RJMSHandler :=
  mkRJMSHandler false
    (Simulator.mk true 10
       [EXECUTE_JOB "w!0" (Some [0%nat]); EXECUTE_JOB "w!1" (Some [1%nat])])
    [running_job; other_running_job]
    (Jobs.mk [] (<["w!0" := 0%nat]> {["w!1" := 1%nat]}) [] [])
    (Some (Agenda.mk (<[0%nat := Some 0%nat]> (<[1%nat := Some 1%nat]> ∅))))
    (Some (platform COMPUTING COMPUTING)) None false [].

(** The events of a simulation in which one job is submitted and then
    killed. *)
Definition submitted_job : Job.t :=
  Job.mk "w!0" 1 100 SUBMITTED None None None.
Definition begins : Batch := mkBatch 0 [SIMULATION_BEGINS (platform IDLE IDLE)].

(** A simulation at time 10 with two ready jobs: [w!0] waits for
    resource 0, which is switching on, and [w!1] holds resource 1,
    which is idle. *)
Definition allocated_job : Job.t :=
  Job.mk "w!1" 1 200 RUNNABLE (Some [1%nat]) None None.
Definition two_ready : RJMSHandler :=
  mkRJMSHandler false (Simulator.mk true 10 []) [runnable; allocated_job]
    (Jobs.mk [] ∅ [0%nat; 1%nat] [])
    (Some (Agenda.mk (<[0%nat := Some 0%nat]> (<[1%nat := Some 1%nat]> ∅))))
    (Some (platform SWITCHING_ON IDLE)) None false [].

(** Some values for the enumeration [ResourceState]. *)
Definition state_value (st : ResourceState) : Z :=
  match st with
  | SLEEPING => 0 | SWITCHING_ON => 1 | SWITCHING_OFF => 2 | IDLE => 3 | COMPUTING => 4
  end.

(** A running simulation at time 10 in which the submitter has ended
    and no job is left. *)
Definition finishing (use_batsim : bool) : RJMSHandler :=
  mkRJMSHandler use_batsim (Simulator.mk true 10 []) []
    Jobs.empty
    (Some (Agenda.init [0%nat; 1%nat]))
    (Some (platform IDLE IDLE)) None true [].

Definition last_batches : list Batch :=
  [mkBatch 20 []; mkBatch 30 [SIMULATION_ENDS]; mkBatch 40 []].

End Sample.


(* ===================================================================== *)
(** * The agenda and the handler: the other views *)
(* ===================================================================== *)

(** [itertools.groupby(l, key)]: the runs of consecutive elements with
    equal keys, each with its key. *)
Fixpoint groupby {A K : Type} `{EqDecision K} (key : A -> K) (l : list A)
    : list (K * list A) :=
  match l with
  | [] => []
  | x :: l' =>
      match groupby key l' with
      | (k, g) :: groups =>
          if decide (key x = k) then (k, x :: g) :: groups
          else (key x, [x]) :: (k, g) :: groups
      | [] => [(key x, [x])]
      end
  end.

Module AgendaNodes.
Import Agenda.

(** The parent node of a resource of the platform. *)
Definition parent (p : Platform.t) (r : nat) : option nat :=
  Resource.parent_id <$> Platform.resources p !! r.

(** The key [it[0].parent_id] of an item of the reservations. The keys
    of the reservations are the resource objects of the platform, which
    live there; the item is paired with the parent of its resource. *)
Definition with_parent (p : Platform.t) (it : nat * option ref)
    : M t (nat * (nat * option ref)) :=
  let* o := getitem (Platform.resources p !! it.1) in
  ret (Resource.parent_id o, it).

(** The loop of [get_available_nodes] over the groups, from the
    current value of [nodes]; [self.nodes] holds the nodes of the
    platform by id. *)
Fixpoint available_nodes_loop (p : Platform.t)
    (groups : list (nat * list (nat * (nat * option ref)))) (nodes : list nat)
    : M t (list nat) :=
  match groups with
  | [] => ret nodes
  | (node_id, reservations) :: rest =>
      if forallb (fun x => bool_decide (x.2.2 = None)) reservations then
        let* _ := getitem (Platform.nodes p !! node_id) in
        available_nodes_loop p rest (nodes ++ [node_id])
      else available_nodes_loop p rest nodes
  end.

(** [get_available_nodes()], on the agenda of platform [p]: the ids of
    the nodes found available. *)
Definition get_available_nodes (p : Platform.t) : M t (list nat) :=
  let* a := get in
  let* keyed := mapM (with_parent p) (items a) in
  available_nodes_loop p (groupby fst keyed) [].

End AgendaNodes.

(** [get_reserved_time()] *)
Definition get_reserved_time : M RJMSHandler (list float) :=
  let* s := get in
  assert (bool_decide (is_Some (_agenda s))) >>
  on_agenda (Agenda.get_reserved_time (store s) (current_time s)).

(** [get_available_resources()] *)
Definition get_available_resources : M RJMSHandler (list nat) :=
  let* s := get in
  assert (bool_decide (is_Some (_agenda s))) >>
  on_agenda (gets Agenda.get_available_resources).

(** [get_available_nodes()]; the agenda was built from the platform of
    the handler. *)
Definition get_available_nodes : M RJMSHandler (list nat) :=
  let* s := get in
  assert (bool_decide (is_Some (_agenda s))) >>
  match platform s with
  | Some p => on_agenda (AgendaNodes.get_available_nodes p)
  | None => raise AttributeError
  end.

(** [set_callback(event_type, call)]; [JOB_ALLOCATED] is the one event
    type, and a [Callback] is callable. *)
Definition set_callback (call : Callback) : M RJMSHandler unit :=
  modify (fun s =>
    mkRJMSHandler (use_batsim s) (simulator s) (store s) (_jobs s) (_agenda s)
      (platform s) (simulation_time s) (submitter_ended s) (_callbacks s ++ [call])).

Section PowerControl.

(** The methods [sleep] and [set_pstate] of a node ([batsim_py.resource])
    are not part of the sources: they act on the node and its
    resources, which live in the platform, and may raise. *)
Variable node_sleep : Node.t -> M Platform.t unit.
Variable node_set_pstate : Node.t -> nat -> M Platform.t unit.

(** The first loop of [turn_off]. *)
Fixpoint turn_off_nodes (node_ids : list nat) (resources_new_state : list (nat * list nat))
    : M RJMSHandler (list (nat * list nat)) :=
  match node_ids with
  | [] => ret resources_new_state
  | i :: rest =>
      let* node := on_platform (Platform.get_node i) in
      on_platform (node_sleep node) >>
      let* ps_id := next_power_state sleep node in
      turn_off_nodes rest (extend_group ps_id (Node.resources node) resources_new_state)
  end.

(** [turn_off], called with any number of node ids. *)
Definition turn_off (node_ids : list nat) : M RJMSHandler unit :=
  let* resources_new_state := turn_off_nodes node_ids [] in
  for_ resources_new_state (fun '(ps_id, resources_ids) =>
    on_simulator (Simulator.set_resources_pstate resources_ids ps_id)).

(** The loop of [set_pstate], from the current value of
    [resources_ids]. *)
Fixpoint set_pstate_nodes (node_ids : list nat) (pstate_id : nat)
    (resources_ids : list nat) : M RJMSHandler (list nat) :=
  match node_ids with
  | [] => ret resources_ids
  | i :: rest =>
      let* node := on_platform (Platform.get_node i) in
      on_platform (node_set_pstate node pstate_id) >>
      set_pstate_nodes rest pstate_id (resources_ids ++ Node.resources node)
  end.

(** [set_pstate], called with any number of node ids and the keyword
    [pstate_id]. *)
Definition set_pstate (node_ids : list nat) (pstate_id : nat) : M RJMSHandler unit :=
  let* resources_ids := set_pstate_nodes node_ids pstate_id [] in
  on_simulator (Simulator.set_resources_pstate resources_ids pstate_id).

End PowerControl.

Module PowerSpec.

(** The id of the first power state of type [t] of a node: what
    [next(ps.id for ps in node.power_states if ps.type == t)] finds. *)
Definition power_state_id (t : PowerStateType) (node : Node.t) : option nat :=
  PowerState.id <$>
    find (fun ps => bool_decide (PowerState.type ps = t)) (Node.power_states node).

(** The distinct elements of a list, in the order of their first
    occurrence. *)
Fixpoint first_occurrences (l : list nat) : list nat :=
  match l with
  | [] => []
  | x :: l' => x :: filter (fun y => y <> x) (first_occurrences l')
  end.

(** The resources of those of [nodes] whose power state of type [t]
    has the id [ps], node after node. *)
Definition resources_under (t : PowerStateType) (nodes : list Node.t) (ps : nat)
    : list nat :=
  mjoin (Node.resources <$>
           filter (fun node => power_state_id t node = Some ps) nodes).

(** The groups of a power change of [nodes] to the type [t]: one group
    for each power state id of the nodes, in the order in which the
    ids first occur, with the resources of all the nodes with that
    id. *)
Definition grouped (t : PowerStateType) (nodes : list Node.t)
    : list (nat * list nat) :=
  (fun ps => (ps, resources_under t nodes ps)) <$>
    first_occurrences (omap (power_state_id t) nodes).

(** The node and the resource with a given id on the platform of the
    handler. *)
Definition node_of (s : RJMSHandler) (i : nat) : option Node.t :=
  p ← platform s; Platform.nodes p !! i.
Definition resource_of (s : RJMSHandler) (r : nat) : option Resource.t :=
  p ← platform s; Platform.resources p !! r.

(** [node_ids] names [nodes] on the platform of the handler, id by
    id. *)
Definition names (s : RJMSHandler) (node_ids : list nat) (nodes : list Node.t) : Prop :=
  Forall2 (fun i node => node_of s i = Some node) node_ids nodes.

(** The resources of [nodes], node after node. *)
Definition resources_of (nodes : list Node.t) : list nat :=
  mjoin (Node.resources <$> nodes).

End PowerSpec.

Module HandlerViews.

(** The requests sent to the simulator so far. *)
Definition requests (s : RJMSHandler) : list Request :=
  Simulator.requests (simulator s).

(** The completed cohort. *)
Definition completed (s : RJMSHandler) : list ref := Jobs.completed (_jobs s).

(** A log that only grows: nothing sent or completed is taken back. *)
Definition grows (s s' : RJMSHandler) : Prop :=
  requests s `prefix_of` requests s' /\ completed s `prefix_of` completed s'.

(** The state of a resource of the platform of the handler, and its
    reservation in the agenda of the handler. *)
Definition state_of (s : RJMSHandler) (r : nat) : option ResourceState :=
  p ← platform s; Resource.state <$> Platform.resources p !! r.

Definition reservation_of (s : RJMSHandler) (r : nat) : option (option ref) :=
  a ← _agenda s; Agenda.reservations a !! r.

(** The platform after [r.release()] for each [r] of an allocation. *)
Definition mark_idle (allocation : list nat) (p : Platform.t) : Platform.t :=
  Platform.mk (Platform.nodes p)
    (foldl (fun m r => alter (Resource.set_state IDLE) r m)
           (Platform.resources p) allocation).


(** The agenda and the platform hold the same resources. *)
Definition aligned (s : RJMSHandler) : Prop :=
  forall r, is_Some (reservation_of s r) <-> is_Some (state_of s r).

(** The ids of the resources of the platform and of the agenda. *)
Definition resource_sets (s : RJMSHandler) : option (gset nat) * option (gset nat) :=
  ((fun p => dom (Platform.resources p)) <$> platform s,
   (fun a => dom (Agenda.reservations a)) <$> _agenda s).

(** [aligned] is kept from [s] to [s']. *)
Definition stays_aligned (s s' : RJMSHandler) : Prop := aligned s -> aligned s'.

(** The simulation time is set, not zero, and reached: the test of
    [on_requested_call]. *)
Definition due (s : RJMSHandler) : bool :=
  match simulation_time s with
  | Some t => negb (falsy t) && (t <=? current_time s)
  | None => false
  end.

(** The simulation time that [start] accepts: none, zero, or one
    that is positive. *)
Definition acceptable (simulation_time : option float) : Prop :=
  match simulation_time with
  | Some x => falsy x || (0 <? x) = true
  | None => True
  end.

End HandlerViews.

(* ===================================================================== *)
(** * Runs of the handler *)
(* ===================================================================== *)

Module Runs.
Import HandlerViews Accounting StartSpec.

(** The jobs of the running cohort, and the jobs that the handler
    holds in its four cohorts. *)
Definition running_jobs (s : RJMSHandler) : list ref :=
  (map_to_list (Jobs.running (_jobs s))).*2.

Definition held (s : RJMSHandler) : list ref :=
  Jobs.queue (_jobs s) ++ Jobs.ready (_jobs s) ++ running_jobs s ++
  Jobs.completed (_jobs s).

(** The ids of the job objects that the handler has accepted. *)
Definition known_ids (s : RJMSHandler) : list string := Job.id <$> store s.

Definition allocation_of (s : RJMSHandler) (j : ref) : option (list nat) :=
  o ← store s !! j; Job.allocation o.

(** What the handler keeps true of its state from one call to the
    next, whatever the calls answer: a running simulation has a
    platform, a platform comes with an agenda, and their resources
    are the same; the cohorts
    hold job objects, each at most once, the running ones under their
    own id, and no two job objects share an id; a job that is ready
    or running has an allocation whose resources are reserved for it;
    the resources of a running job compute, and only they do. *)
Record wf (s : RJMSHandler) : Prop := mk_wf {
  wf_platform : is_running s = true -> is_Some (platform s);
  wf_agenda : is_Some (platform s) -> is_Some (_agenda s);
  wf_aligned : aligned s;
  wf_refs : forall j, j ∈ held s -> is_Some (store s !! j);
  wf_once : NoDup (held s);
  wf_keys : forall k j,
    Jobs.running (_jobs s) !! k = Some j -> (Job.id <$> store s !! j) = Some k;
  wf_ids : NoDup (known_ids s);
  wf_reserved : forall j,
    j ∈ Jobs.ready (_jobs s) ++ running_jobs s ->
    exists ids, allocation_of s j = Some ids /\
      forall r, r ∈ ids -> reservation_of s r = Some (Some j);
  wf_computing : forall j ids r,
    j ∈ running_jobs s -> allocation_of s j = Some ids -> r ∈ ids ->
    state_of s r = Some COMPUTING;
  wf_busy : forall r,
    state_of s r = Some COMPUTING ->
    exists j ids,
      j ∈ running_jobs s /\ allocation_of s j = Some ids /\ r ∈ ids
}.

(** The events that the simulator sends to a handler that has begun
    its simulation: [SIMULATION_BEGINS] comes once, with the first
    batch; the id of a submitted job is new; the data of [JOB_KILLED]
    carries [job_ids] and has no attribute [job_id]. *)
Definition conforming (s : RJMSHandler) (e : Event) : Prop :=
  match e with
  | SIMULATION_BEGINS _ => False
  | JOB_SUBMITTED job => Job.id job ∉ known_ids s
  | JOB_KILLED data => JobKilledData.job_id data = None
  | _ => True
  end.

(** The submissions that an event brings. *)
Definition seen (e : Event) : nat := if is_submission e then 1 else 0.

(** No resource of the platform computes: the platform of
    [SIMULATION_BEGINS]. *)
Definition no_computing (p : Platform.t) : Prop :=
  forall r, resource_state p r <> Some COMPUTING.

(** From the platform [p] to [p'] the resources are the same, and the
    same resources compute. *)
Definition same_computing (p p' : Platform.t) : Prop :=
  (forall r, is_Some (Platform.resources p' !! r) <->
             is_Some (Platform.resources p !! r)) /\
  (forall r, resource_state p' r = Some COMPUTING <->
             resource_state p r = Some COMPUTING).

(** Modelled from the spec: a power method of a node ([sleep],
    [set_pstate]) keeps the resources of the platform, is rejected on
    a computing resource and takes no resource to computing: the
    resources that compute are the same before and after, whatever
    its outcome. *)
Definition spares_computing {A} (method : M Platform.t A) : Prop :=
  preserves same_computing method.

(** From [s] to [s'] the job objects, the cohorts, the agenda and the
    rejections are the same, the simulator has not begun to run, a
    platform is still there, with the same resources, and the same
    resources compute. *)
Definition steady (s s' : RJMSHandler) : Prop :=
  store s' = store s /\ _jobs s' = _jobs s /\ _agenda s' = _agenda s /\
  rejected s' = rejected s /\
  (is_running s' = true -> is_running s = true) /\
  (is_Some (platform s') <-> is_Some (platform s)) /\
  (forall r, is_Some (state_of s' r) <-> is_Some (state_of s r)) /\
  (forall r, state_of s' r = Some COMPUTING <-> state_of s r = Some COMPUTING).

(** The ids of the jobs that a list of events submits. *)
Definition submitted_ids (es : list Event) : list string :=
  omap (fun e => match e with JOB_SUBMITTED job => Some (Job.id job) | _ => None end) es.

(** A step from [s] to [s'] that sees [k] submissions, of jobs with
    the ids [new]: [s'] is well formed and accounts for [k] more jobs,
    a platform is still there, and the job objects are those of [s]
    and some of the new ones. *)
Definition follows (k : nat) (new : list string) (s s' : RJMSHandler) : Prop :=
  wf s' /\ accounted s' = (accounted s + k)%nat /\
  (is_Some (platform s) -> is_Some (platform s')) /\
  known_ids s' ⊆ known_ids s ++ new.

(** The events to come conform, whatever the handler does with them:
    no [SIMULATION_BEGINS], no [JOB_KILLED] data with an attribute
    [job_id], and the ids of the submitted jobs are new and differ
    from each other. *)
Definition conforming_events (s : RJMSHandler) (es : list Event) : Prop :=
  Forall (fun e => match e with
                   | SIMULATION_BEGINS _ => False
                   | JOB_KILLED data => JobKilledData.job_id data = None
                   | _ => True
                   end) es /\
  NoDup (known_ids s ++ submitted_ids es).

Definition conforming_stream (s : RJMSHandler) (stream : list Batch) : Prop :=
  conforming_events s (concat (events <$> stream)).

(** The clock of the simulator moves to [t]: the first step of the
    arrival of a batch. *)
Definition tick (t : float) : M RJMSHandler unit :=
  on_simulator (modify (fun sim =>
    Simulator.mk (Simulator.is_running sim) t (Simulator.requests sim))).

Section Reachable.

Variable state_value : ResourceState -> Z.
Variable node_sleep : Node.t -> M Platform.t unit.
Variable node_set_pstate : Node.t -> nat -> M Platform.t unit.

(** The calls that take no event: the methods of the public
    interface, the sweep, and the request that [proceed_time]
    sends before it advances. *)
Inductive call : M RJMSHandler unit -> Prop :=
| call_allocate job_id resource_ids :
    call (allocate state_value job_id resource_ids)
| call_turn_on node_ids : call (turn_on node_ids)
| call_turn_off node_ids : call (turn_off node_sleep node_ids)
| call_set_pstate node_ids pstate_id :
    call (set_pstate node_set_pstate node_ids pstate_id)
| call_close : call close
| call_set_callback c : call (set_callback c)
| call_start_ready_jobs : call start_ready_jobs
| call_call_me_later t : call (on_simulator (Simulator.call_me_later t)).

(** [reachable n s]: the handler is in state [s] and has seen [n]
    submissions. A handler is constructed; [start] begins the
    simulation on a handler that has seen no submission, with a
    first batch that holds [SIMULATION_BEGINS]; then calls are
    made, the clock moves, events that conform arrive and are
    handled, and the sweep examines the jobs of the ready cohort.
    The state that a call leaves is reached whatever the call
    answers, also when it raises. *)
Inductive reachable : nat -> RJMSHandler -> Prop :=
| reach_init use_batsim :
    reachable 0 (init use_batsim)
| reach_start s simulation_time t p stream rest s' :
    reachable 0 s -> no_computing p ->
    start simulation_time (mkBatch t [SIMULATION_BEGINS p] :: stream) s
      = (Ok rest, s') ->
    reachable 0 s'
| reach_call n s c :
    reachable n s -> call c -> reachable n (c s).2
| reach_tick n s t :
    reachable n s -> reachable n (tick t s).2
| reach_event n s e :
    reachable n s -> is_Some (platform s) -> conforming s e ->
    reachable (n + seen e) (handle (ret tt) e s).2
| reach_examine n s job :
    reachable n s -> job ∈ Jobs.ready (_jobs s) ->
    reachable n (start_if_ready job s).2.

End Reachable.

(** Each job that the handler holds is in one cohort only, and there
    once. *)
Definition in_one_cohort (s : RJMSHandler) : Prop := NoDup (held s).

End Runs.
(* ===================================================================== *)
(** * Reasoning about computations *)
(* ===================================================================== *)

Lemma bind_ret_l {S A B} (a : A) (k : A -> M S B) s : bind (ret a) k s = k a s.
Proof. reflexivity. Qed.

Lemma bind_ok {S A B} (c : M S A) (k : A -> M S B) s a s' :
  c s = (Ok a, s') -> bind c k s = k a s'.
Proof. unfold bind. intros ->. reflexivity. Qed.

Lemma bind_inv {S A B} (c : M S A) (k : A -> M S B) s r s2 :
  bind c k s = (r, s2) ->
  (exists a s1, c s = (Ok a, s1) /\ k a s1 = (r, s2)) \/
  (exists r0, c s = (r0, s2) /\ is_ok r0 = false /\ r = fail_as r0).
Proof.
  unfold bind. destruct (c s) as [[a|e|] s1] eqn:E; intros H.
  - left. eauto.
  - right. exists (Raised e). by inversion H.
  - right. exists Blocked. by inversion H.
Qed.

Lemma bind_inv_ok {S A B} (c : M S A) (k : A -> M S B) s b s2 :
  bind c k s = (Ok b, s2) ->
  exists a s1, c s = (Ok a, s1) /\ k a s1 = (Ok b, s2).
Proof.
  unfold bind. destruct (c s) as [[a|e|] s1] eqn:E; intros H; [eauto | done | done].
Qed.

(** Running the first computation of a sequence whose outcome is known. *)
Tactic Notation "mstep" "by" tactic3(t) :=
  erewrite bind_ok by t; cbv beta.

Lemma for_app {S A} (l1 l2 : list A) (body : A -> M S unit) s :
  for_ (l1 ++ l2) body s = (for_ l1 body >> for_ l2 body) s.
Proof.
  revert s. induction l1 as [|x l1 IH]; intros s; simpl.
  - reflexivity.
  - unfold bind in *. destruct (body x s) as [[[]|e|] s1]; try reflexivity.
    apply IH.
Qed.

Lemma read_only_ret {S A} (a : A) : read_only (@ret S A a).
Proof. by intros s. Qed.

Lemma read_only_raise {S A} e : read_only (@raise S A e).
Proof. by intros s. Qed.

Lemma read_only_get {S} : read_only (@get S).
Proof. by intros s. Qed.

Lemma read_only_bind {S A B} (c : M S A) (k : A -> M S B) :
  read_only c -> (forall a, read_only (k a)) -> read_only (bind c k).
Proof.
  intros Hc Hk s. unfold bind. specialize (Hc s).
  destruct (c s) as [[a|e|] s1]; simpl in *; subst; try done. apply Hk.
Qed.

Lemma read_only_mapM {S A B} (f : A -> M S B) l :
  (forall x, read_only (f x)) -> read_only (mapM f l).
Proof.
  intros Hf. induction l as [|x l IH]; simpl.
  - apply read_only_ret.
  - apply read_only_bind; [apply Hf|]. intros y.
    apply read_only_bind; [apply IH|]. intros ys. apply read_only_ret.
Qed.

(** [mapM] of a reading function succeeds when the function does on each
    element, and the results are related to the elements one by one. *)
Lemma mapM_read_only_ok {S A B} (f : A -> M S B) (R : A -> B -> Prop) l s :
  (forall x, read_only (f x)) ->
  Forall (fun x => exists y, (f x s).1 = Ok y /\ R x y) l ->
  exists ys, mapM f l s = (Ok ys, s) /\ Forall2 R l ys.
Proof.
  intros Hf. induction 1 as [|x l [y [Hy HR]] _ [ys [IH HRs]]]; simpl.
  - exists []. split; [done | constructor].
  - exists (y :: ys). split; [| by constructor].
    unfold bind. pose proof (Hf x s) as Hs.
    destruct (f x s) as [r s1]. simpl in *. subst. by rewrite IH.
Qed.

(* ===================================================================== *)
(** * The agenda: properties *)
(* ===================================================================== *)

Module AgendaFacts.
Import Agenda AgendaSpec.

Lemma reservation_assign_all v rs a r :
  reservation (assign_all v rs a) r =
    if decide (r ∈ rs) then Some v else reservation a r.
Proof.
  unfold reservation, assign_all. destruct a as [m]. simpl.
  revert m. induction rs as [|x rs IH]; intros m; cbn [foldl].
  - case_decide as H; [by apply elem_of_nil in H | done].
  - rewrite IH. destruct (decide (r ∈ rs)) as [Hin|Hnin].
    + rewrite decide_True; [done | by right].
    + destruct (decide (r = x)) as [->|Hne].
      * rewrite decide_True; [| by left]. by rewrite lookup_insert_eq.
      * rewrite decide_False; [by rewrite lookup_insert_ne|].
        rewrite elem_of_cons. intros [?|?]; done.
Qed.

Lemma for_setitem v rs a :
  Forall (known a) rs ->
  for_ rs (fun r => setitem_reservation r v) a = (Ok tt, assign_all v rs a).
Proof.
  revert a. induction rs as [|x rs IH]; intros a Hk.
  - by destruct a.
  - inversion Hk as [|? ? [w Hx] Hrest]; subst. simpl.
    unfold bind at 1. unfold setitem_reservation at 1.
    unfold bind at 1, get. unfold reservation in Hx. rewrite Hx.
    unfold modify. rewrite IH.
    + reflexivity.
    + eapply Forall_impl; [exact Hrest|]. intros r [u Hr].
      unfold known, reservation. simpl.
      destruct (decide (x = r)) as [->|Hne].
      * rewrite lookup_insert_eq. eauto.
      * rewrite lookup_insert_ne; eauto.
Qed.

Lemma all_free_true rs a :
  Forall (free a) rs -> all_free rs a = (Ok true, a).
Proof.
  induction 1 as [|x rs Hx _ IH]; simpl; [done|].
  unfold bind, getitem_reservation, bind, get. unfold free, reservation in Hx.
  rewrite Hx. simpl. exact IH.
Qed.

Lemma reserve_ok jobs j o allocation a :
  jobs !! j = Some o -> Job.allocation o = Some allocation ->
  Forall (free a) allocation ->
  reserve jobs j a = (Ok tt, assign_all (Some j) allocation a).
Proof.
  intros Hj Ha Hfree. unfold reserve, deref.
  rewrite Hj. cbn [getitem]. rewrite bind_ret_l, Ha. cbn [not_none].
  rewrite bind_ret_l. erewrite bind_ok by (by apply all_free_true).
  cbn [assert]. rewrite bind_ret_l. apply for_setitem.
  eapply Forall_impl; [exact Hfree|]. intros r Hr. unfold known. rewrite Hr. eauto.
Qed.

Lemma known_assign_all v rs a r : known a r -> known (assign_all v rs a) r.
Proof.
  unfold known. rewrite reservation_assign_all. case_decide; eauto.
Qed.

(** ** C8 *)

(** C8, as stated, fails: [release] of a resource that holds no
    reservation returns normally and leaves the agenda as it was. *)
Lemma release_free_resource_succeeds :
  free (init [0%nat]) 0%nat /\
  release [0%nat] (init [0%nat]) = (Ok tt, init [0%nat]).
Proof. split; reflexivity. Qed.

(** C8, amended: [release] of resources of the agenda, reserved or not,
    always succeeds; afterwards each listed resource is free and every
    other reservation is as before. *)
Theorem release_clears (a : t) (resource_ids : list nat) :
  Forall (known a) resource_ids ->
  exists a', release resource_ids a = (Ok tt, a') /\
    (forall r, r ∈ resource_ids -> free a' r) /\
    (forall r, r ∉ resource_ids -> reservation a' r = reservation a r).
Proof.
  intros Hk. exists (assign_all None resource_ids a). split; [|split].
  - unfold release. by apply for_setitem.
  - intros r Hr. unfold free. rewrite reservation_assign_all.
    by rewrite decide_True.
  - intros r Hr. rewrite reservation_assign_all. by rewrite decide_False.
Qed.

Lemma release_clears_witness :
  exists a', release [0%nat] Sample.progress_agenda = (Ok tt, a') /\
    (forall r, r ∈ [0%nat] -> free a' r) /\
    (forall r, r ∉ [0%nat] -> reservation a' r = reservation Sample.progress_agenda r).
Proof.
  apply (release_clears Sample.progress_agenda [0%nat]).
  repeat constructor. exists (Some 0%nat). reflexivity.
Defined.

(** ** C9 *)

(** C9: when the allocation of [j] is free, [reserve(j)], then
    [release] of that allocation, then [reserve(j2)] for a job with the
    same allocation, all succeed, and every resource of the allocation
    is then reserved by [j2]. *)
Theorem reserve_release_reserve (jobs : list Job.t) (a : t) (j j2 : ref)
    (o o2 : Job.t) (allocation : list nat) :
  jobs !! j = Some o -> jobs !! j2 = Some o2 ->
  Job.allocation o = Some allocation -> Job.allocation o2 = Some allocation ->
  Forall (free a) allocation ->
  exists a',
    (reserve jobs j >> release allocation >> reserve jobs j2) a = (Ok tt, a') /\
    Forall (fun r => reservation a' r = Some (Some j2)) allocation.
Proof.
  intros Hj Hj2 Ha Ha2 Hfree.
  set (a1 := assign_all (Some j) allocation a).
  set (a2 := assign_all None allocation a1).
  assert (Hk1 : Forall (known a1) allocation).
  { eapply Forall_impl; [exact Hfree|]. intros r Hr.
    apply known_assign_all. unfold known. rewrite Hr. eauto. }
  assert (Hfree2 : Forall (free a2) allocation).
  { apply Forall_forall. intros r Hr. unfold free, a2.
    rewrite reservation_assign_all. by rewrite decide_True. }
  exists (assign_all (Some j2) allocation a2). split.
  - erewrite bind_ok by (eapply reserve_ok; eauto).
    erewrite bind_ok by (unfold release; by apply for_setitem).
    eapply reserve_ok; eauto.
  - apply Forall_forall. intros r Hr. rewrite reservation_assign_all.
    by rewrite decide_True.
Qed.

Lemma reserve_release_reserve_witness :
  exists a',
    (reserve [Sample.overrun; Sample.overrun] 0%nat >> release [0%nat] >>
     reserve [Sample.overrun; Sample.overrun] 1%nat) (init [0%nat; 1%nat]) = (Ok tt, a') /\
    Forall (fun r => reservation a' r = Some (Some 1%nat)) [0%nat].
Proof.
  apply (reserve_release_reserve [Sample.overrun; Sample.overrun] (init [0%nat; 1%nat])
           0%nat 1%nat Sample.overrun Sample.overrun [0%nat]);
    try reflexivity.
  repeat constructor.
Defined.

(** ** C3 *)

Lemma read_only_progress_of jobs now it : read_only (progress_of jobs now it).
Proof.
  unfold progress_of. destruct (it.2) as [j|]; [|apply read_only_ret].
  apply read_only_bind.
  { unfold deref, getitem. destruct (jobs !! j); [apply read_only_ret|apply read_only_raise]. }
  intros o. case_decide; [|apply read_only_ret].
  apply read_only_bind.
  { unfold not_none. destruct (Job.start_time o); [apply read_only_ret|apply read_only_raise]. }
  intros st. apply read_only_bind; [|intros; apply read_only_ret].
  unfold truediv.
  destruct (falsy (Job.walltime o)); [apply read_only_raise|apply read_only_ret].
Qed.

Lemma progress_of_value jobs now it a :
  reserved_job_ok jobs it ->
  exists v, (progress_of jobs now it a).1 = Ok v /\ progress_value jobs now it v.
Proof.
  destruct it as [r [j|]]; unfold reserved_job_ok, progress_of; simpl.
  - intros (o & Hj & Hrun). unfold deref. rewrite Hj. cbn [getitem].
    rewrite bind_ret_l. case_decide as Hst.
    + destruct (Hrun Hst) as [[st Hstart] Hw]. rewrite Hstart. cbn [not_none].
      rewrite bind_ret_l. unfold truediv, bind. rewrite Hw.
      eexists. split; [reflexivity|]. by eapply progress_running.
    + eexists. split; [reflexivity|]. eapply progress_not_running; eauto.
  - intros _. eexists. split; [reflexivity|]. constructor.
Qed.

(** On floats, a finite time over an infinite walltime is a zero, and
    [1] minus a zero is [1]. *)
Lemma finite_over_infinity x : is_finite x = true -> 1 - x / infinity = 1.
Proof.
  unfold is_finite, is_nan, is_infinity. rewrite !eqb_spec, abs_spec.
  intros H. apply Prim2SF_inj. rewrite sub_spec, div_spec.
  destruct (Prim2SF x) as [sx|sx| |sx mx ex]; try discriminate H.
  - reflexivity.
  - destruct sx; discriminate H.
  - reflexivity.
Qed.

(** C3, as stated, fails: a job that has run for twice its walltime
    has progress [-1], where the spec clamps to [0], and a running job
    without walltime has progress [1], where the spec gives [0]. The
    float arithmetic is exact on these values. *)
Lemma get_progress_not_clamped :
  get_progress [Sample.overrun; Sample.unbounded] 200 Sample.progress_agenda
    = (Ok [-1; 1; 0], Sample.progress_agenda) /\
  map (spec_progress [Sample.overrun; Sample.unbounded] 200)
      (items Sample.progress_agenda) = [0; 0; 0].
Proof. split; vm_compute; reflexivity. Qed.

(** C3, amended: [get_progress] leaves the agenda as it is and reports,
    per resource in ascending id order: [0] if the resource is free;
    the float value of [1 - (now - start_time) / walltime], rounded as
    the float operations round and not clamped, if the reserving job
    is running (with a walltime that is not zero), which is [1] when
    the walltime is infinite and the elapsed time finite; [1] if the
    reserving job is not running. *)
Theorem get_progress_values (jobs : list Job.t) (now : float) (a : t) :
  Forall (reserved_job_ok jobs) (items a) ->
  exists vs, get_progress jobs now a = (Ok vs, a) /\
    Forall2 (progress_value jobs now) (items a) vs /\
    forall i r j o start,
      items a !! i = Some (r, Some j) -> jobs !! j = Some o ->
      Job.state o = RUNNING -> Job.start_time o = Some start ->
      Job.walltime o = infinity -> is_finite (now - start) = true ->
      vs !! i = Some 1.
Proof.
  intros Hok. unfold get_progress. rewrite (bind_ok get _ a a a) by reflexivity.
  destruct (mapM_read_only_ok (progress_of jobs now) (progress_value jobs now)
              (items a) a) as (vs & Hrun & Hvs).
  - apply read_only_progress_of.
  - eapply Forall_impl; [exact Hok|]. intros it Hit. by apply progress_of_value.
  - exists vs. split; [done|]. split; [done|].
    intros i r j o start Hi Hj Hst Hstart Hw Hfin.
    destruct (Forall2_lookup_l _ _ _ _ _ Hvs Hi) as (v & Hv & Hpv).
    rewrite Hv. f_equal. inversion Hpv; subst; simplify_eq.
    rewrite Hw. by apply finite_over_infinity.
Qed.

Lemma get_progress_values_witness :
  exists vs,
    get_progress [Sample.overrun; Sample.unbounded] 200 Sample.progress_agenda
      = (Ok vs, Sample.progress_agenda) /\
    Forall2 (progress_value [Sample.overrun; Sample.unbounded] 200)
      (items Sample.progress_agenda) vs /\
    forall i r j o start,
      items Sample.progress_agenda !! i = Some (r, Some j) ->
      [Sample.overrun; Sample.unbounded] !! j = Some o ->
      Job.state o = RUNNING -> Job.start_time o = Some start ->
      Job.walltime o = infinity -> is_finite (200 - start) = true ->
      vs !! i = Some 1.
Proof.
  apply (get_progress_values [Sample.overrun; Sample.unbounded] 200 Sample.progress_agenda).
  change (items Sample.progress_agenda)
    with [(0%nat, Some 0%nat); (1%nat, Some 1%nat); (2%nat, @None ref)].
  repeat constructor; simpl.
  - exists Sample.overrun. split; [reflexivity|]. intros _. split; [by eexists|].
    reflexivity.
  - exists Sample.unbounded. split; [reflexivity|]. intros _. split; [by eexists|].
    reflexivity.
Defined.

End AgendaFacts.
(* ===================================================================== *)
(** * What the computations leave unchanged *)
(* ===================================================================== *)

Section Keeps.
Context {S T : Type} (f : S -> T).

Lemma keeps_ret {A} (a : A) : keeps f (ret a).
Proof. by intros s. Qed.

Lemma keeps_raise {A} e : keeps f (@raise S A e).
Proof. by intros s. Qed.

Lemma keeps_blocked {A} : keeps f (@blocked S A).
Proof. by intros s. Qed.

Lemma keeps_get : keeps f get.
Proof. by intros s. Qed.

Lemma keeps_gets {A} (g : S -> A) : keeps f (gets g).
Proof. by intros s. Qed.

Lemma keeps_assert b : keeps f (assert b).
Proof. by destruct b. Qed.

Lemma keeps_not_none {A} (o : option A) : keeps f (not_none o).
Proof. by destruct o. Qed.

Lemma keeps_getitem {A} (o : option A) : keeps f (getitem o).
Proof. by destruct o. Qed.

Lemma keeps_modify (g : S -> S) : (forall s, f (g s) = f s) -> keeps f (modify g).
Proof. intros H s. apply H. Qed.

Lemma keeps_bind {A B} (c : M S A) (k : A -> M S B) :
  keeps f c -> (forall a, keeps f (k a)) -> keeps f (bind c k).
Proof.
  intros Hc Hk s. unfold bind. specialize (Hc s).
  destruct (c s) as [[a|e|] s1]; simpl in *; try done.
  rewrite <- Hc. apply Hk.
Qed.

Lemma keeps_for {A} (l : list A) (body : A -> M S unit) :
  (forall x, keeps f (body x)) -> keeps f (for_ l body).
Proof.
  intros Hb. induction l as [|x l IH]; simpl.
  - apply keeps_ret.
  - apply keeps_bind; [apply Hb | intros _; exact IH].
Qed.

Lemma keeps_mapM {A B} (g : A -> M S B) (l : list A) :
  (forall x, keeps f (g x)) -> keeps f (mapM g l).
Proof.
  intros Hg. induction l as [|x l IH]; simpl.
  - apply keeps_ret.
  - apply keeps_bind; [apply Hg|]. intros y.
    apply keeps_bind; [apply IH|]. intros ys. apply keeps_ret.
Qed.

Lemma keeps_if {A} (b : bool) (c1 c2 : M S A) :
  keeps f c1 -> keeps f c2 -> keeps f (if b then c1 else c2).
Proof. by destruct b. Qed.

End Keeps.

(** A view that does not look at a component is kept by the calls into
    that component. *)
Lemma keeps_on_platform {T A} (f : RJMSHandler -> T) (c : M Platform.t A) :
  (forall x s, f (set_platform x s) = f s) -> keeps f (on_platform c).
Proof.
  intros H s. unfold on_platform. destruct (platform s) as [p|]; [|done].
  destruct (c p) as [r p']. apply H.
Qed.

Lemma keeps_on_agenda {T A} (f : RJMSHandler -> T) (c : M Agenda.t A) :
  (forall x s, f (set_agenda x s) = f s) -> keeps f (on_agenda c).
Proof.
  intros H s. unfold on_agenda. destruct (_agenda s) as [a|]; [|done].
  destruct (c a) as [r a']. apply H.
Qed.

Lemma keeps_on_simulator {T A} (g : Simulator.t -> T) (c : M Simulator.t A) :
  keeps g c -> keeps (fun s => g (simulator s)) (on_simulator c).
Proof.
  intros H s. unfold on_simulator, zoom. specialize (H (simulator s)).
  destruct (c (simulator s)) as [r sim']. exact H.
Qed.

Lemma keeps_on_simulator_other {T A} (f : RJMSHandler -> T) (c : M Simulator.t A) :
  (forall x s, f (set_simulator x s) = f s) -> keeps f (on_simulator c).
Proof.
  intros H s. unfold on_simulator, zoom.
  destruct (c (simulator s)) as [r sim']. apply H.
Qed.

Lemma keeps_job_of {T} (f : RJMSHandler -> T) j : keeps f (job_of j).
Proof.
  unfold job_of, deref. apply keeps_bind; [apply keeps_get|].
  intros s. apply keeps_getitem.
Qed.

Lemma keeps_on_job {T} (f : RJMSHandler -> T) j method :
  (forall x s, f (set_store x s) = f s) -> keeps f (on_job j method).
Proof.
  intros H. unfold on_job. apply keeps_bind; [apply keeps_job_of|].
  intros o. apply keeps_modify. intros s. apply H.
Qed.

Ltac keeps_step :=
  first
    [ apply keeps_ret | apply keeps_raise | apply keeps_blocked | apply keeps_get
    | apply keeps_gets | apply keeps_assert | apply keeps_not_none
    | apply keeps_getitem | apply keeps_job_of
    | apply keeps_bind; [|intros ?]
    | apply keeps_for; intros ?
    | apply keeps_mapM; intros ?
    | apply keeps_on_platform; intros ? ?; reflexivity
    | apply keeps_on_agenda; intros ? ?; reflexivity
    | apply keeps_on_simulator_other; intros ? ?; reflexivity
    | apply keeps_on_job; intros ? ?; reflexivity
    | apply keeps_modify; intros ?; reflexivity
    | match goal with |- keeps _ (match ?x with _ => _ end) => destruct x end ].

Ltac keeps_tac := repeat keeps_step.

(** ** The simulator's requests *)

Lemma executions_send_other r s :
  is_execute r = false ->
  executions (set_simulator (Simulator.send r (simulator s)).2 s) = executions s.
Proof.
  intros Hr. unfold executions. simpl. rewrite filter_app. simpl.
  rewrite filter_cons_False by (rewrite Hr; done).
  rewrite filter_nil. apply app_nil_r.
Qed.

(** ** [turn_on] and [initiate_resources] *)

Lemma turn_on_nodes_keeps {T} (f : RJMSHandler -> T) node_ids groups :
  (forall x s, f (set_platform x s) = f s) ->
  keeps f (turn_on_nodes node_ids groups).
Proof.
  intros H. revert groups. induction node_ids as [|i rest IH]; intros groups; simpl.
  - apply keeps_ret.
  - apply keeps_bind; [by apply keeps_on_platform|]. intros node.
    apply keeps_bind; [by apply keeps_on_platform|]. intros _.
    apply keeps_bind; [unfold next_power_state; keeps_tac|]. intros ps. apply IH.
Qed.

Lemma turn_on_keeps_jobs node_ids : keeps _jobs (turn_on node_ids).
Proof.
  unfold turn_on. apply keeps_bind; [by apply turn_on_nodes_keeps|].
  intros groups. apply keeps_for. intros [ps ids]. keeps_tac.
Qed.

Lemma turn_on_keeps_store node_ids : keeps store (turn_on node_ids).
Proof.
  unfold turn_on. apply keeps_bind; [by apply turn_on_nodes_keeps|].
  intros groups. apply keeps_for. intros [ps ids]. keeps_tac.
Qed.

Lemma turn_on_keeps_executions node_ids : keeps executions (turn_on node_ids).
Proof.
  unfold turn_on. apply keeps_bind; [by apply turn_on_nodes_keeps|].
  intros groups. apply keeps_for. intros [ps ids] s.
  unfold on_simulator, zoom, Simulator.set_resources_pstate.
  by apply executions_send_other.
Qed.

Lemma initiate_resources_loop_keeps {T} (f : RJMSHandler -> T) :
  (forall x s, f (set_platform x s) = f s) ->
  (forall ids, keeps f (turn_on ids)) ->
  forall resources ready visited, keeps f (initiate_resources_loop resources ready visited).
Proof.
  intros H Hturn. induction resources as [|r rest IH]; intros ready visited; simpl.
  - apply keeps_ret.
  - apply keeps_bind; [by apply keeps_on_platform|]. intros o.
    apply keeps_if; [|apply IH].
    apply keeps_bind; [|intros _; apply IH].
    apply keeps_if; [apply Hturn | apply keeps_ret].
Qed.

(** ** Evaluating the steps of a sweep *)

Lemma set_platform_id s p : platform s = Some p -> set_platform (Some p) s = s.
Proof. destruct s. simpl. by intros ->. Qed.

Lemma on_platform_read {A} (c : M Platform.t A) s p a :
  platform s = Some p -> c p = (Ok a, p) -> on_platform c s = (Ok a, s).
Proof.
  intros Hp Hc. unfold on_platform. rewrite Hp, Hc. by rewrite set_platform_id.
Qed.

Lemma job_of_ok s j o : store s !! j = Some o -> job_of j s = (Ok o, s).
Proof. intros H. unfold job_of, deref, bind, get. by rewrite H. Qed.

Lemma on_job_ok s j o method :
  store s !! j = Some o ->
  on_job j method s = (Ok tt, set_store (<[j := method o]> (store s)) s).
Proof. intros H. unfold on_job. mstep by (by apply job_of_ok). reflexivity. Qed.

Lemma get_resources_ok p ids :
  Forall (fun r => is_Some (Platform.resources p !! r)) ids ->
  Platform.get_resources (Some ids) p = (Ok ids, p).
Proof.
  intros H. unfold Platform.get_resources. cbn [not_none]. rewrite bind_ret_l.
  rewrite (bind_ok get _ p p p) by reflexivity.
  induction H as [|r ids [o Hr] _ IH]; simpl; [done|].
  unfold bind at 1. unfold bind at 1. rewrite Hr. simpl.
  unfold bind at 1. by rewrite IH.
Qed.

Lemma resource_ok p r o :
  Platform.resources p !! r = Some o -> Platform.resource r p = (Ok o, p).
Proof. intros H. unfold Platform.resource, bind, get. by rewrite H. Qed.

Module StartFacts.
Import StartSpec.

Lemma resource_state_Some p r st :
  resource_state p r = Some st <->
  exists o, Platform.resources p !! r = Some o /\ Resource.state o = st.
Proof.
  unfold resource_state. destruct (Platform.resources p !! r) as [o|]; simpl.
  - split; [intros [= <-]; eauto | intros (? & [= <-] & <-); done].
  - split; [done | intros (? & ? & _); done].
Qed.

(** When every resource is idle, [initiate_resources] answers with the
    value of [ready] it started from and changes nothing. *)
Lemma initiate_resources_loop_idle s p resources ready visited :
  platform s = Some p -> all_idle p resources ->
  initiate_resources_loop resources ready visited s = (Ok ready, s).
Proof.
  intros Hp. induction 1 as [|r rest Hr _ IH]; simpl; [done|].
  apply resource_state_Some in Hr as (o & Hr & Hst).
  erewrite bind_ok by (eapply on_platform_read; [done | by apply resource_ok]).
  unfold Resource.is_idle. rewrite Hst. simpl. exact IH.
Qed.

(** [initiate_resources] answers [True] only if it started from
    [ready = True] and met idle resources only; [nodes_visited] is
    empty as long as [ready] holds. *)
Lemma initiate_resources_loop_true s s' p resources ready visited :
  platform s = Some p ->
  (ready = true -> visited = ∅) ->
  initiate_resources_loop resources ready visited s = (Ok true, s') ->
  ready = true /\ all_idle p resources.
Proof.
  intros Hp. revert ready visited.
  induction resources as [|r rest IH]; intros ready visited Hinv; simpl.
  - intros [= ->]. split; [done | constructor].
  - intros H. apply bind_inv_ok in H as (o & s1 & Ho & H).
    unfold on_platform in Ho. rewrite Hp in Ho.
    unfold Platform.resource, bind, get in Ho.
    destruct (Platform.resources p !! r) as [o'|] eqn:Hr; [|done].
    simpl in Ho. injection Ho as <- <-. rewrite set_platform_id in H by done.
    destruct (negb (Resource.is_idle o') &&
              negb (bool_decide (Resource.parent_id o' ∈ visited))) eqn:Hc.
    + apply bind_inv_ok in H as ([] & s2 & _ & H).
      (* [ready] is now [False] and stays so *)
      exfalso. clear -H. revert s2 s' H.
      generalize ({[Resource.parent_id o']} ∪ visited).
      induction rest as [|r' rest IH']; intros v s2 s'; simpl; [done|].
      intros H. apply bind_inv_ok in H as (o2 & s3 & _ & H).
      destruct (_ && _).
      * apply bind_inv_ok in H as ([] & s4 & _ & H). eauto.
      * eauto.
    + destruct (IH ready visited Hinv H) as [-> Hrest]. split; [done|].
      constructor; [|done]. apply resource_state_Some. exists o'. split; [done|].
      rewrite Hinv in Hc by done. unfold Resource.is_idle in Hc.
      destruct (bool_decide (Resource.state o' = IDLE)) eqn:E;
        [by apply bool_decide_eq_true in E|].
      simpl in Hc. rewrite bool_decide_eq_false_2 in Hc; [done|].
      apply not_elem_of_empty.
Qed.

(** [r.start_computing()] over an allocation of idle or computing
    resources. *)
Lemma start_computing_all s p allocation :
  platform s = Some p -> spec_ready p allocation ->
  for_ allocation (fun r => on_platform (Platform.on_resource r Resource.start_computing)) s
    = (Ok tt, set_platform (Some (mark_computing allocation p)) s).
Proof.
  intros Hp Hall. revert s p Hp Hall.
  induction allocation as [|r rest IH]; intros s p Hp Hall; simpl.
  - rewrite set_platform_id; [done|]. rewrite Hp. by destruct p.
  - inversion Hall as [|? ? Hr Hrest]; subst.
    assert (exists o, Platform.resources p !! r = Some o /\
              (Resource.state o = IDLE \/ Resource.state o = COMPUTING))
      as (o & Ho & Hst).
    { destruct Hr as [Hr|Hr]; apply resource_state_Some in Hr as (o & ? & ?); eauto. }
    set (p1 := Platform.mk (Platform.nodes p)
                 (alter (Resource.set_state COMPUTING) r (Platform.resources p))).
    assert (Hstep : on_platform (Platform.on_resource r Resource.start_computing) s
                    = (Ok tt, set_platform (Some p1) s)).
    { unfold on_platform. rewrite Hp. unfold Platform.on_resource.
      erewrite bind_ok by (by apply resource_ok).
      assert (Resource.start_computing o = (Ok tt, Resource.set_state COMPUTING o)) as ->.
      { unfold Resource.start_computing, bind, get. by destruct Hst as [-> | ->]. }
      unfold bind, modify, ret. do 3 f_equal. unfold p1. f_equal.
      apply map_eq. intros i. rewrite lookup_alter, lookup_insert.
      destruct (decide (r = i)) as [->|]; [by rewrite Ho | done]. }
    erewrite bind_ok by exact Hstep.
    rewrite (IH _ p1).
    + destruct s; reflexivity.
    + by destruct s.
    + eapply Forall_impl; [exact Hrest|]. intros i Hi. unfold resource_state, p1. simpl.
      rewrite lookup_alter. destruct (decide (r = i)) as [->|]; [|done].
      rewrite Ho. simpl. by right.
Qed.

Lemma list_remove_elem_of x l : x ∈ l -> is_Some (list_remove x l).
Proof.
  induction l as [|y l IH]; [by intros ?%elem_of_nil|].
  intros Hin. simpl. destruct (decide (y = x)); [eauto|].
  apply elem_of_cons in Hin as [->|Hin]; [done|].
  destruct (IH Hin) as [l' ->]. simpl. eauto.
Qed.

Lemma all_idle_spec_ready p allocation : all_idle p allocation -> spec_ready p allocation.
Proof. intros H. eapply Forall_impl; [exact H|]. intros r Hr. by left. Qed.

(** The body of the sweep on a job whose resources are all idle. *)
Lemma start_if_ready_idle s job o allocation p ready' :
  store s !! job = Some o -> Job.allocation o = Some allocation ->
  platform s = Some p -> all_idle p allocation ->
  list_remove job (Jobs.ready (_jobs s)) = Some ready' ->
  start_if_ready job s = (Ok tt, started job o allocation p ready' s).
Proof.
  intros Hj Ha Hp Hidle Hrm. unfold start_if_ready.
  assert (Hknown : Forall (fun r => is_Some (Platform.resources p !! r)) allocation).
  { eapply Forall_impl; [exact Hidle|]. intros r Hr.
    apply resource_state_Some in Hr as (? & -> & _). eauto. }
  mstep by (by apply job_of_ok).
  mstep by (eapply on_platform_read; [done|]; rewrite Ha; by apply get_resources_ok).
  rewrite (bind_ok (initiate_resources allocation) _ s true s)
    by (by eapply initiate_resources_loop_idle).
  mstep by (apply start_computing_all; [done | by apply all_idle_spec_ready]).
  assert (Hlt : (job < length (store s))%nat) by (by eapply lookup_lt_Some).
  mstep by reflexivity.
  mstep by (by apply on_job_ok).
  mstep by (apply job_of_ok; simpl; by apply list_lookup_insert_eq).
  mstep by reflexivity.
  mstep by reflexivity.
  mstep by (unfold remove_from; simpl; rewrite Hrm; reflexivity).
  mstep by reflexivity.
  mstep by (apply job_of_ok; simpl; by apply list_lookup_insert_eq).
  unfold modify. destruct s. simpl in *. unfold started. simpl. by rewrite Ha.
Qed.

Lemma initiate_resources_keeps {T} (f : RJMSHandler -> T) resources :
  (forall x s, f (set_platform x s) = f s) ->
  (forall ids, keeps f (turn_on ids)) ->
  keeps f (initiate_resources resources).
Proof. intros. by apply initiate_resources_loop_keeps. Qed.

(** The body of the sweep on a job with a resource that is not idle:
    the cohorts, the job objects and the executions sent stay as they
    are, whatever the outcome. *)
Lemma start_if_ready_not_idle s job o allocation p r s' :
  store s !! job = Some o -> Job.allocation o = Some allocation ->
  platform s = Some p ->
  Forall (fun r => is_Some (Platform.resources p !! r)) allocation ->
  ~ all_idle p allocation ->
  start_if_ready job s = (r, s') ->
  _jobs s' = _jobs s /\ store s' = store s /\ executions s' = executions s.
Proof.
  intros Hj Ha Hp Hknown Hnot. unfold start_if_ready.
  mstep by (by apply job_of_ok).
  mstep by (eapply on_platform_read; [done|]; rewrite Ha; by apply get_resources_ok).
  pose proof (initiate_resources_keeps _jobs allocation
                (fun _ _ => eq_refl) turn_on_keeps_jobs s) as K1.
  pose proof (initiate_resources_keeps store allocation
                (fun _ _ => eq_refl) turn_on_keeps_store s) as K2.
  pose proof (initiate_resources_keeps executions allocation
                (fun _ _ => eq_refl) turn_on_keeps_executions s) as K3.
  unfold bind. destruct (initiate_resources allocation s) as [[[]|e|] s1] eqn:E;
    simpl in K1, K2, K3.
  - exfalso. apply Hnot.
    by eapply (initiate_resources_loop_true s s1 p allocation true ∅).
  - intros [= <- <-]. done.
  - intros [= <- <-]. done.
  - intros [= <- <-]. done.
Qed.

(** The platform after a start: the resources of the allocation
    compute, the others are as they were. *)
Lemma mark_computing_state p allocation r :
  resource_state (mark_computing allocation p) r =
    if decide (r ∈ allocation)
    then (fun _ => COMPUTING) <$> resource_state p r
    else resource_state p r.
Proof.
  unfold resource_state, mark_computing. destruct p as [ns rs]. simpl.
  revert rs. induction allocation as [|x rest IH]; intros rs; cbn [foldl].
  - case_decide as H; [by apply elem_of_nil in H | done].
  - rewrite IH. rewrite lookup_alter.
    destruct (decide (x = r)) as [->|Hne].
    + rewrite (decide_True (P := r ∈ r :: rest)) by (by left).
      destruct (decide (r ∈ rest)); by destruct (rs !! r).
    + destruct (decide (r ∈ rest)) as [Hin|Hnin].
      * by rewrite (decide_True (P := r ∈ x :: rest)) by (by right).
      * rewrite (decide_False (P := r ∈ x :: rest)); [done|].
        rewrite elem_of_cons. intros [?|?]; done.
Qed.

(** The sweep examines the jobs of the snapshot one after the other. *)
Lemma start_ready_jobs_examines s pre job post :
  Jobs.ready (_jobs s) = pre ++ job :: post ->
  start_ready_jobs s =
    (for_ pre start_if_ready >> start_if_ready job >> for_ post start_if_ready) s.
Proof.
  intros H. unfold start_ready_jobs.
  rewrite (bind_ok get _ s s s) by reflexivity. rewrite H.
  by rewrite for_app.
Qed.

(** ** C1 *)




End StartFacts.

(* ===================================================================== *)
(** * Computations that never wait for events *)
(* ===================================================================== *)

Section NeverBlocks.
Context {S : Type}.

Lemma never_blocks_ret {A} (a : A) : never_blocks (@ret S A a).
Proof. by intros s. Qed.

Lemma never_blocks_raise {A} e : never_blocks (@raise S A e).
Proof. by intros s. Qed.

Lemma never_blocks_get : never_blocks (@get S).
Proof. by intros s. Qed.

Lemma never_blocks_gets {A} (g : S -> A) : never_blocks (gets g).
Proof. by intros s. Qed.

Lemma never_blocks_modify (g : S -> S) : never_blocks (modify g).
Proof. by intros s. Qed.

Lemma never_blocks_assert b : never_blocks (@assert S b).
Proof. by destruct b. Qed.

Lemma never_blocks_not_none {A} (o : option A) : never_blocks (@not_none S A o).
Proof. by destruct o. Qed.

Lemma never_blocks_getitem {A} (o : option A) : never_blocks (@getitem S A o).
Proof. by destruct o. Qed.

Lemma never_blocks_bind {A B} (c : M S A) (k : A -> M S B) :
  never_blocks c -> (forall a, never_blocks (k a)) -> never_blocks (bind c k).
Proof.
  intros Hc Hk s. unfold bind. specialize (Hc s).
  destruct (c s) as [[a|e|] s1]; simpl in *; try done. apply Hk.
Qed.

Lemma never_blocks_for {A} (l : list A) (body : A -> M S unit) :
  (forall x, never_blocks (body x)) -> never_blocks (for_ l body).
Proof.
  intros Hb. induction l as [|x l IH]; simpl.
  - apply never_blocks_ret.
  - apply never_blocks_bind; [apply Hb | intros _; exact IH].
Qed.

Lemma never_blocks_mapM {A B} (g : A -> M S B) (l : list A) :
  (forall x, never_blocks (g x)) -> never_blocks (mapM g l).
Proof.
  intros Hg. induction l as [|x l IH]; simpl.
  - apply never_blocks_ret.
  - apply never_blocks_bind; [apply Hg|]. intros y.
    apply never_blocks_bind; [apply IH|]. intros ys. apply never_blocks_ret.
Qed.

Lemma never_blocks_if {A} (b : bool) (c1 c2 : M S A) :
  never_blocks c1 -> never_blocks c2 -> never_blocks (if b then c1 else c2).
Proof. by destruct b. Qed.

End NeverBlocks.

Lemma never_blocks_on_platform {A} (c : M Platform.t A) :
  never_blocks c -> never_blocks (on_platform c).
Proof.
  intros H s. unfold on_platform. destruct (platform s) as [p|]; [|done].
  specialize (H p). by destruct (c p).
Qed.

Lemma never_blocks_on_agenda {A} (c : M Agenda.t A) :
  never_blocks c -> never_blocks (on_agenda c).
Proof.
  intros H s. unfold on_agenda. destruct (_agenda s) as [a|]; [|done].
  specialize (H a). by destruct (c a).
Qed.

Lemma never_blocks_on_simulator {A} (c : M Simulator.t A) :
  never_blocks c -> never_blocks (on_simulator c).
Proof.
  intros H s. unfold on_simulator, zoom. specialize (H (simulator s)).
  by destruct (c (simulator s)).
Qed.

Lemma never_blocks_on_resource {A} r (method : M Resource.t A) :
  never_blocks method -> never_blocks (Platform.on_resource r method).
Proof.
  intros H. unfold Platform.on_resource, Platform.resource.
  apply never_blocks_bind.
  { apply never_blocks_bind; [apply never_blocks_get|]. intros p. apply never_blocks_getitem. }
  intros o. specialize (H o). destruct (method o) as [[a|e|] o']; simpl in H; [| |done].
  - apply never_blocks_bind; [apply never_blocks_modify|]. intros _. apply never_blocks_ret.
  - apply never_blocks_raise.
Qed.

Ltac never_blocks_step :=
  first
    [ apply never_blocks_ret | apply never_blocks_raise | apply never_blocks_get
    | apply never_blocks_gets | apply never_blocks_modify | apply never_blocks_assert
    | apply never_blocks_not_none | apply never_blocks_getitem
    | apply never_blocks_on_resource
    | apply never_blocks_on_platform
    | apply never_blocks_on_agenda
    | apply never_blocks_on_simulator
    | apply never_blocks_for; intros ?
    | apply never_blocks_mapM; intros ?
    | apply never_blocks_bind; [|intros ?]
    | match goal with |- never_blocks (match ?x with _ => _ end) => destruct x end ].

Ltac never_blocks_tac := repeat never_blocks_step.

Lemma never_blocks_job_of j : never_blocks (job_of j).
Proof. unfold job_of, deref. never_blocks_tac. Qed.

Lemma never_blocks_on_job j method : never_blocks (on_job j method).
Proof. unfold on_job. apply never_blocks_bind; [apply never_blocks_job_of|]. intros o. never_blocks_tac. Qed.

Lemma never_blocks_turn_on node_ids : never_blocks (turn_on node_ids).
Proof.
  unfold turn_on. apply never_blocks_bind.
  - generalize (@nil (nat * list nat)).
    induction node_ids as [|i rest IH]; intros groups; simpl; [apply never_blocks_ret|].
    apply never_blocks_bind.
    { unfold Platform.get_node. never_blocks_tac. }
    intros node. apply never_blocks_bind.
    { unfold Platform.wakeup, Platform.resource, Resource.wakeup. never_blocks_tac. }
    intros _. apply never_blocks_bind; [unfold next_power_state; never_blocks_tac|].
    intros ps. apply IH.
  - intros groups. apply never_blocks_for. intros [ps ids].
    unfold Simulator.set_resources_pstate, Simulator.send. never_blocks_tac.
Qed.

Lemma never_blocks_initiate_resources resources :
  never_blocks (initiate_resources resources).
Proof.
  unfold initiate_resources. generalize true, (∅ : gset nat).
  induction resources as [|r rest IH]; intros ready visited; simpl.
  - apply never_blocks_ret.
  - apply never_blocks_bind; [unfold Platform.resource; never_blocks_tac|].
    intros o. apply never_blocks_if; [|apply IH].
    apply never_blocks_bind; [|intros _; apply IH].
    apply never_blocks_if; [apply never_blocks_turn_on | apply never_blocks_ret].
Qed.

Lemma never_blocks_start_if_ready job : never_blocks (start_if_ready job).
Proof.
  unfold start_if_ready.
  apply never_blocks_bind; [apply never_blocks_job_of|]. intros j.
  apply never_blocks_bind.
  { unfold Platform.get_resources. never_blocks_tac. }
  intros resources. apply never_blocks_bind; [apply never_blocks_initiate_resources|].
  intros [|]; [|apply never_blocks_ret].
  apply never_blocks_bind.
  { unfold Resource.start_computing. never_blocks_tac. }
  intros _. apply never_blocks_bind; [apply never_blocks_gets|]. intros now.
  apply never_blocks_bind; [apply never_blocks_on_job|]. intros _.
  apply never_blocks_bind; [apply never_blocks_job_of|]. intros j'.
  apply never_blocks_bind.
  { unfold Simulator.execute_job, Simulator.send. never_blocks_tac. }
  intros _. apply never_blocks_bind; [apply never_blocks_get|]. intros s.
  apply never_blocks_bind; [unfold remove_from; never_blocks_tac|]. intros ready'.
  apply never_blocks_bind; [apply never_blocks_modify|]. intros _.
  apply never_blocks_bind; [apply never_blocks_job_of|]. intros j''.
  apply never_blocks_modify.
Qed.

Lemma never_blocks_start_ready_jobs : never_blocks start_ready_jobs.
Proof.
  unfold start_ready_jobs. apply never_blocks_bind; [apply never_blocks_get|].
  intros s. apply never_blocks_for. intros job. apply never_blocks_start_if_ready.
Qed.

(** ** The sweep and the clock *)

Lemma turn_on_keeps_simulator_view {T} (g : Simulator.t -> T) node_ids :
  (forall r, keeps g (Simulator.send r)) ->
  keeps (fun s => g (simulator s)) (turn_on node_ids).
Proof.
  intros Hg. unfold turn_on. apply keeps_bind; [by apply turn_on_nodes_keeps|].
  intros groups. apply keeps_for. intros [ps ids].
  apply keeps_on_simulator. apply Hg.
Qed.

Lemma start_if_ready_keeps_simulator_view {T} (g : Simulator.t -> T) job :
  (forall r, keeps g (Simulator.send r)) ->
  keeps (fun s => g (simulator s)) (start_if_ready job).
Proof.
  intros Hg. unfold start_if_ready.
  apply keeps_bind; [apply keeps_job_of|]. intros j.
  apply keeps_bind; [by apply keeps_on_platform|]. intros resources.
  apply keeps_bind.
  { apply StartFacts.initiate_resources_keeps; [done|].
    intros ids. by apply turn_on_keeps_simulator_view. }
  intros [|]; [|apply keeps_ret].
  apply keeps_bind; [apply keeps_for; intros r; by apply keeps_on_platform|]. intros _.
  apply keeps_bind; [apply keeps_gets|]. intros now.
  apply keeps_bind; [by apply keeps_on_job|]. intros _.
  apply keeps_bind; [apply keeps_job_of|]. intros j'.
  apply keeps_bind; [apply keeps_on_simulator, Hg|]. intros _.
  apply keeps_bind; [apply keeps_get|]. intros s.
  apply keeps_bind; [unfold remove_from; keeps_tac|]. intros ready'.
  apply keeps_bind; [by apply keeps_modify|]. intros _.
  apply keeps_bind; [apply keeps_job_of|]. intros j''.
  by apply keeps_modify.
Qed.

Lemma start_ready_jobs_keeps_simulator_view {T} (g : Simulator.t -> T) :
  (forall r, keeps g (Simulator.send r)) ->
  keeps (fun s => g (simulator s)) start_ready_jobs.
Proof.
  intros Hg. unfold start_ready_jobs. apply keeps_bind; [apply keeps_get|].
  intros s. apply keeps_for. intros job. by apply start_if_ready_keeps_simulator_view.
Qed.

Lemma start_ready_jobs_keeps_current_time : keeps current_time start_ready_jobs.
Proof. apply (start_ready_jobs_keeps_simulator_view Simulator.current_time). by intros r s. Qed.

Lemma start_ready_jobs_keeps_is_running : keeps is_running start_ready_jobs.
Proof. apply (start_ready_jobs_keeps_simulator_view Simulator.is_running). by intros r s. Qed.

Module ProceedFacts.

(** ** C7 *)

(** C7, as stated, fails: with a negative [until], [proceed_time] does
    not fail; it handles the next batch and the clock moves on. *)
Lemma proceed_time_negative_until_advances :
  (-1 <? 0) = true /\
  proceed_time (-1) [mkBatch 20 []] (Sample.waiting false COMPUTING)
    = (Ok [],
       set_simulator (Simulator.mk true 20 []) (Sample.waiting false COMPUTING)).
Proof. split; reflexivity. Qed.

(** C7, amended: [proceed_time(until)] fails, with [AssertionError],
    when no simulation is in progress, and leaves the handler as it
    is; it fails when [0 < until <= current_time] (the test
    [until > current_time] is false), after the sweep over the ready
    jobs, and then handles no batch: the outcome does not depend on
    the events to come and the clock has not moved. *)
Theorem proceed_time_rejects (s : RJMSHandler) (until : float) :
  (is_running s = false ->
     forall stream, proceed_time until stream s = (Raised AssertionError, s)) /\
  (is_running s = true -> (0 <? until) = true ->
   (current_time s <? until) = false ->
     exists e s',
       (forall stream, proceed_time until stream s = (Raised e, s')) /\
       current_time s' = current_time s /\ is_running s' = true).
Proof.
  split.
  - intros Hr stream. unfold proceed_time.
    rewrite (bind_ok (gets is_running) _ s false s) by (unfold gets; by rewrite Hr).
    reflexivity.
  - intros Hr Hpos Hle.
    pose proof (start_ready_jobs_keeps_current_time s) as Kt.
    pose proof (start_ready_jobs_keeps_is_running s) as Kr.
    pose proof (never_blocks_start_ready_jobs s) as Hnb.
    destruct (start_ready_jobs s) as [[[]|e|] s1] eqn:E; simpl in Kt, Kr, Hnb; [| |done].
    + exists AssertionError, s1. split; [|split; [done | congruence]].
      intros stream. unfold proceed_time.
      rewrite (bind_ok (gets is_running) _ s true s) by (unfold gets; by rewrite Hr).
      cbn [assert]. rewrite bind_ret_l. mstep by exact E.
      unfold advance. rewrite Hpos.
      assert ((current_time s1 <? until) = false) as Hlt.
      { by rewrite Kt. }
      cbv beta iota delta [bind gets]. rewrite Hlt. reflexivity.
    + exists e, s1. split; [|split; [done | congruence]].
      intros stream. unfold proceed_time.
      rewrite (bind_ok (gets is_running) _ s true s) by (unfold gets; by rewrite Hr).
      cbn [assert]. rewrite bind_ret_l. unfold bind at 1. by rewrite E.
Qed.

Lemma proceed_time_rejects_witness :
  (forall stream, proceed_time 5 stream (init false) = (Raised AssertionError, init false)) /\
  (exists e s',
     (forall stream, proceed_time 5 stream (Sample.waiting false COMPUTING) = (Raised e, s')) /\
     current_time s' = current_time (Sample.waiting false COMPUTING) /\
     is_running s' = true).
Proof.
  split.
  - apply (proj1 (proceed_time_rejects (init false) 5)). reflexivity.
  - apply (proj2 (proceed_time_rejects (Sample.waiting false COMPUTING) 5)).
    + reflexivity.
    + reflexivity.
    + reflexivity.
Defined.

End ProceedFacts.

Module DrainFacts.
Import ProceedSpec.

(** The loop of the nested [check_end_of_simulation] is never entered:
    [on_requested_call] reaches it only when the simulator is not
    running, and then the guard fails. *)
Lemma on_requested_call_loop_irrelevant loop1 loop2 s :
  on_requested_call loop1 s = on_requested_call loop2 s.
Proof.
  unfold on_requested_call, bind, get.
  destruct (simulation_time s) as [t|]; [|done].
  destruct (negb (falsy t) && (t <=? current_time s)); [|done].
  destruct (is_running s) eqn:Hr; [done|].
  unfold check_end_of_simulation, bind, get, end_of_simulation.
  unfold is_running in Hr. rewrite Hr. by rewrite andb_false_r.
Qed.

Lemma deliver_loop_irrelevant loop1 loop2 b s :
  deliver loop1 b s = deliver loop2 b s.
Proof.
  unfold deliver, bind. destruct (on_simulator _ s) as [[[]|e|] s1]; [|done|done].
  revert s1. induction (events b) as [|e es IH]; intros s1; simpl; [done|].
  unfold bind.
  assert (handle loop1 e s1 = handle loop2 e s1) as ->.
  { destruct e; try reflexivity. apply on_requested_call_loop_irrelevant. }
  destruct (handle loop2 e s1) as [[[]|e'|] s2]; [apply IH|done|done].
Qed.

Lemma drain_unfold stream :
  drain stream =
    (let* running := gets is_running in
     if running then
       match stream with
       | [] => blocked
       | b :: rest => receive b >> drain rest
       end
     else ret stream).
Proof. by destruct stream. Qed.

(** [drain] handles the batches up to the one that stops the
    simulator, and returns the rest of the stream. *)
Lemma drain_delivers s consumed s' rest :
  delivers s consumed s' ->
  drain (consumed ++ rest) s = (Ok rest, s') /\ is_running s' = false.
Proof.
  induction 1 as [s Hr | s b s1 consumed s' Hr Hb _ [IH Hs']].
  - split; [|done]. rewrite drain_unfold. unfold bind, gets. by rewrite Hr.
  - split; [|done]. simpl. unfold bind at 1. unfold gets. rewrite Hr.
    mstep by exact Hb. exact IH.
Qed.

Lemma drain_inv stream s rest s' :
  drain stream s = (Ok rest, s') ->
  exists consumed, stream = consumed ++ rest /\ delivers s consumed s'.
Proof.
  revert s. induction stream as [|b stream IH]; intros s; rewrite drain_unfold;
    unfold bind at 1; unfold gets; destruct (is_running s) eqn:Hr.
  - done.
  - intros [= <- <-]. exists []. split; [done | by constructor].
  - intros H. apply bind_inv_ok in H as ([] & s1 & Hb & H).
    destruct (IH _ H) as (consumed & -> & Hd).
    exists (b :: consumed). split; [done|]. by econstructor.
  - intros [= <- <-]. exists []. split; [done | by constructor].
Qed.

(** When the stream runs out while the simulator is running, [drain]
    waits for a batch that never comes. *)
Lemma drain_blocked s : is_running s = true -> drain [] s = (Blocked, s).
Proof. intros Hr. simpl. unfold bind, gets. by rewrite Hr. Qed.

(** ** C6 *)

(** C6, as stated, fails: with the default backend ([use_batsim]
    false), [proceed_time] returns after one batch although the
    submitter has ended, every cohort is empty and the simulator is
    still running; the batch that would end the simulation is left
    in the stream. *)
Lemma proceed_time_no_drain_without_batsim :
  proceed_time 0 Sample.last_batches (Sample.finishing false)
    = (Ok [mkBatch 30 [SIMULATION_ENDS]; mkBatch 40 []],
       set_simulator (Simulator.mk true 20 []) (Sample.finishing false)) /\
  end_of_simulation (set_simulator (Simulator.mk true 20 []) (Sample.finishing false))
    = true.
Proof. split; reflexivity. Qed.

(** C6, amended: when the sweep and the advance of [proceed_time] have
    completed, a handler on the Batsim backend ([use_batsim] set) with
    the submitter ended, the simulator running and the queue, ready
    and running cohorts empty goes on handling batches until one stops
    the simulator, and returns the rest of the stream; a handler on
    the other backend returns right after the advance. *)
Theorem proceed_time_drains_with_batsim (s s0 s1 : RJMSHandler) (until : float)
    (stream stream1 : list Batch) :
  is_running s = true ->
  start_ready_jobs s = (Ok tt, s0) ->
  advance until stream s0 = (Ok stream1, s1) ->
  (use_batsim s1 = true -> end_of_simulation s1 = true ->
     forall consumed rest s',
       stream1 = consumed ++ rest -> delivers s1 consumed s' ->
       proceed_time until stream s = (Ok rest, s') /\ is_running s' = false) /\
  (use_batsim s1 = false -> proceed_time until stream s = (Ok stream1, s1)).
Proof.
  intros Hr Hsweep Hadv.
  assert (Hpre : forall k : list Batch -> M RJMSHandler (list Batch),
            (let* running := gets is_running in
             assert running >> start_ready_jobs >>
             let* stream := advance until stream in k stream) s = k stream1 s1).
  { intros k. rewrite (bind_ok (gets is_running) _ s true s)
      by (unfold gets; by rewrite Hr).
    cbn [assert]. rewrite bind_ret_l. mstep by exact Hsweep. by mstep by exact Hadv. }
  split.
  - intros Hb Hend consumed rest s' -> Hd.
    destruct (drain_delivers _ _ _ rest Hd) as [Hdrain Hs'].
    split; [|done]. unfold proceed_time. rewrite Hpre.
    rewrite (bind_ok get _ s1 s1 s1) by reflexivity. rewrite Hb.
    unfold check_end_of_simulation.
    rewrite (bind_ok get _ s1 s1 s1) by reflexivity. by rewrite Hend.
  - intros Hb. unfold proceed_time. rewrite Hpre.
    rewrite (bind_ok get _ s1 s1 s1) by reflexivity. by rewrite Hb.
Qed.

Lemma proceed_time_drains_with_batsim_witness :
  proceed_time 0 Sample.last_batches (Sample.finishing true)
    = (Ok [mkBatch 40 []],
       set_simulator (Simulator.mk false 30 []) (Sample.finishing true)) /\
  is_running (set_simulator (Simulator.mk false 30 []) (Sample.finishing true)) = false.
Proof.
  apply (proj1 (proceed_time_drains_with_batsim
                  (Sample.finishing true) (Sample.finishing true)
                  (set_simulator (Simulator.mk true 20 []) (Sample.finishing true))
                  0 Sample.last_batches
                  [mkBatch 30 [SIMULATION_ENDS]; mkBatch 40 []]
                  eq_refl eq_refl eq_refl) eq_refl eq_refl
               [mkBatch 30 [SIMULATION_ENDS]] [mkBatch 40 []]
               (set_simulator (Simulator.mk false 30 []) (Sample.finishing true))
               eq_refl).
  eapply delivers_batch; [reflexivity | reflexivity |].
  apply delivers_stopped. reflexivity.
Defined.

End DrainFacts.

(* ===================================================================== *)
(** * Allocation *)
(* ===================================================================== *)

Lemma set_agenda_id s a : _agenda s = Some a -> set_agenda (Some a) s = s.
Proof. destruct s. simpl. by intros ->. Qed.

Lemma read_only_on_platform {A} (c : M Platform.t A) :
  read_only c -> read_only (on_platform c).
Proof.
  intros H s. unfold on_platform. destruct (platform s) as [p|] eqn:Hp; [|done].
  specialize (H p). destruct (c p) as [r p']. simpl in *. subst.
  by apply set_platform_id.
Qed.

Lemma read_only_on_agenda {A} (c : M Agenda.t A) :
  read_only c -> read_only (on_agenda c).
Proof.
  intros H s. unfold on_agenda. destruct (_agenda s) as [a|] eqn:Ha; [|done].
  specialize (H a). destruct (c a) as [r a']. simpl in *. subst.
  by apply set_agenda_id.
Qed.

Lemma read_only_job_of j : read_only (job_of j).
Proof.
  unfold job_of, deref. apply read_only_bind; [apply read_only_get|].
  intros s. unfold getitem. destruct (_ !! _); [apply read_only_ret | apply read_only_raise].
Qed.

Lemma read_only_for {S A} (l : list A) (body : A -> M S unit) :
  (forall x, read_only (body x)) -> read_only (for_ l body).
Proof.
  intros Hb. induction l as [|x l IH]; simpl; [apply read_only_ret|].
  apply read_only_bind; [apply Hb | intros _; exact IH].
Qed.

(** A loop of reading steps fails only where one of its steps does. *)
Lemma for_read_only_fails {S A} (l : list A) (body : A -> M S unit) s r :
  (forall x, read_only (body x)) ->
  (for_ l body s).1 = r -> is_ok r = false ->
  exists x, x ∈ l /\ (body x s).1 = r.
Proof.
  intros Hb. induction l as [|x l IH]; simpl.
  - intros <-. done.
  - unfold bind. pose proof (Hb x s) as Hx.
    destruct (body x s) as [[[]|e|] s1] eqn:E; simpl in Hx; subst s1.
    + intros Hr Hf. destruct (IH Hr Hf) as (y & Hy & Hby).
      exists y. split; [by right | done].
    + intros <- _. exists x. split; [by left|]. by rewrite E.
    + intros <- _. exists x. split; [by left|]. by rewrite E.
Qed.

Module AllocateFacts.
Import AgendaSpec AllocateSpec.

Lemma read_only_getitem_reservation r : read_only (Agenda.getitem_reservation r).
Proof.
  unfold Agenda.getitem_reservation. apply read_only_bind; [apply read_only_get|].
  intros a. unfold getitem. destruct (_ !! _); [apply read_only_ret | apply read_only_raise].
Qed.

Lemma read_only_all_free allocation : read_only (Agenda.all_free allocation).
Proof.
  induction allocation as [|r rest IH]; simpl; [apply read_only_ret|].
  apply read_only_bind; [apply read_only_getitem_reservation|].
  intros [j|]; [apply read_only_ret | exact IH].
Qed.

Lemma all_free_inv allocation a :
  (Agenda.all_free allocation a).1 = Ok true -> Forall (free a) allocation.
Proof.
  induction allocation as [|r rest IH]; simpl; [constructor|].
  unfold bind, Agenda.getitem_reservation, bind, get.
  destruct (Agenda.reservations a !! r) as [[j|]|] eqn:Hr; simpl; try done.
  intros H. constructor; [done | by apply IH].
Qed.

(** [reserve] either reserves the whole allocation or leaves the agenda
    as it is. *)
Lemma reserve_fails_unchanged jobs job a r a' :
  Agenda.reserve jobs job a = (r, a') -> is_ok r = false -> a' = a.
Proof.
  unfold Agenda.reserve, deref. destruct (jobs !! job) as [o|]; simpl;
    [|by intros [= <- <-]].
  rewrite bind_ret_l. destruct (Job.allocation o) as [allocation|]; simpl;
    [|by intros [= <- <-]].
  rewrite bind_ret_l. unfold bind at 1.
  pose proof (read_only_all_free allocation a) as Hro.
  pose proof (all_free_inv allocation a) as Hfree.
  destruct (Agenda.all_free allocation a) as [[[|]|e|] a1]; simpl in *; subst a1.
  - rewrite bind_ret_l. rewrite AgendaFacts.for_setitem.
    + by intros [= <- <-].
    + eapply Forall_impl; [by apply Hfree|]. intros i Hi. unfold known. rewrite Hi. eauto.
  - by intros [= <- <-].
  - by intros [= <- <-].
  - by intros [= <- <-].
Qed.

Lemma read_only_dispatch job : read_only (_dispatch job).
Proof.
  unfold _dispatch. apply read_only_bind; [apply read_only_get|]. intros s.
  apply read_only_for. intros call.
  apply read_only_bind; [by intros ?|]. intros now.
  apply read_only_bind; [apply read_only_job_of|]. intros j.
  destruct (call now j); [apply read_only_raise | apply read_only_ret].
Qed.

Lemma dispatch_fails job s r o :
  store s !! job = Some o ->
  (_dispatch job s).1 = r -> is_ok r = false ->
  exists call e,
    call ∈ _callbacks s /\ call (current_time s) o = Some e /\ r = Raised e.
Proof.
  unfold _dispatch. rewrite (bind_ok get _ s s s) by reflexivity.
  intros Ho Hr Hf. apply for_read_only_fails in Hr as (call & Hin & Hcall); [|
    |done].
  - revert Hcall. rewrite (bind_ok (gets current_time) _ s (current_time s) s)
      by reflexivity.
    unfold bind, job_of, bind, get, deref. rewrite Ho. simpl.
    destruct (call (current_time s) o) as [e|] eqn:Ecall; simpl.
    + intros <-. by exists call, e.
    + intros <-. done.
  - intros call.
    apply read_only_bind; [by intros ?|]. intros now.
    apply read_only_bind; [apply read_only_job_of|]. intros j.
    destruct (call now j); [apply read_only_raise | apply read_only_ret].
Qed.

Section WithStateValue.
Variable state_value : ResourceState -> Z.

Lemma read_only_find_in_queue job_id : read_only (find_in_queue job_id).
Proof.
  unfold find_in_queue. apply read_only_bind; [apply read_only_get|]. intros s.
  destruct (find _ _); [apply read_only_ret | apply read_only_raise].
Qed.

Lemma find_in_queue_elem_of job_id s job :
  (find_in_queue job_id s).1 = Ok job -> job ∈ Jobs.queue (_jobs s).
Proof.
  unfold find_in_queue. rewrite (bind_ok get _ s s s) by reflexivity.
  destruct (find _ _) as [j|] eqn:E; simpl; [|done].
  intros [= <-]. apply find_some in E as [Hin _]. by apply list_elem_of_In.
Qed.

Lemma read_only_pick_resources n : read_only (pick_resources state_value n).
Proof.
  unfold pick_resources.
  apply read_only_bind; [apply read_only_on_agenda; by intros ?|]. intros available.
  apply read_only_bind; [|intros; apply read_only_ret].
  apply read_only_mapM. intros r.
  apply read_only_bind; [|intros; apply read_only_ret].
  apply read_only_on_platform. unfold Platform.resource.
  apply read_only_bind; [apply read_only_get|]. intros p.
  unfold getitem. destruct (_ !! _); [apply read_only_ret | apply read_only_raise].
Qed.

Lemma find_in_queue_fails job_id s r :
  (find_in_queue job_id s).1 = r -> is_ok r = false -> r = Raised StopIteration.
Proof.
  unfold find_in_queue. rewrite (bind_ok get _ s s s) by reflexivity.
  destruct (find _ _); simpl; [by intros <-|by intros <-].
Qed.

Lemma find_in_queue_found job_id s job :
  (find_in_queue job_id s).1 = Ok job -> exists o, store s !! job = Some o.
Proof.
  unfold find_in_queue. rewrite (bind_ok get _ s s s) by reflexivity.
  destruct (find _ _) as [j|] eqn:E; simpl; [|done].
  intros [= <-]. apply find_some in E as [_ E].
  destruct (store s !! j); [eauto|done].
Qed.

Lemma allocate_fails_cases job_id resource_ids s r s' :
  allocate state_value job_id resource_ids s = (r, s') -> is_ok r = false ->
  allocate_failure state_value job_id resource_ids s r s'.
Proof.
  unfold allocate. intros H Hf.
  (* the job lookup *)
  pose proof (read_only_find_in_queue job_id s) as Hro.
  apply bind_inv in H as [(job & s1 & E1 & H) | (r0 & E1 & Hf0 & ->)]; cycle 1.
  { rewrite E1 in Hro. simpl in Hro. subst s'.
    assert (r0 = Raised StopIteration) as ->.
    { apply (find_in_queue_fails job_id s); [by rewrite E1 | done]. }
    apply failed_no_job. by rewrite E1. }
  rewrite E1 in Hro. simpl in Hro. subst s1.
  assert (Hq : job ∈ Jobs.queue (_jobs s)).
  { apply (find_in_queue_elem_of job_id). by rewrite E1. }
  destruct (find_in_queue_found job_id s job) as [o Ho]; [by rewrite E1|].
  assert (Hfound : found job_id s job o) by (split; [by rewrite E1 | done]).
  rewrite (bind_ok (job_of job) _ s o s) in H by (by apply job_of_ok).
  (* the resource ids *)
  apply bind_inv in H as [(ids & s1 & E3 & H) | (r0 & E3 & Hf0 & ->)]; cycle 1.
  { destruct resource_ids as [ids|]; [by injection E3 as <- _|].
    pose proof (read_only_pick_resources (Job.res o) s) as Hro. rewrite E3 in Hro.
    simpl in Hro. subst s'.
    apply (failed_in_pick _ _ _ _ job o); [done| |done].
    unfold chosen. by rewrite E3. }
  assert (s1 = s /\ chosen state_value resource_ids s o = Ok ids) as [-> Hids].
  { destruct resource_ids as [ids'|]; [by injection E3 as <- <-|].
    pose proof (read_only_pick_resources (Job.res o) s) as Hro.
    rewrite E3 in Hro. split; [done|]. unfold chosen. by rewrite E3. }
  destruct (decide (length ids ≠ Job.res o)) as [Hlen|Hlen].
  { injection H as <- <-. by eapply failed_in_count. }
  apply dec_stable in Hlen.
  (* the binding and the reservation *)
  rewrite (bind_ok (on_job job (Job.set_allocation ids)) _ s tt (bound job o ids s))
    in H by (by apply on_job_ok).
  rewrite (bind_ok get _ _ (bound job o ids s) (bound job o ids s)) in H
    by reflexivity.
  apply bind_inv in H as [([] & s3 & E4 & H) | (r0 & E4 & Hf0 & ->)]; cycle 1.
  { assert (s' = bound job o ids s) as ->.
    { revert E4. unfold on_agenda.
      destruct (_agenda (bound job o ids s)) as [a|] eqn:Ha; [|by intros [= _ <-]].
      destruct (Agenda.reserve _ job a) as [r1 a1] eqn:Er. intros [= -> <-].
      apply reserve_fails_unchanged in Er; [|done]. subst. by apply set_agenda_id. }
    apply (failed_in_reserve _ _ _ _ job o ids); [done|done|done| |done].
    by rewrite E4. }
  assert (exists a a', _agenda s = Some a /\
            Agenda.reserve (store (bound job o ids s)) job a = (Ok tt, a') /\
            s3 = set_agenda (Some a') (bound job o ids s)) as (a & a' & Ha & Hres & ->).
  { revert E4. unfold on_agenda.
    change (_agenda (bound job o ids s)) with (_agenda s).
    destruct (_agenda s) as [a|]; [|done].
    destruct (Agenda.reserve _ job a) as [r1 a1] eqn:Er. intros [= -> <-].
    exists a, a1. done. }
  (* the subscribers *)
  set (s3 := set_agenda (Some a') (bound job o ids s)) in *.
  pose proof (read_only_dispatch job s3) as Hro.
  apply bind_inv in H as [([] & s4 & E5 & H) | (r0 & E5 & Hf0 & ->)]; cycle 1.
  { rewrite E5 in Hro. simpl in Hro. subst s'.
    destruct (dispatch_fails job s3 r0 (Job.set_allocation ids o))
      as (call & e & Hc & He & ->); [|by rewrite E5 | done |].
    - unfold s3, bound. simpl.
      rewrite list_lookup_insert_eq; [done|]. by eapply lookup_lt_Some.
    - simpl. by eapply failed_in_subscriber. }
  rewrite E5 in Hro. simpl in Hro. subst s4.
  (* the move from the queue to ready cannot fail *)
  exfalso. revert H.
  rewrite (bind_ok get _ s3 s3 s3) by reflexivity.
  destruct (StartFacts.list_remove_elem_of job (Jobs.queue (_jobs s))) as [q' Hq'];
    [done|].
  rewrite (bind_ok (remove_from job (Jobs.queue (_jobs s3))) _ s3 q' s3)
    by (unfold remove_from, s3; simpl; by rewrite Hq').
  unfold bind, modify. intros [= <- _]. done.
Qed.

End WithStateValue.

Lemma allocate_failure_jobs state_value job_id resource_ids s r s' :
  allocate_failure state_value job_id resource_ids s r s' -> _jobs s' = _jobs s.
Proof. by destruct 1. Qed.

Lemma allocate_failure_agenda state_value job_id resource_ids s r s' :
  allocate_failure state_value job_id resource_ids s r s' ->
  (forall call now j, call ∈ _callbacks s -> call now j = None) ->
  _agenda s' = _agenda s.
Proof.
  destruct 1 as [| | | |job o ids a a' call e _ _ _ _ _ Hc He]; try done.
  intros Hnone. rewrite (Hnone _ _ _ Hc) in He. done.
Qed.

(** ** C5 *)

(** C5, as stated, fails: [allocate] of the queued job on a resource
    that is already reserved fails in [reserve], after
    [job.set_allocation] has bound the allocation of the job. *)
Lemma allocate_reserved_binds_allocation :
  Job.allocation <$> store Sample.busy !! 1%nat = Some None /\
  allocate Sample.state_value "w!1" (Some [0%nat]) Sample.busy
    = (Raised AssertionError,
       set_store [Sample.running_job; Job.set_allocation [0%nat] Sample.queued_job]
         Sample.busy).
Proof. split; reflexivity. Qed.

(** C5, amended: a call of [allocate] that fails leaves the queue and
    ready cohorts (all four cohorts) exactly as they were, and leaves
    the agenda's reservations as they were unless a subscriber of
    [JOB_ALLOCATED] raised after the reservation; a call that fails
    before [set_allocation] (job not found, resource pick, count
    check) leaves the whole handler as it was, and one that fails later
    has changed, besides, only the allocation binding of the job, the
    first job of the queue with the id, to the resource ids that were
    given or picked. *)
Theorem allocate_failure_leaves_cohorts (state_value : ResourceState -> Z)
    (job_id : string) (resource_ids : option (list nat))
    (s s' : RJMSHandler) (r : result unit) :
  allocate state_value job_id resource_ids s = (r, s') -> is_ok r = false ->
  _jobs s' = _jobs s /\
  ((forall call now j, call ∈ _callbacks s -> call now j = None) ->
     _agenda s' = _agenda s) /\
  allocate_failure state_value job_id resource_ids s r s'.
Proof.
  intros H Hf. pose proof (allocate_fails_cases _ _ _ _ _ _ H Hf) as Hcases.
  split; [by eapply allocate_failure_jobs|].
  split; [by eapply allocate_failure_agenda|].
  done.
Qed.

Lemma allocate_failure_leaves_cohorts_witness :
  _jobs (set_store [Sample.running_job; Job.set_allocation [0%nat] Sample.queued_job]
           Sample.busy) = _jobs Sample.busy /\
  _agenda (set_store [Sample.running_job; Job.set_allocation [0%nat] Sample.queued_job]
             Sample.busy) = _agenda Sample.busy /\
  allocate_failure Sample.state_value "w!1" (Some [0%nat]) Sample.busy
    (Raised AssertionError)
    (set_store [Sample.running_job; Job.set_allocation [0%nat] Sample.queued_job]
       Sample.busy).
Proof.
  destruct (allocate_failure_leaves_cohorts Sample.state_value "w!1" (Some [0%nat])
              Sample.busy
              (set_store [Sample.running_job; Job.set_allocation [0%nat] Sample.queued_job]
                 Sample.busy)
              (Raised AssertionError) eq_refl eq_refl) as (H1 & H2 & H3).
  split; [exact H1|]. split; [|exact H3].
  apply H2. intros call now j Hc. inversion Hc.
Defined.

End AllocateFacts.

(* ===================================================================== *)
(** * Job termination and the accounting of jobs *)
(* ===================================================================== *)

Module KillFacts.
Import Accounting.

(** [on_job_killed] never appends to the completed cohort. *)
Lemma on_job_killed_keeps_completed data :
  keeps (fun s => Jobs.completed (_jobs s)) (on_job_killed data).
Proof.
  unfold on_job_killed. apply keeps_for. intros _id.
  apply keeps_bind; [destruct (JobKilledData.job_id data); keeps_tac|]. intros job_id.
  apply keeps_bind.
  { unfold pop_running. keeps_tac. }
  intros job. apply keeps_bind; [apply keeps_gets|]. intros now.
  apply keeps_bind; [by apply keeps_on_job|]. intros _.
  unfold release_resources. keeps_tac.
Qed.

(** ** C2 *)

(** C2: the code at the failing input. Of the two running jobs that
    the event lists, [on_job_killed] terminates the one that
    [data.job_id] names, then pops that id again and raises; the other
    listed job keeps running and holds its resource, and neither job is
    appended to completed. When the data has no attribute [job_id], the
    handler raises at once and terminates nothing. *)
Lemma on_job_killed_misses_listed_jobs :
  let data := JobKilledData.mk ["w!0"; "w!1"] (Some "w!0") in
  let s' := (on_job_killed data Sample.two_running).2 in
  (on_job_killed data Sample.two_running).1 = Raised KeyError /\
  Jobs.running (_jobs s') = {["w!1" := 1%nat]} /\
  Job.state <$> store s' !! 0%nat = Some COMPLETED_KILLED /\
  Job.state <$> store s' !! 1%nat = Some RUNNING /\
  Jobs.completed (_jobs s') = [] /\
  on_job_killed (JobKilledData.mk ["w!0"; "w!1"] None) Sample.two_running
    = (Raised AttributeError, Sample.two_running).
Proof. vm_compute. repeat split; reflexivity. Qed.

(** The completion handler on the same state does all of it: the job
    leaves running, is terminated and is appended to completed. *)
Lemma on_job_completed_terminates :
  let s' := (on_job_completed "w!0" COMPLETED_KILLED Sample.two_running).2 in
  (on_job_completed "w!0" COMPLETED_KILLED Sample.two_running).1 = Ok tt /\
  Jobs.running (_jobs s') = {["w!1" := 1%nat]} /\
  Job.state <$> store s' !! 0%nat = Some COMPLETED_KILLED /\
  Jobs.completed (_jobs s') = [0%nat].
Proof. vm_compute. repeat split; reflexivity. Qed.

(** ** C4 *)

(** A submission is accounted for: the job enters the queue, or a
    rejection is sent. *)
Lemma on_job_submitted_accounted job s s' :
  on_job_submitted job s = (Ok tt, s') -> accounted s' = Datatypes.S (accounted s).
Proof.
  unfold on_job_submitted. intros H.
  apply bind_inv_ok in H as (nb & s1 & E & H).
  assert (s1 = s) as ->.
  { pose proof (read_only_on_platform (gets Platform.nb_resources)
                  (fun p => eq_refl) s) as Hro. by rewrite E in Hro. }
  destruct (decide (nb < Job.res job)%nat).
  - injection H as <-. unfold accounted, rejected, queue_lenght, nb_allocated_jobs,
      nb_running_jobs, nb_completed_jobs. simpl.
    rewrite filter_app, length_app. simpl. lia.
  - injection H as <-. unfold accounted, rejected, queue_lenght, nb_allocated_jobs,
      nb_running_jobs, nb_completed_jobs. simpl. rewrite length_app. simpl. lia.
Qed.


End KillFacts.

(* ===================================================================== *)
(** * What lasts through the handling of events *)
(* ===================================================================== *)

Section Preserves.
Context {S : Type} (R : S -> S -> Prop) `{!PreOrder R}.

Lemma preserves_read_only {A} (c : M S A) : read_only c -> preserves R c.
Proof. intros H s. rewrite H. reflexivity. Qed.

Lemma preserves_ret {A} (a : A) : preserves R (ret a).
Proof. intros s. simpl. reflexivity. Qed.

Lemma preserves_raise {A} e : preserves R (@raise S A e).
Proof. intros s. simpl. reflexivity. Qed.

Lemma preserves_blocked {A} : preserves R (@blocked S A).
Proof. intros s. simpl. reflexivity. Qed.

Lemma preserves_get : preserves R get.
Proof. intros s. simpl. reflexivity. Qed.

Lemma preserves_gets {A} (g : S -> A) : preserves R (gets g).
Proof. intros s. simpl. reflexivity. Qed.

Lemma preserves_assert b : preserves R (assert b).
Proof. destruct b; [apply preserves_ret | apply preserves_raise]. Qed.

Lemma preserves_getitem {A} (o : option A) : preserves R (getitem o).
Proof. destruct o; [apply preserves_ret | apply preserves_raise]. Qed.

Lemma preserves_not_none {A} (o : option A) : preserves R (not_none o).
Proof. destruct o; [apply preserves_ret | apply preserves_raise]. Qed.

Lemma preserves_modify (g : S -> S) : (forall s, R s (g s)) -> preserves R (modify g).
Proof. intros H s. apply H. Qed.

Lemma preserves_bind {A B} (c : M S A) (k : A -> M S B) :
  preserves R c -> (forall a, preserves R (k a)) -> preserves R (bind c k).
Proof.
  intros Hc Hk s. unfold bind. specialize (Hc s).
  destruct (c s) as [[a|e|] s1]; simpl in *; [|done|done].
  etrans; [exact Hc | apply Hk].
Qed.

Lemma preserves_for {A} (l : list A) (body : A -> M S unit) :
  Forall (fun x => preserves R (body x)) l -> preserves R (for_ l body).
Proof.
  induction 1 as [|x l Hx _ IH]; simpl.
  - apply preserves_ret.
  - apply preserves_bind; [exact Hx | intros _; exact IH].
Qed.

Lemma preserves_for_all {A} (l : list A) (body : A -> M S unit) :
  (forall x, preserves R (body x)) -> preserves R (for_ l body).
Proof. intros H. apply preserves_for. by apply Forall_forall. Qed.

Lemma preserves_if {A} (b : bool) (c1 c2 : M S A) :
  preserves R c1 -> preserves R c2 -> preserves R (if b then c1 else c2).
Proof. by destruct b. Qed.

End Preserves.

Module LastingFacts.
Import ProceedSpec.

Section Lasting.
Variables (track : bool) (job : ref) (x : Request).

Global Instance lasting_preorder : PreOrder (lasting track job x).
Proof.
  split.
  - intros s. split; [by intros | done].
  - intros s1 s2 s3 [H12 K12] [H23 K23]. split; [|by auto].
    intros Ht Hn Hs. destruct (H12 Ht Hn Hs) as [Hn2 E2].
    assert (is_Some (store s2 !! job)) as Hs2.
    { destruct Hs as [o Ho]. rewrite Ho in E2.
      destruct (store s2 !! job); [eauto | done]. }
    destruct (H23 Ht Hn2 Hs2) as [Hn3 E3]. split; [done | congruence].
Qed.

(** A change confined to the platform, the agenda or the flags. *)
Lemma lasting_same s s' :
  _jobs s' = _jobs s -> store s' = store s -> simulator s' = simulator s ->
  lasting track job x s s'.
Proof. intros E1 E2 E3. unfold lasting. rewrite E1, E2, E3. done. Qed.

Lemma lasting_on_platform {A} (c : M Platform.t A) :
  preserves (lasting track job x) (on_platform c).
Proof.
  intros s. unfold on_platform. destruct (platform s) as [p|]; [|reflexivity].
  destruct (c p) as [r p']. by apply lasting_same.
Qed.

Lemma lasting_on_agenda {A} (c : M Agenda.t A) :
  preserves (lasting track job x) (on_agenda c).
Proof.
  intros s. unfold on_agenda. destruct (_agenda s) as [a|]; [|reflexivity].
  destruct (c a) as [r a']. by apply lasting_same.
Qed.

(** The simulator requests are only ever appended to. *)
Lemma lasting_set_simulator s sim' :
  (x ∈ Simulator.requests (simulator s) -> x ∈ Simulator.requests sim') ->
  lasting track job x s (set_simulator sim' s).
Proof. intros H. split; [by intros | exact H]. Qed.

Lemma lasting_send r : preserves (lasting track job x) (on_simulator (Simulator.send r)).
Proof.
  intros s. apply lasting_set_simulator. simpl. intros H.
  apply elem_of_app. by left.
Qed.

Lemma lasting_finish : preserves (lasting track job x) (on_simulator Simulator.finish).
Proof.
  intros s. apply lasting_set_simulator. simpl. intros H.
  apply elem_of_app. by left.
Qed.

(** A method on a job object: one that keeps [start_time], or any
    method on another job. *)
Lemma lasting_on_job j method :
  (track = true -> j <> job \/
     forall o, Job.start_time (method o) = Job.start_time o) ->
  preserves (lasting track job x) (on_job j method).
Proof.
  intros Hm s. unfold on_job, bind, job_of, bind, get, deref.
  destruct (store s !! j) as [o|] eqn:Ho; simpl; [|reflexivity].
  split; [|done]. simpl. intros Ht Hn Hs. split; [done|].
  destruct (decide (j = job)) as [->|Hne].
  - destruct (Hm Ht) as [?|Hk]; [done|].
    rewrite list_lookup_insert_eq by (by eapply lookup_lt_Some).
    rewrite Ho. simpl. by rewrite Hk.
  - by rewrite list_lookup_insert_ne.
Qed.

Lemma lasting_job_of j : preserves (lasting track job x) (job_of j).
Proof. apply preserves_read_only; [apply _ | apply read_only_job_of]. Qed.

Lemma lasting_turn_on node_ids : preserves (lasting track job x) (turn_on node_ids).
Proof.
  unfold turn_on. apply preserves_bind; [apply _| |].
  - generalize (@nil (nat * list nat)).
    induction node_ids as [|i rest IH]; intros groups; simpl.
    + apply preserves_ret; apply _.
    + apply preserves_bind; [apply _ | apply lasting_on_platform |]. intros node.
      apply preserves_bind; [apply _ | apply lasting_on_platform |]. intros _.
      apply preserves_bind; [apply _ | | intros ps; apply IH].
      unfold next_power_state. destruct (find _ _);
        [apply preserves_ret | apply preserves_raise]; apply _.
  - intros groups. apply preserves_for_all; [apply _|]. intros [ps ids].
    apply lasting_send.
Qed.

Lemma lasting_initiate_resources resources :
  preserves (lasting track job x) (initiate_resources resources).
Proof.
  unfold initiate_resources. generalize true, (∅ : gset nat).
  induction resources as [|r rest IH]; intros ready visited; simpl.
  - apply preserves_ret; apply _.
  - apply preserves_bind; [apply _ | apply lasting_on_platform |]. intros o.
    apply preserves_if; [|apply IH].
    apply preserves_bind; [apply _ | | intros _; apply IH].
    apply preserves_if; [apply lasting_turn_on | apply preserves_ret; apply _].
Qed.

Lemma list_remove_subseteq (j : ref) l l' :
  list_remove j l = Some l' -> forall i, i ∈ l' -> i ∈ l.
Proof.
  revert l'. induction l as [|y l IH]; intros l'; simpl; [done|].
  destruct (decide (y = j)).
  - intros [= ->] i Hi. by right.
  - destruct (list_remove j l) as [l0|]; simpl; [|done].
    intros [= <-] i. rewrite elem_of_cons. intros [->|Hi]; [by left|].
    right. by eapply IH.
Qed.

(** The body of the sweep, on another job when [track] is set. *)
Lemma lasting_start_if_ready j :
  (track = true -> j <> job) -> preserves (lasting track job x) (start_if_ready j).
Proof.
  intros Hne. unfold start_if_ready.
  apply preserves_bind; [apply _ | apply lasting_job_of |]. intros o.
  apply preserves_bind; [apply _ | apply lasting_on_platform |]. intros resources.
  apply preserves_bind; [apply _ | apply lasting_initiate_resources |].
  intros [|]; [|apply preserves_ret; apply _].
  apply preserves_bind; [apply _ | |].
  { apply preserves_for_all; [apply _|]. intros r. apply lasting_on_platform. }
  intros _. apply preserves_bind; [apply _ | apply preserves_gets; apply _ |].
  intros now. apply preserves_bind; [apply _ | apply lasting_on_job; auto |].
  intros _. apply preserves_bind; [apply _ | apply lasting_job_of |]. intros o'.
  apply preserves_bind; [apply _ | apply lasting_send |]. intros _.
  intros s. rewrite (bind_ok get _ s s s) by reflexivity.
  unfold remove_from. destruct (list_remove j (Jobs.ready (_jobs s))) as [l'|] eqn:Hrm;
    [|reflexivity].
  rewrite bind_ret_l. unfold bind at 1, modify at 1.
  unfold bind, job_of, bind, get, deref. simpl.
  assert (lasting track job x s (set_ready l' s)) as Hstep.
  { split; [|done]. simpl. intros Ht Hn Hs. split; [|done].
    intros Hin. apply Hn. by eapply list_remove_subseteq. }
  destruct (store s !! j); simpl; [|exact Hstep].
  etrans; [exact Hstep|]. split; [|done]. by intros.
Qed.

End Lasting.

Lemma lasting_start_ready_jobs track job x :
  preserves (lasting track job x) start_ready_jobs.
Proof.
  intros s. unfold start_ready_jobs. rewrite (bind_ok get _ s s s) by reflexivity.
  destruct (decide (job ∈ Jobs.ready (_jobs s))) as [Hin|Hn].
  - (* a job that is still ready is not concerned; the requests grow *)
    split; [by intros|].
    assert (preserves (lasting false job x) (for_ (Jobs.ready (_jobs s)) start_if_ready))
      as Hp; [|apply Hp].
    apply preserves_for_all; [apply _|]. intros j. by apply lasting_start_if_ready.
  - apply preserves_for; [apply _|]. apply Forall_forall. intros j Hj.
    apply lasting_start_if_ready. by intros _ ->.
Qed.

Section Handlers.
Variables (track : bool) (job : ref) (x : Request).

Lemma lasting_release_resources j : preserves (lasting track job x) (release_resources j).
Proof.
  unfold release_resources.
  apply preserves_bind; [apply _ | apply lasting_job_of |]. intros o.
  apply preserves_bind; [apply _ | apply lasting_on_platform |]. intros resources.
  apply preserves_for_all; [apply _|]. intros r.
  apply preserves_bind; [apply _ | apply lasting_on_platform |]. intros _.
  apply lasting_on_agenda.
Qed.

Lemma lasting_pop_running job_id : preserves (lasting track job x) (pop_running job_id).
Proof.
  unfold pop_running.
  apply preserves_bind; [apply _ | apply preserves_get; apply _ |]. intros s0.
  apply preserves_bind; [apply _ | apply preserves_getitem; apply _ |]. intros j.
  apply preserves_bind; [apply _ | | intros _; apply preserves_ret; apply _].
  apply preserves_modify. intros s. split; [by intros | done].
Qed.

Lemma lasting_on_simulation_begins p : preserves (lasting track job x) (on_simulation_begins p).
Proof.
  unfold on_simulation_begins.
  apply preserves_bind; [apply _ | |].
  { apply preserves_modify. intros s. by apply lasting_same. }
  intros _. apply preserves_bind; [apply _ | |].
  { apply preserves_modify. intros s. by apply lasting_same. }
  intros _. apply preserves_bind; [apply _ | apply preserves_get; apply _ |].
  intros s. destruct (simulation_time s) as [t|]; [|apply preserves_ret; apply _].
  apply preserves_if; [apply preserves_ret; apply _ | apply lasting_send].
Qed.

Lemma lasting_on_job_submitted j : preserves (lasting track job x) (on_job_submitted j).
Proof.
  unfold on_job_submitted.
  apply preserves_bind; [apply _ | apply lasting_on_platform |]. intros nb.
  destruct (decide (nb < Job.res j)%nat); [apply lasting_send|].
  intros s. rewrite (bind_ok get _ s s s) by reflexivity.
  unfold bind, modify. simpl. split; [|done]. simpl.
  intros Ht Hn [o Ho]. split; [done|].
  by rewrite lookup_app_l by (by eapply lookup_lt_Some).
Qed.

Lemma lasting_terminate j now final :
  preserves (lasting track job x) (on_job j (Job.terminate now final)).
Proof. apply lasting_on_job. intros _. by right. Qed.

Lemma lasting_on_job_completed job_id job_state :
  preserves (lasting track job x) (on_job_completed job_id job_state).
Proof.
  unfold on_job_completed.
  apply preserves_bind; [apply _ | apply lasting_pop_running |]. intros j.
  apply preserves_bind; [apply _ | apply preserves_gets; apply _ |]. intros now.
  apply preserves_bind; [apply _ | apply lasting_terminate |]. intros _.
  apply preserves_bind; [apply _ | apply lasting_release_resources |]. intros _.
  apply preserves_modify. intros s. split; [by intros | done].
Qed.

Lemma lasting_on_job_killed data : preserves (lasting track job x) (on_job_killed data).
Proof.
  unfold on_job_killed. apply preserves_for_all; [apply _|]. intros _id.
  apply preserves_bind; [apply _ | |].
  { destruct (JobKilledData.job_id data);
      [apply preserves_ret | apply preserves_raise]; apply _. }
  intros job_id.
  apply preserves_bind; [apply _ | apply lasting_pop_running |]. intros j.
  apply preserves_bind; [apply _ | apply preserves_gets; apply _ |]. intros now.
  apply preserves_bind; [apply _ | apply lasting_terminate |]. intros _.
  apply lasting_release_resources.
Qed.

Lemma lasting_close : preserves (lasting track job x) close.
Proof.
  unfold close.
  apply preserves_bind; [apply _ | apply preserves_gets; apply _ |].
  intros [|]; [apply lasting_finish | apply preserves_ret; apply _].
Qed.

Lemma lasting_on_notify type : preserves (lasting track job x) (on_notify type).
Proof.
  destruct type; simpl; try apply lasting_close;
    apply preserves_modify; intros s; by apply lasting_same.
Qed.

Lemma lasting_on_resource_power_state_changed resources pstate :
  preserves (lasting track job x) (on_resource_power_state_changed resources pstate).
Proof.
  unfold on_resource_power_state_changed.
  apply preserves_bind; [apply _ | apply lasting_on_platform |]. intros rs.
  apply preserves_for_all; [apply _|]. intros r. apply lasting_on_platform.
Qed.

Lemma lasting_on_requested_call : preserves (lasting track job x) (on_requested_call (ret tt)).
Proof.
  unfold on_requested_call.
  apply preserves_bind; [apply _ | apply preserves_get; apply _ |]. intros s.
  destruct (simulation_time s) as [t|]; [|apply preserves_ret; apply _].
  apply preserves_if; [|apply preserves_ret; apply _].
  apply preserves_if; [apply lasting_finish|].
  unfold check_end_of_simulation.
  apply preserves_bind; [apply _ | apply preserves_get; apply _ |]. intros s'.
  apply preserves_if; apply preserves_ret; apply _.
Qed.

Lemma lasting_handle e : preserves (lasting track job x) (handle (ret tt) e).
Proof.
  destruct e; simpl.
  - apply lasting_on_simulation_begins.
  - apply preserves_bind; [apply _ | | intros _; apply preserves_ret; apply _].
    intros s. by apply lasting_set_simulator.
  - apply lasting_on_job_submitted.
  - apply preserves_bind; [apply _ | apply lasting_on_job_completed |].
    intros _. apply lasting_start_ready_jobs.
  - apply preserves_bind; [apply _ | apply lasting_on_job_killed |].
    intros _. apply lasting_start_ready_jobs.
  - apply preserves_bind; [apply _ | apply lasting_on_resource_power_state_changed |].
    intros _. apply lasting_start_ready_jobs.
  - apply lasting_on_requested_call.
  - apply lasting_on_notify.
Qed.

Lemma lasting_receive b : preserves (lasting track job x) (receive b).
Proof.
  unfold receive, deliver.
  apply preserves_bind; [apply _ | |].
  { intros s. by apply lasting_set_simulator. }
  intros _. apply preserves_for_all; [apply _|]. apply lasting_handle.
Qed.

Lemma lasting_proceed_simulation stream : preserves (lasting track job x) (proceed_simulation stream).
Proof.
  destruct stream as [|b rest]; simpl; [apply preserves_blocked; apply _|].
  apply preserves_bind; [apply _ | apply lasting_receive |].
  intros _. apply preserves_ret; apply _.
Qed.

Lemma lasting_drain stream : preserves (lasting track job x) (drain stream).
Proof.
  induction stream as [|b rest IH]; simpl.
  - apply preserves_bind; [apply _ | apply preserves_gets; apply _ |].
    intros [|]; [apply preserves_blocked | apply preserves_ret]; apply _.
  - apply preserves_bind; [apply _ | apply preserves_gets; apply _ |].
    intros [|]; [|apply preserves_ret; apply _].
    apply preserves_bind; [apply _ | apply lasting_receive | intros _; exact IH].
Qed.

Lemma lasting_proceed_until until stream : preserves (lasting track job x) (proceed_until until stream).
Proof.
  induction stream as [|b rest IH]; simpl.
  - apply preserves_bind; [apply _ | apply preserves_get; apply _ |]. intros s.
    apply preserves_if; [apply preserves_blocked | apply preserves_ret]; apply _.
  - apply preserves_bind; [apply _ | apply preserves_get; apply _ |]. intros s.
    apply preserves_if; [|apply preserves_ret; apply _].
    apply preserves_bind; [apply _ | apply lasting_receive | intros _; exact IH].
Qed.

Lemma lasting_advance until stream : preserves (lasting track job x) (advance until stream).
Proof.
  unfold advance. apply preserves_if; [|apply lasting_proceed_simulation].
  apply preserves_bind; [apply _ | apply preserves_gets; apply _ |]. intros now.
  apply preserves_bind; [apply _ | apply preserves_assert; apply _ |]. intros _.
  apply preserves_bind; [apply _ | apply lasting_send |]. intros _.
  apply lasting_proceed_until.
Qed.

(** What follows the sweep in [proceed_time]. *)
Lemma lasting_after_sweep until stream :
  preserves (lasting track job x)
    (let* stream := advance until stream in
     let* s := get in
     if use_batsim s then check_end_of_simulation stream (drain stream)
     else ret stream).
Proof.
  apply preserves_bind; [apply _ | apply lasting_advance |]. intros stream1.
  apply preserves_bind; [apply _ | apply preserves_get; apply _ |]. intros s.
  apply preserves_if; [|apply preserves_ret; apply _].
  unfold check_end_of_simulation.
  apply preserves_bind; [apply _ | apply preserves_get; apply _ |]. intros s'.
  apply preserves_if; [apply lasting_drain | apply preserves_ret; apply _].
Qed.

End Handlers.

End LastingFacts.

Module SweepFacts.
Import ProceedSpec StartSpec.

Lemma bind_assoc {S A B C} (c : M S A) (k1 : A -> M S B) (k2 : B -> M S C) s :
  bind (bind c k1) k2 s = bind c (fun a => bind (k1 a) k2) s.
Proof. unfold bind. by destruct (c s) as [[a|e|] s1]. Qed.

Global Instance idle_kept_preorder allocation : PreOrder (idle_kept allocation).
Proof.
  split.
  - by intros s.
  - intros s1 s2 s3 [P12 H12] [P23 H23]. split; [by auto|].
    intros r Hr Hi. apply H23; [done|]. by apply H12.
Qed.

Lemma idle_kept_same allocation s s' :
  platform s' = platform s -> idle_kept allocation s s'.
Proof. intros E. unfold idle_kept, resource_state_of. by rewrite E. Qed.

(** [wakeup] changes sleeping resources only. *)
Lemma on_resource_wakeup_idle r p i :
  resource_state p i = Some IDLE ->
  resource_state (Platform.on_resource r Resource.wakeup p).2 i = Some IDLE.
Proof.
  intros Hi. unfold Platform.on_resource, Platform.resource, bind, get.
  destruct (Platform.resources p !! r) as [o|] eqn:Ho; simpl; [|done].
  unfold Resource.wakeup, bind, get.
  destruct (Resource.state o) eqn:Hst; simpl; try done.
  unfold resource_state. simpl.
  destruct (decide (r = i)) as [->|Hne].
  - unfold resource_state in Hi. rewrite Ho in Hi. simpl in Hi. congruence.
  - by rewrite lookup_insert_ne.
Qed.

Lemma wakeup_idle node p i :
  resource_state p i = Some IDLE ->
  resource_state (Platform.wakeup node p).2 i = Some IDLE.
Proof.
  intros Hi. unfold Platform.wakeup. unfold bind at 1.
  assert (read_only (mapM Platform.resource (Node.resources node))) as Hro.
  { apply read_only_mapM. intros r. unfold Platform.resource.
    apply read_only_bind; [apply read_only_get|]. intros p0.
    unfold getitem. destruct (_ !! _); [apply read_only_ret | apply read_only_raise]. }
  specialize (Hro p).
  destruct (mapM Platform.resource (Node.resources node) p) as [[rs|e|] p1];
    simpl in Hro; subst p1; [|done|done].
  destruct (forallb Resource.is_sleeping rs); [|done].
  revert p Hi. induction (Node.resources node) as [|r rest IH]; intros p Hi; simpl; [done|].
  unfold bind. pose proof (on_resource_wakeup_idle r p i Hi) as H1.
  destruct (Platform.on_resource r Resource.wakeup p) as [[[]|e|] p1]; simpl in H1;
    [by apply IH | done | done].
Qed.

Lemma idle_kept_on_platform_read {A} allocation (c : M Platform.t A) :
  read_only c -> preserves (idle_kept allocation) (on_platform c).
Proof.
  intros H. apply preserves_read_only; [apply _|]. by apply read_only_on_platform.
Qed.

Lemma read_only_get_node i : read_only (Platform.get_node i).
Proof.
  unfold Platform.get_node. apply read_only_bind; [apply read_only_get|]. intros p.
  unfold getitem. destruct (_ !! _); [apply read_only_ret | apply read_only_raise].
Qed.

Lemma read_only_resource r : read_only (Platform.resource r).
Proof.
  unfold Platform.resource. apply read_only_bind; [apply read_only_get|]. intros p.
  unfold getitem. destruct (_ !! _); [apply read_only_ret | apply read_only_raise].
Qed.

Lemma idle_kept_turn_on allocation node_ids :
  preserves (idle_kept allocation) (turn_on node_ids).
Proof.
  unfold turn_on. apply preserves_bind; [apply _| |].
  - generalize (@nil (nat * list nat)).
    induction node_ids as [|i rest IH]; intros groups; simpl.
    + apply preserves_ret; apply _.
    + apply preserves_bind; [apply _ | |].
      { apply idle_kept_on_platform_read, read_only_get_node. }
      intros node. apply preserves_bind; [apply _ | |].
      { intros s. unfold on_platform, idle_kept, resource_state_of.
        destruct (platform s) as [p|]; [|done]. simpl.
        pose proof (wakeup_idle node p) as Hw.
        destruct (Platform.wakeup node p) as [res p']. simpl in *.
        split; [eauto|]. intros r _. apply Hw. }
      intros _. apply preserves_bind; [apply _ | | intros ps; apply IH].
      unfold next_power_state. destruct (find _ _);
        [apply preserves_ret | apply preserves_raise]; apply _.
  - intros groups. apply preserves_for_all; [apply _|]. intros [ps ids].
    intros s. by apply idle_kept_same.
Qed.

Lemma idle_kept_initiate_resources allocation resources :
  preserves (idle_kept allocation) (initiate_resources resources).
Proof.
  unfold initiate_resources. generalize true, (∅ : gset nat).
  induction resources as [|r rest IH]; intros ready visited; simpl.
  - apply preserves_ret; apply _.
  - apply preserves_bind; [apply _ | |].
    { apply idle_kept_on_platform_read, read_only_resource. }
    intros o. apply preserves_if; [|apply IH].
    apply preserves_bind; [apply _ | | intros _; apply IH].
    apply preserves_if; [apply idle_kept_turn_on | apply preserves_ret; apply _].
Qed.

Lemma get_resources_inv ids p rs p' :
  Platform.get_resources ids p = (Ok rs, p') ->
  ids = Some rs /\ p' = p /\ Forall (fun r => is_Some (Platform.resources p !! r)) rs.
Proof.
  unfold Platform.get_resources. destruct ids as [l|]; simpl; [|done].
  rewrite bind_ret_l. rewrite (bind_ok get _ p p p) by reflexivity.
  revert rs. induction l as [|r l IH]; intros rs; simpl.
  - intros [= <- <-]. done.
  - intros H. apply bind_inv_ok in H as (r' & p1 & E & H).
    apply bind_inv_ok in H as (rs' & p2 & Hrest & H). injection H as <- <-.
    unfold bind in E. destruct (Platform.resources p !! r) as [o|] eqn:Ho; simpl in E;
      [|done].
    injection E as <- <-. destruct (IH _ Hrest) as ([= <-] & -> & Hk).
    split; [done|]. split; [done|]. constructor; [eauto | done].
Qed.

(** The two ways in which the body of the sweep returns. *)
Lemma start_if_ready_ok_inv j t t' :
  start_if_ready j t = (Ok tt, t') ->
  exists o a p,
    store t !! j = Some o /\ Job.allocation o = Some a /\ platform t = Some p /\
    ((all_idle p a /\ exists ready',
        list_remove j (Jobs.ready (_jobs t)) = Some ready' /\
        t' = started j o a p ready' t) \/
     (_jobs t' = _jobs t /\ store t' = store t /\
      current_time t' = current_time t /\ forall l, idle_kept l t t')).
Proof.
  intros H. pose proof H as H0. unfold start_if_ready in H.
  apply bind_inv_ok in H as (o & t1 & E1 & H).
  pose proof (read_only_job_of j t) as Hro. rewrite E1 in Hro. simpl in Hro. subst t1.
  assert (Ho : store t !! j = Some o).
  { revert E1. unfold job_of, bind, get, deref, getitem.
    destruct (store t !! j); [by intros [= ->] | done]. }
  apply bind_inv_ok in H as (rs & t1 & E2 & H).
  unfold on_platform in E2. destruct (platform t) as [p|] eqn:Hp; [|done].
  destruct (Platform.get_resources (Job.allocation o) p) as [r p'] eqn:Eg.
  injection E2 as -> <-.
  apply get_resources_inv in Eg as (Ha & -> & Hk).
  rewrite set_platform_id in H by done.
  exists o, rs, p. split; [done|]. split; [done|]. split; [done|].
  destruct (decide (all_idle p rs)) as [Hidle|Hnot].
  - left. split; [done|].
    destruct (list_remove j (Jobs.ready (_jobs t))) as [ready'|] eqn:Hrm.
    + exists ready'. split; [done|].
      rewrite (StartFacts.start_if_ready_idle t j o rs p ready') in H0 by done.
      by injection H0 as <-.
    + exfalso. revert H.
      rewrite (bind_ok (initiate_resources rs) _ t true t)
        by (by eapply StartFacts.initiate_resources_loop_idle).
      mstep by (apply StartFacts.start_computing_all;
                [done | by apply StartFacts.all_idle_spec_ready]).
      mstep by reflexivity.
      mstep by (by apply on_job_ok).
      mstep by (apply job_of_ok; simpl; apply list_lookup_insert_eq;
                by eapply lookup_lt_Some).
      mstep by reflexivity.
      mstep by reflexivity.
      unfold remove_from. simpl. rewrite Hrm. done.
  - right.
    destruct (StartFacts.start_if_ready_not_idle t j o rs p (Ok tt) t')
      as (K1 & K2 & _); try done.
    split; [done|]. split; [done|]. split.
    + pose proof (start_if_ready_keeps_simulator_view Simulator.current_time j
                    (fun r s => eq_refl) t) as K. by rewrite H0 in K.
    + intros l. apply bind_inv_ok in H as (ready & t2 & E3 & H).
      pose proof (idle_kept_initiate_resources l rs t) as K. rewrite E3 in K.
      destruct ready.
      * exfalso. apply Hnot.
        by eapply (StartFacts.initiate_resources_loop_true t t2 p rs true ∅).
      * by injection H as <-.
Qed.

Lemma list_remove_other (job j : ref) l post r :
  j <> job -> job ∉ l -> job ∉ post ->
  list_remove j (l ++ job :: post) = Some r ->
  exists l' post', r = l' ++ job :: post' /\ (job ∉ l') /\ (job ∉ post').
Proof.
  intros Hne. revert r. induction l as [|y l IH]; intros r Hl Hpost; simpl.
  - rewrite decide_False by done.
    destruct (list_remove j post) as [post'|] eqn:Hrm; simpl; [|done].
    intros [= <-]. exists [], post'. split; [done|]. split; [apply not_elem_of_nil|].
    intros Hin. apply Hpost. by eapply LastingFacts.list_remove_subseteq.
  - apply not_elem_of_cons in Hl as [Hy Hl].
    destruct (decide (y = j)) as [->|Hyj].
    + intros [= <-]. by exists l, post.
    + destruct (list_remove j (l ++ job :: post)) as [r0|] eqn:Hrm; simpl; [|done].
      intros [= <-]. destruct (IH r0 Hl Hpost eq_refl) as (l' & post' & -> & Hl' & Hp').
      exists (y :: l'), post'. split; [done|]. split; [|done].
      apply not_elem_of_cons. done.
Qed.

Lemma list_remove_once (job : ref) l post :
  job ∉ l -> list_remove job (l ++ job :: post) = Some (l ++ post).
Proof.
  induction l as [|y l IH]; simpl.
  - intros _. by rewrite decide_True.
  - intros [Hy Hl]%not_elem_of_cons. rewrite decide_False by done.
    by rewrite IH.
Qed.

Section Undisturbed.
Variables (job : ref) (o : Job.t) (allocation : list nat) (s : RJMSHandler).

(** The body of the sweep on another job, which holds other
    resources. *)
Lemma undisturbed_start_if_ready j t t' :
  j <> job -> apart allocation s j ->
  undisturbed job o allocation s t ->
  start_if_ready j t = (Ok tt, t') ->
  undisturbed job o allocation s t'.
Proof.
  intros Hne Hapart
    (Hjob & Halloc & Hidle & Htime & Hplat & l & post & Hready & Hl & Hpost) H.
  apply start_if_ready_ok_inv in H
    as (o' & a' & p & Ho' & Ha' & Hp &
        [(Hall & ready' & Hrm & ->) | (K1 & K2 & K3 & K4)]).
  - (* [j] is started *)
    assert (Hdisj : forall r, r ∈ a' -> r ∉ allocation).
    { specialize (Halloc j). rewrite Ho' in Halloc. simpl in Halloc.
      destruct (store s !! j) as [o0|] eqn:Ho0; [|done].
      injection Halloc as Halloc. eapply Hapart; [done|]. congruence. }
    unfold undisturbed, started. simpl. split; [|split; [|split; [|split; [|split]]]].
    + by rewrite list_lookup_insert_ne.
    + intros j0. rewrite <- Halloc. destruct (decide (j = j0)) as [->|Hj0].
      * rewrite list_lookup_insert_eq by (by eapply lookup_lt_Some).
        by rewrite Ho'.
      * by rewrite list_lookup_insert_ne.
    + intros r Hr. specialize (Hidle r Hr). unfold resource_state_of in *.
      rewrite Hp in Hidle. simpl in *.
      change (resource_state (mark_computing a' p) r = Some IDLE).
      rewrite StartFacts.mark_computing_state.
      rewrite decide_False; [exact Hidle|]. intros Hin. exact (Hdisj r Hin Hr).
    + done.
    + eauto.
    + rewrite Hready in Hrm.
      exact (list_remove_other job j l post ready' Hne Hl Hpost Hrm).
  - (* [j] keeps waiting *)
    unfold undisturbed. rewrite K1, K2, K3. split; [done|]. split; [done|].
    split; [|split; [done | split; [|exists l, post; by repeat split]]].
    + intros r Hr. apply (K4 allocation); [done|]. by apply Hidle.
    + by apply (K4 allocation).
Qed.

Lemma undisturbed_sweep pre t t' :
  Forall (fun j => j <> job /\ apart allocation s j) pre ->
  undisturbed job o allocation s t ->
  for_ pre start_if_ready t = (Ok tt, t') ->
  undisturbed job o allocation s t'.
Proof.
  intros Hpre. revert t. induction Hpre as [|j pre [Hne Hap] _ IH]; intros t Hu; simpl.
  - by intros [= <-].
  - intros H. apply bind_inv_ok in H as ([] & t1 & E & H).
    apply (IH t1); [|done]. by eapply undisturbed_start_if_ready.
Qed.

End Undisturbed.

(** ** C10 *)

(** C10: [proceed_time] sweeps the ready jobs before it advances the
    simulator. A ready job whose resources are all idle, reached by
    the sweep (the ready jobs before it are examined without error and
    hold other resources), is started at the time of the call: when
    the sweep has examined it, the job is in the running cohort under
    its id and no longer in ready, it is [RUNNING] with the time of the
    call as [start_time], its resources are [COMPUTING] and its
    [EXECUTE_JOB] request is sent. Whatever [proceed_time] then does
    with the events to come, and without any event, [start_time] of
    the job is the time at which [proceed_time] was called, its
    [EXECUTE_JOB] request is sent, and it has left the ready cohort. *)
Theorem proceed_time_starts_idle_job (s s1 : RJMSHandler) (until : float)
    (stream : list Batch) (pre post : list ref) (job : ref) (o : Job.t)
    (allocation : list nat) (p : Platform.t) :
  is_running s = true ->
  Jobs.ready (_jobs s) = pre ++ job :: post ->
  job ∉ pre -> job ∉ post ->
  store s !! job = Some o -> Job.allocation o = Some allocation ->
  platform s = Some p -> all_idle p allocation ->
  for_ pre start_if_ready s = (Ok tt, s1) ->
  Forall (apart allocation s) pre ->
  (exists s2,
     (for_ pre start_if_ready >> start_if_ready job) s = (Ok tt, s2) /\
     start_ready_jobs s = for_ post start_if_ready s2 /\
     Jobs.running (_jobs s2) !! Job.id o = Some job /\
     (job ∉ Jobs.ready (_jobs s2)) /\
     (Job.state <$> store s2 !! job) = Some RUNNING /\
     (Job.start_time <$> store s2 !! job) = Some (Some (current_time s)) /\
     (forall r, r ∈ allocation -> resource_state_of s2 r = Some COMPUTING) /\
     EXECUTE_JOB (Job.id o) (Some allocation)
       ∈ Simulator.requests (simulator s2)) /\
  let s' := (proceed_time until stream s).2 in
  (Job.start_time <$> store s' !! job) = Some (Some (current_time s)) /\
  EXECUTE_JOB (Job.id o) (Some allocation) ∈ Simulator.requests (simulator s') /\
  job ∉ Jobs.ready (_jobs s').
Proof.
  intros Hrun Hready Hpre Hpost Hjob Halloc Hp Hidle Hsweep Hapart.
  (* the sweep reaches the job with nothing changed for it *)
  assert (Hu : undisturbed job o allocation s s1).
  { eapply undisturbed_sweep; [|
      |exact Hsweep].
    - apply Forall_forall. intros j Hj. split; [by intros ->|].
      by eapply Forall_forall in Hapart.
    - split; [done|]. split; [done|].
      split; [|split; [done | split; [eauto | by exists pre, post]]].
      intros r Hr. unfold resource_state_of. rewrite Hp. simpl.
      by eapply Forall_forall in Hidle. }
  destruct Hu as (Hjob1 & _ & Hidle1 & Htime & [p1 Hp1] & l & post1 & Hready1 & Hl & Hpost1).
  assert (Hall1 : all_idle p1 allocation).
  { apply Forall_forall. intros r Hr. specialize (Hidle1 r Hr).
    unfold resource_state_of in Hidle1. by rewrite Hp1 in Hidle1. }
  (* the job is started there *)
  set (s2 := started job o allocation p1 (l ++ post1) s1).
  assert (Hstart : start_if_ready job s1 = (Ok tt, s2)).
  { apply StartFacts.start_if_ready_idle; try done.
    rewrite Hready1. by apply list_remove_once. }
  (* and what follows keeps it so *)
  set (x := EXECUTE_JOB (Job.id o) (Some allocation)).
  set (rest := for_ post start_if_ready >>
               let* stream := advance until stream in
               let* s := get in
               if use_batsim s then check_end_of_simulation stream (drain stream)
               else ret stream).
  assert (start_ready_jobs s = for_ post start_if_ready s2) as Hsw.
  { rewrite (StartFacts.start_ready_jobs_examines s pre job post Hready).
    mstep by exact Hsweep. by mstep by exact Hstart. }
  assert (Heq : proceed_time until stream s = rest s2).
  { unfold proceed_time.
    rewrite (bind_ok (gets is_running) _ s true s) by (unfold gets; by rewrite Hrun).
    cbn [assert]. rewrite bind_ret_l.
    unfold rest. unfold bind at 1 4. by rewrite Hsw. }
  assert (Hin2 : job ∉ Jobs.ready (_jobs s2)).
  { unfold s2, started. simpl. intros Hin. apply elem_of_app in Hin as [?|?]; done. }
  assert (Hstore2 : store s2 !! job = Some (Job.start (current_time s1) o)).
  { unfold s2, started. simpl. apply list_lookup_insert_eq. by eapply lookup_lt_Some. }
  split.
  { exists s2. split; [by mstep by exact Hsweep|]. split; [done|].
    split; [unfold s2, started; simpl; by rewrite lookup_insert_eq|].
    split; [done|]. rewrite Hstore2. simpl. rewrite Htime.
    split; [done|]. split; [done|]. split.
    - intros r Hr. unfold resource_state_of, s2, started. simpl.
      change (resource_state (mark_computing allocation p1) r = Some COMPUTING).
      rewrite StartFacts.mark_computing_state. rewrite decide_True by done.
      eapply Forall_forall in Hall1; [|done]. by rewrite Hall1.
    - unfold s2, started. simpl. apply elem_of_app. right. by left. }
  assert (Hlast : preserves (lasting true job x) rest).
  { apply preserves_bind; [apply _ | |intros _; apply LastingFacts.lasting_after_sweep].
    apply preserves_for; [apply _|]. apply Forall_forall. intros j Hj.
    apply LastingFacts.lasting_start_if_ready. by intros _ ->. }
  intros s'. unfold s'. rewrite Heq.
  destruct (Hlast s2) as [Hsettled Hsent].
  destruct Hsettled as [Hout Htimes].
  - done.
  - unfold s2, started. simpl. intros Hin. apply elem_of_app in Hin as [?|?]; done.
  - unfold s2, started. simpl. rewrite list_lookup_insert_eq by (by eapply lookup_lt_Some).
    eauto.
  - split; [|split; [|done]].
    + rewrite Htimes. unfold s2, started. simpl.
      rewrite list_lookup_insert_eq by (by eapply lookup_lt_Some). simpl.
      by rewrite Htime.
    + apply Hsent. unfold s2, started. simpl. apply elem_of_app. right. by left.
Qed.

Lemma proceed_time_starts_idle_job_witness :
  (exists s2,
     (for_ [0%nat] start_if_ready >> start_if_ready 1%nat) Sample.two_ready
       = (Ok tt, s2) /\
     start_ready_jobs Sample.two_ready = for_ [] start_if_ready s2 /\
     Jobs.running (_jobs s2) !! Job.id Sample.allocated_job = Some 1%nat /\
     (1%nat ∉ Jobs.ready (_jobs s2)) /\
     (Job.state <$> store s2 !! 1%nat) = Some RUNNING /\
     (Job.start_time <$> store s2 !! 1%nat)
       = Some (Some (current_time Sample.two_ready)) /\
     (forall r, r ∈ [1%nat] -> resource_state_of s2 r = Some COMPUTING) /\
     EXECUTE_JOB (Job.id Sample.allocated_job) (Some [1%nat])
       ∈ Simulator.requests (simulator s2)) /\
  let s' := (proceed_time 0 [mkBatch 20 []] Sample.two_ready).2 in
  (Job.start_time <$> store s' !! 1%nat) = Some (Some (current_time Sample.two_ready)) /\
  EXECUTE_JOB (Job.id Sample.allocated_job) (Some [1%nat])
    ∈ Simulator.requests (simulator s') /\
  1%nat ∉ Jobs.ready (_jobs s').
Proof.
  apply (proceed_time_starts_idle_job Sample.two_ready Sample.two_ready 0
           [mkBatch 20 []] [0%nat] [] 1%nat Sample.allocated_job [1%nat]
           (Sample.platform SWITCHING_ON IDLE)).
  - reflexivity.
  - reflexivity.
  - intros H. apply list_elem_of_singleton in H. discriminate H.
  - apply not_elem_of_nil.
  - reflexivity.
  - reflexivity.
  - reflexivity.
  - constructor; [reflexivity | constructor].
  - reflexivity.
  - constructor; [|constructor]. intros o a Ho Ha r Hr Hin.
    injection Ho as <-. injection Ha as <-.
    apply list_elem_of_singleton in Hr. apply list_elem_of_singleton in Hin.
    subst. discriminate Hin.
Defined.

End SweepFacts.

(* ===================================================================== *)
(** * The agenda: reservations as a whole *)
(* ===================================================================== *)

Module AgendaMore.
Import Agenda AgendaSpec.

Lemma agenda_eq (a b : t) :
(forall r, reservation a r = reservation b r) -> a = b.
Proof.
destruct a as [m], b as [m']. unfold reservation. simpl. intros H.
f_equal. by apply map_eq.
Qed.

Lemma all_free_false allocation a :
Forall (known a) allocation -> ~ Forall (free a) allocation ->
all_free allocation a = (Ok false, a).
Proof.
induction 1 as [|r rest [v Hr] _ IH]; intros Hnot.
- exfalso. apply Hnot. constructor.
- simpl. unfold bind, getitem_reservation, bind, get.
  unfold reservation in Hr. rewrite Hr. simpl.
  destruct v as [j|]; [done|]. apply IH. intros Hrest. apply Hnot.
  by constructor.
Qed.

(** X1: [reserve] is all or nothing. A call that fails leaves every
  reservation as it was; a call that succeeds found every resource of
  the allocation free, reserves each of them for the job and leaves
  the reservations of all other resources untouched. *)
Theorem reserve_all_or_nothing (jobs : list Job.t) (job : ref) (a a' : t)
  (r : result unit) :
reserve jobs job a = (r, a') ->
(is_ok r = false /\ a' = a) \/
(r = Ok tt /\
 exists o allocation,
   jobs !! job = Some o /\ Job.allocation o = Some allocation /\
   Forall (free a) allocation /\
   (forall i, i ∈ allocation -> reservation a' i = Some (Some job)) /\
   (forall i, i ∉ allocation -> reservation a' i = reservation a i)).
Proof.
intros H. destruct r as [[]|e|].
- right. split; [done|]. unfold reserve in H.
  apply bind_inv_ok in H as (o & a1 & Ho & H). unfold deref in Ho.
  destruct (jobs !! job) as [o'|] eqn:Hj; [|done]. injection Ho as -> <-.
  apply bind_inv_ok in H as (allocation & a2 & Ha & H).
  destruct (Job.allocation o) as [al|] eqn:Hal; [|done]. injection Ha as -> <-.
  apply bind_inv_ok in H as (b & a1 & Ef & H).
  pose proof (AllocateFacts.read_only_all_free allocation a) as Hro.
  rewrite Ef in Hro. simpl in Hro. subst a1.
  destruct b; [|done]. cbn [assert] in H. rewrite bind_ret_l in H.
  assert (Hfree : Forall (free a) allocation).
  { apply AllocateFacts.all_free_inv. by rewrite Ef. }
  rewrite AgendaFacts.for_setitem in H.
  2:{ eapply Forall_impl; [exact Hfree|]. intros i Hi. unfold known. rewrite Hi. eauto. }
  injection H as <-. exists o, allocation. repeat split; try done.
  + intros i Hi. rewrite AgendaFacts.reservation_assign_all. by rewrite decide_True.
  + intros i Hi. rewrite AgendaFacts.reservation_assign_all. by rewrite decide_False.
- left. split; [done|]. by eapply AllocateFacts.reserve_fails_unchanged.
- left. split; [done|]. by eapply AllocateFacts.reserve_fails_unchanged.
Qed.

Lemma reserve_all_or_nothing_witness :
(is_ok (Raised AssertionError : result unit) = false /\
 Sample.progress_agenda = Sample.progress_agenda) \/
(Raised AssertionError = Ok tt /\
 exists o allocation,
   [Sample.overrun] !! 0%nat = Some o /\ Job.allocation o = Some allocation /\
   Forall (free Sample.progress_agenda) allocation /\
   (forall i, i ∈ allocation ->
      reservation Sample.progress_agenda i = Some (Some 0%nat)) /\
   (forall i, i ∉ allocation ->
      reservation Sample.progress_agenda i = reservation Sample.progress_agenda i)).
Proof.
apply (reserve_all_or_nothing [Sample.overrun] 0%nat Sample.progress_agenda
         Sample.progress_agenda (Raised AssertionError)).
reflexivity.
Defined.

(** X2: [reserve] refuses a conflict. When the resources of the
  allocation all belong to the agenda and one of them is reserved,
  [reserve] fails with [AssertionError] and the agenda is unchanged. *)
Theorem reserve_conflict (jobs : list Job.t) (job : ref) (o : Job.t)
  (allocation : list nat) (a : t) :
jobs !! job = Some o -> Job.allocation o = Some allocation ->
Forall (known a) allocation -> ~ Forall (free a) allocation ->
reserve jobs job a = (Raised AssertionError, a).
Proof.
intros Hj Ha Hk Hnot. unfold reserve, deref. rewrite Hj. cbn [getitem].
rewrite bind_ret_l, Ha. cbn [not_none]. rewrite bind_ret_l.
by rewrite (bind_ok (all_free allocation) _ a false a) by (by apply all_free_false).
Qed.

Lemma reserve_conflict_witness :
reserve [Sample.overrun] 0%nat Sample.progress_agenda
  = (Raised AssertionError, Sample.progress_agenda).
Proof.
apply (reserve_conflict [Sample.overrun] 0%nat Sample.overrun [0%nat]
         Sample.progress_agenda).
- reflexivity.
- reflexivity.
- constructor; [|constructor]. exists (Some 0%nat). reflexivity.
- intros H. inversion H as [|? ? Hf _]. discriminate Hf.
Defined.

(** X3: [reserve] then [release] of the same allocation is a round
  trip: on an agenda in which the allocation is free, the two calls
  succeed and give back the agenda they started from. *)
Theorem reserve_release_round_trip (jobs : list Job.t) (job : ref) (o : Job.t)
  (allocation : list nat) (a : t) :
jobs !! job = Some o -> Job.allocation o = Some allocation ->
Forall (free a) allocation ->
(reserve jobs job >> release allocation) a = (Ok tt, a).
Proof.
intros Hj Ha Hfree.
mstep by (by eapply AgendaFacts.reserve_ok).
unfold release. rewrite AgendaFacts.for_setitem.
- f_equal. apply agenda_eq. intros r.
  rewrite !AgendaFacts.reservation_assign_all.
  destruct (decide (r ∈ allocation)) as [Hin|]; [|done].
  symmetry. by eapply Forall_forall in Hfree.
- eapply Forall_impl; [exact Hfree|]. intros r Hr.
  apply AgendaFacts.known_assign_all. unfold known. rewrite Hr. eauto.
Qed.

Lemma reserve_release_round_trip_witness :
(reserve [Sample.overrun] 0%nat >> release [0%nat]) (init [0%nat; 1%nat])
  = (Ok tt, init [0%nat; 1%nat]).
Proof.
apply (reserve_release_round_trip [Sample.overrun] 0%nat Sample.overrun [0%nat]
         (init [0%nat; 1%nat])).
- reflexivity.
- reflexivity.
- constructor; [reflexivity | constructor].
Defined.

(** X4: [release] is idempotent: releasing resources of the agenda a
  second time succeeds and changes nothing more. *)
Theorem release_idempotent (resource_ids : list nat) (a : t) :
Forall (known a) resource_ids ->
(release resource_ids >> release resource_ids) a = release resource_ids a.
Proof.
intros Hk. unfold release at 1 3. rewrite (AgendaFacts.for_setitem None resource_ids a Hk).
mstep by (by apply AgendaFacts.for_setitem).
unfold release. rewrite AgendaFacts.for_setitem.
- f_equal. apply agenda_eq. intros r.
  rewrite !AgendaFacts.reservation_assign_all. by case_decide.
- eapply Forall_impl; [exact Hk|]. intros r. apply AgendaFacts.known_assign_all.
Qed.

Lemma release_idempotent_witness :
(release [0%nat] >> release [0%nat]) Sample.progress_agenda
  = release [0%nat] Sample.progress_agenda.
Proof.
apply (release_idempotent [0%nat] Sample.progress_agenda).
constructor; [|constructor]. exists (Some 0%nat). reflexivity.
Defined.

End AgendaMore.

Module AgendaListing.
Import Agenda AgendaSpec.

Global Instance key_le_transitive : Transitive key_le.
Proof. intros x y z. unfold key_le. lia. Qed.

Global Instance key_le_total : Total key_le.
Proof. intros x y. unfold key_le. lia. Qed.

Lemma elem_of_items a r v : (r, v) ∈ items a <-> reservation a r = Some v.
Proof.
unfold items, reservation. rewrite merge_sort_Permutation.
apply elem_of_map_to_list.
Qed.

Lemma NoDup_items_keys a : NoDup ((items a).*1).
Proof.
unfold items. rewrite merge_sort_Permutation. apply NoDup_fst_map_to_list.
Qed.

Lemma StronglySorted_strict (l : list (nat * option ref)) :
StronglySorted key_le l -> NoDup (l.*1) ->
StronglySorted (fun x y => (x.1 < y.1)%nat) l.
Proof.
induction 1 as [|x l Hl IH Hx]; intros Hnd; [constructor|].
apply NoDup_cons in Hnd as [Hnin Hnd]. constructor; [by apply IH|].
apply Forall_forall. intros y Hy.
pose proof (proj1 (Forall_forall _ _) Hx y Hy) as Hle. unfold key_le in Hle.
destruct (decide (x.1 = y.1)) as [Heq|]; [|lia].
exfalso. apply Hnin. rewrite Heq. apply list_elem_of_fmap. by exists y.
Qed.

Lemma StronglySorted_filter {A} (R : relation A) (P : A -> Prop)
  `{forall x, Decision (P x)} (l : list A) :
StronglySorted R l -> StronglySorted R (filter P l).
Proof.
induction 1 as [|x l Hl IH Hx]; [constructor|].
rewrite filter_cons. case_decide; [|done]. constructor; [done|].
apply Forall_forall. intros y Hy. apply list_elem_of_filter in Hy as [_ Hy].
by eapply Forall_forall in Hx.
Qed.

Lemma items_strictly_sorted a :
StronglySorted (fun x y => (x.1 < y.1)%nat) (items a).
Proof.
apply StronglySorted_strict; [|apply NoDup_items_keys].
unfold items. apply StronglySorted_merge_sort; apply _.
Qed.

Lemma get_available_resources_sorted (a : t) :
(forall r, r ∈ get_available_resources a <-> free a r) /\
StronglySorted lt (get_available_resources a).
Proof.
unfold get_available_resources.
change (map fst ?l) with (fst <$> l). split.
- intros r. rewrite list_elem_of_fmap. unfold free. split.
  + intros ([r' v] & -> & Hin). apply list_elem_of_filter in Hin as [Hv Hin].
    simpl in *. subst v. by apply elem_of_items.
  + intros Hr. exists (r, None). split; [done|].
    apply list_elem_of_filter. split; [done | by apply elem_of_items].
- eapply (StronglySorted_fmap fst (fun x y => (x.1 < y.1)%nat)); [done|].
  apply StronglySorted_filter, items_strictly_sorted.
Qed.

Lemma StronglySorted_lt_NoDup (l : list nat) : StronglySorted lt l -> NoDup l.
Proof.
induction 1 as [|x l Hl IH Hx]; constructor; [|done].
intros Hin. pose proof (proj1 (Forall_forall _ _) Hx _ Hin). lia.
Qed.

(** X5: [get_available_resources] lists exactly the free resources of
  the agenda, each once, in strictly ascending order of their ids. *)
Theorem get_available_resources_free_ascending (a : t) :
(forall r, r ∈ get_available_resources a <-> free a r) /\
NoDup (get_available_resources a) /\
StronglySorted lt (get_available_resources a).
Proof.
destruct (get_available_resources_sorted a) as [Hmem Hsorted].
split; [done|]. split; [by apply StronglySorted_lt_NoDup | done].
Qed.

Lemma read_only_reserved_of jobs now it : read_only (reserved_of jobs now it).
Proof.
intros a. unfold reserved_of. destruct it.2 as [j|]; [|done].
unfold deref. destruct (jobs !! j) as [o|]; [|done]. cbn [getitem].
rewrite bind_ret_l. case_decide; [|done].
by destruct (Job.start_time o).
Qed.

End AgendaListing.

(* ===================================================================== *)
(** * The agenda: the nodes that are available *)
(* ===================================================================== *)

Module NodeFacts.
Import Agenda AgendaSpec AgendaNodes.

Section Groupby.
Context {A K : Type} `{EqDecision K} (key : A -> K).

Lemma groupby_concat l : mjoin ((groupby key l).*2) = l.
Proof.
induction l as [|x l IH]; [done|]. cbn [groupby].
destruct (groupby key l) as [|[k g] groups]; [by destruct l|].
case_decide; simpl in *; by rewrite <- IH.
Qed.

Lemma groupby_runs l :
Forall (fun kg => kg.2 <> [] /\ Forall (fun x => key x = kg.1) kg.2) (groupby key l).
Proof.
induction l as [|x l IH]; [constructor|]. cbn [groupby].
destruct (groupby key l) as [|[k g] groups].
- constructor; [|constructor]. split; [done|]. by constructor.
- inversion IH as [|? ? [Hne Hg] Hrest]; subst. case_decide.
+ constructor; [|done]. split; [done|]. by constructor.
+ constructor; [|done]. split; [done|]. by constructor.
Qed.

Lemma groupby_elem_of l x :
x ∈ l -> exists g, (key x, g) ∈ groupby key l /\ x ∈ g.
Proof.
intros Hx. rewrite <- (groupby_concat l) in Hx.
apply list_elem_of_join in Hx as (g & Hxg & Hg).
apply list_elem_of_fmap in Hg as ([k g'] & -> & Hg). simpl in *.
pose proof (groupby_runs l) as Hruns.
pose proof (proj1 (Forall_forall _ _) Hruns _ Hg) as [_ Hkeys]. simpl in Hkeys.
pose proof (proj1 (Forall_forall _ _) Hkeys _ Hxg) as ->. eauto.
Qed.

Lemma groupby_group_elem_of l k g x :
(k, g) ∈ groupby key l -> x ∈ g -> x ∈ l /\ key x = k.
Proof.
intros Hg Hx. split.
- rewrite <- (groupby_concat l). apply list_elem_of_join. exists g. split; [done|].
apply list_elem_of_fmap. by exists (k, g).
- pose proof (proj1 (Forall_forall _ _) (groupby_runs l) _ Hg) as [_ Hkeys].
by apply (proj1 (Forall_forall _ _) Hkeys).
Qed.

End Groupby.

(** On a list in the order of its keys, the runs have keys that
  strictly ascend: each key has one run. *)
Lemma groupby_sorted {A} (key : A -> nat) l :
StronglySorted (fun x y => (key x <= key y)%nat) l ->
StronglySorted lt ((groupby key l).*1).
Proof.
induction 1 as [|x l Hl IH Hx]; [constructor|]. cbn [groupby].
pose proof (groupby_runs key l) as Hruns.
assert (Hkeys : Forall (fun kg => (key x <= kg.1)%nat) (groupby key l)).
{ apply Forall_forall. intros [k g] Hg.
  pose proof (proj1 (Forall_forall _ _) Hruns _ Hg) as [Hne Hall]. simpl in *.
  destruct g as [|y g]; [done|].
  destruct (groupby_group_elem_of key l k (y :: g) y Hg) as [Hy <-]; [by left|].
  by apply (proj1 (Forall_forall _ _) Hx). }
destruct (groupby key l) as [|[k g] groups]; [repeat constructor|].
simpl in IH. inversion IH as [|? ? Hs Hlt]; subst.
inversion Hkeys as [|? ? Hk Hks]; subst. simpl in Hk.
case_decide as Hkx; simpl.
- by constructor.
- constructor; [by constructor|]. constructor; [lia|].
  eapply Forall_impl; [exact Hlt|]. simpl. lia.
Qed.

Lemma with_parent_all p l a keyed a' :
mapM (with_parent p) l a = (Ok keyed, a') ->
a' = a /\ keyed.*2 = l /\ Forall (fun x => parent p x.2.1 = Some x.1) keyed.
Proof.
revert keyed a'. induction l as [|it l IH]; intros keyed a' H.
- injection H as <- <-. by repeat split.
- cbn [mapM] in H. apply bind_inv_ok in H as (x & a1 & Hx & H).
  apply bind_inv_ok in H as (xs & a2 & Hxs & H). injection H as <- <-.
  unfold with_parent in Hx.
  destruct (Platform.resources p !! it.1) as [o|] eqn:Ho; [|done].
  injection Hx as <- <-. destruct (IH _ _ Hxs) as (-> & Hl & Hall).
  split; [done|]. split; [by rewrite fmap_cons, Hl|].
  constructor; [|done]. unfold parent. simpl. by rewrite Ho.
Qed.

Lemma all_none_true (g : list (nat * (nat * option ref))) :
forallb (fun x => bool_decide (x.2.2 = None)) g = true <->
Forall (fun x => x.2.2 = None) g.
Proof.
rewrite forallb_forall, Forall_forall. split; intros H x Hx.
- apply list_elem_of_In in Hx. apply (bool_decide_eq_true_1 _). by apply H.
- apply list_elem_of_In in Hx. apply bool_decide_eq_true_2. by apply H.
Qed.

Lemma available_nodes_loop_spec p groups nodes a ns a' :
available_nodes_loop p groups nodes a = (Ok ns, a') ->
a' = a /\
ns = nodes ++ (filter (fun kg => Forall (fun x => x.2.2 = None) kg.2) groups).*1.
Proof.
revert nodes. induction groups as [|[k g] groups IH]; intros nodes H.
- injection H as <- <-. split; [done|]. by rewrite app_nil_r.
- cbn [available_nodes_loop] in H. rewrite filter_cons.
  destruct (forallb _ g) eqn:Hall.
  + apply bind_inv_ok in H as (nd & a1 & Hn & H).
    destruct (Platform.nodes p !! k); [|done]. injection Hn as _ <-.
    destruct (IH _ H) as (-> & ->). split; [done|].
    rewrite decide_True by (by apply all_none_true).
    by rewrite <- app_assoc.
  + destruct (IH _ H) as (-> & ->). split; [done|].
    rewrite decide_False; [done|].
    simpl. intros HF. apply all_none_true in HF. congruence.
Qed.

(** What [get_available_nodes] returns, in terms of the runs of the
  reservations. *)
Lemma get_available_nodes_runs p a ns a' :
get_available_nodes p a = (Ok ns, a') ->
a' = a /\ exists keyed,
  keyed.*2 = items a /\
  Forall (fun x => parent p x.2.1 = Some x.1) keyed /\
  ns = (filter (fun kg => Forall (fun x => x.2.2 = None) kg.2) (groupby fst keyed)).*1.
Proof.
unfold get_available_nodes. rewrite (bind_ok get _ a a a) by reflexivity.
intros H. apply bind_inv_ok in H as (keyed & a1 & Hk & H).
destruct (with_parent_all _ _ _ _ _ Hk) as (-> & Hitems & Hpar).
destruct (available_nodes_loop_spec _ _ _ _ _ _ H) as (-> & ->).
split; [done|]. by exists keyed.
Qed.

Lemma get_available_nodes_between (p : Platform.t) (a a' : t) (ns : list nat) :
get_available_nodes p a = (Ok ns, a') ->
a' = a /\
(forall n, n ∈ ns -> exists r, free a r /\ parent p r = Some n) /\
(forall n r, known a r -> parent p r = Some n ->
   (forall r', known a r' -> parent p r' = Some n -> free a r') -> n ∈ ns).
Proof.
intros H. destruct (get_available_nodes_runs _ _ _ _ H)
  as (-> & keyed & Hitems & Hpar & ->).
split; [done|]. split.
- intros n Hn. apply list_elem_of_fmap in Hn as ([k g] & -> & Hg). simpl.
  apply list_elem_of_filter in Hg as [Hfree Hg]. simpl in Hfree.
  pose proof (proj1 (Forall_forall _ _) (groupby_runs fst keyed) _ Hg) as [Hne _].
  simpl in Hne. destruct g as [|x g]; [done|].
  destruct (groupby_group_elem_of fst keyed k (x :: g) x Hg) as [Hx Hk]; [by left|].
  inversion Hfree as [|? ? Hxf _]; subst.
  exists x.2.1. split.
  + apply AgendaListing.elem_of_items. rewrite <- Hxf, <- surjective_pairing.
    rewrite <- Hitems. apply list_elem_of_fmap. by exists x.
  + by apply (proj1 (Forall_forall _ _) Hpar).
- intros n r [v Hr] Hp Hall.
  apply AgendaListing.elem_of_items in Hr. rewrite <- Hitems in Hr.
  apply list_elem_of_fmap in Hr as (x & Hx & Hin).
  destruct (groupby_elem_of fst keyed x Hin) as (g & Hg & Hxg).
  pose proof (proj1 (Forall_forall _ _) Hpar _ Hin) as Hpx.
  cbv beta in Hpx. rewrite <- Hx in Hpx. simpl in Hpx. rewrite Hp in Hpx. injection Hpx as Hn.
  apply list_elem_of_fmap. exists (x.1, g). split; [done|].
  apply list_elem_of_filter. split; [|done]. simpl.
  apply Forall_forall. intros y Hy.
  destruct (groupby_group_elem_of fst keyed x.1 g y Hg Hy) as [Hyin Hyk].
  assert (Hyit : (y.2.1, y.2.2) ∈ items a).
  { rewrite <- surjective_pairing, <- Hitems. apply list_elem_of_fmap. by exists y. }
  apply AgendaListing.elem_of_items in Hyit.
  assert (free a y.2.1) as Hf.
  { apply Hall; [unfold known; rewrite Hyit; eauto|].
    rewrite (proj1 (Forall_forall _ _) Hpar _ Hyin). congruence. }
  unfold free in Hf. congruence.
Qed.

(** X7: the nodes that [get_available_nodes] lists. The agenda is left
  as it is. Every node listed is the parent of a free resource; and a
  node with a resource in the agenda, all of whose resources there are
  free, is listed. *)
Theorem get_available_nodes_bounds (p : Platform.t) (a a' : t) (ns : list nat) :
get_available_nodes p a = (Ok ns, a') ->
a' = a /\
(forall n, n ∈ ns -> exists r, free a r /\ parent p r = Some n) /\
(forall n r, known a r -> parent p r = Some n ->
   (forall r', known a r' -> parent p r' = Some n -> free a r') -> n ∈ ns).
Proof. apply get_available_nodes_between. Qed.

Lemma get_available_nodes_bounds_witness :
let a := Agenda.mk (<[0%nat := Some 0%nat]> (<[1%nat := None]> ∅)) in
a = a /\
(forall n, n ∈ [1%nat] ->
   exists r, free a r /\ parent (Sample.platform IDLE IDLE) r = Some n) /\
(forall n r, known a r -> parent (Sample.platform IDLE IDLE) r = Some n ->
   (forall r', known a r' -> parent (Sample.platform IDLE IDLE) r' = Some n ->
      free a r') -> n ∈ [1%nat]).
Proof.
intros a.
apply (get_available_nodes_bounds (Sample.platform IDLE IDLE) a a [1%nat]).
vm_compute. reflexivity.
Defined.

Lemma StronglySorted_of_fmap {A B} (f : A -> B) (R1 : relation A) (R2 : relation B) l :
(forall x y, x ∈ l -> y ∈ l -> R2 (f x) (f y) -> R1 x y) ->
StronglySorted R2 (f <$> l) -> StronglySorted R1 l.
Proof.
induction l as [|x l IH]; intros HR Hs; [constructor|].
rewrite fmap_cons in Hs. inversion Hs as [|? ? Hl Hx]; subst.
constructor.
- apply IH; [|done]. intros y z Hy Hz. apply HR; by right.
- apply Forall_forall. intros y Hy. apply HR; [by left | by right |].
  apply (proj1 (Forall_forall _ _) Hx). apply list_elem_of_fmap. by exists y.
Qed.

Lemma StronglySorted_lt_unique {A} (l : list (nat * A)) k g g' :
StronglySorted lt (l.*1) -> (k, g) ∈ l -> (k, g') ∈ l -> g = g'.
Proof.
induction l as [|[k0 g0] l IH]; intros Hs Hg Hg'; [by apply elem_of_nil in Hg|].
rewrite fmap_cons in Hs. inversion Hs as [|? ? Hl Hx]; subst. simpl in Hx.
assert (Hfresh : forall h, (k0, h) ∉ l).
{ intros h Hh. assert (k0 ∈ l.*1) as Hk by (apply list_elem_of_fmap; by exists (k0, h)).
  pose proof (proj1 (Forall_forall _ _) Hx _ Hk). lia. }
apply elem_of_cons in Hg as [Hg|Hg], Hg' as [Hg'|Hg'].
- congruence.
- injection Hg as -> ->. by apply Hfresh in Hg'.
- injection Hg' as -> ->. by apply Hfresh in Hg.
- by apply IH.
Qed.

(** X8: with the resources of each node numbered in a row (the parent
  ids do not descend as the resource ids ascend), [get_available_nodes]
  lists exactly the nodes that have a resource in the agenda and all
  of whose resources are free, each once, in ascending order. *)
Theorem get_available_nodes_exact (p : Platform.t) (a a' : t) (ns : list nat) :
(forall r1 r2 n1 n2, known a r1 -> known a r2 -> (r1 <= r2)%nat ->
   parent p r1 = Some n1 -> parent p r2 = Some n2 -> (n1 <= n2)%nat) ->
get_available_nodes p a = (Ok ns, a') ->
StronglySorted lt ns /\
(forall n, n ∈ ns <->
   (exists r, known a r /\ parent p r = Some n) /\
   (forall r, known a r -> parent p r = Some n -> free a r)).
Proof.
intros Hmono H.
destruct (get_available_nodes_between _ _ _ _ H) as (_ & Hsound & Hcomplete).
destruct (get_available_nodes_runs _ _ _ _ H) as (-> & keyed & Hitems & Hpar & ->).
assert (Hknown : forall x, x ∈ keyed -> reservation a x.2.1 = Some x.2.2).
{ intros x Hx. apply AgendaListing.elem_of_items.
  rewrite <- surjective_pairing, <- Hitems. apply list_elem_of_fmap. by exists x. }
assert (Hsorted : StronglySorted lt ((groupby fst keyed).*1)).
{ apply groupby_sorted.
  apply (StronglySorted_of_fmap snd _ (fun x y => (x.1 < y.1)%nat));
    [|rewrite Hitems; apply AgendaListing.items_strictly_sorted].
  intros x y Hx Hy Hlt.
  apply (Hmono x.2.1 y.2.1).
  - unfold known. rewrite (Hknown x Hx). eauto.
  - unfold known. rewrite (Hknown y Hy). eauto.
  - lia.
  - by apply (proj1 (Forall_forall _ _) Hpar).
  - by apply (proj1 (Forall_forall _ _) Hpar). }
split.
- apply (StronglySorted_fmap fst (fun x y => (x.1 < y.1)%nat)); [done|].
  apply AgendaListing.StronglySorted_filter.
  apply (StronglySorted_of_fmap fst _ lt); [done | exact Hsorted].
- intros n. split.
  + intros Hn. split.
    * destruct (Hsound n Hn) as (r & Hr & Hp). exists r. split; [|done].
      unfold known. rewrite Hr. eauto.
    * intros r [v Hr] Hp.
      apply list_elem_of_fmap in Hn as ([k g] & -> & Hg). simpl in *.
      apply list_elem_of_filter in Hg as [Hfree Hg]. simpl in Hfree.
      apply AgendaListing.elem_of_items in Hr. rewrite <- Hitems in Hr.
      apply list_elem_of_fmap in Hr as (x & Hx & Hin).
      destruct (groupby_elem_of fst keyed x Hin) as (g' & Hg' & Hxg).
      pose proof (proj1 (Forall_forall _ _) Hpar _ Hin) as Hpx.
      cbv beta in Hpx. rewrite <- Hx in Hpx. simpl in Hpx.
      rewrite Hp in Hpx. injection Hpx as Hk. rewrite <- Hk in Hg'.
      rewrite (StronglySorted_lt_unique _ _ _ _ Hsorted Hg Hg') in Hfree.
      pose proof (proj1 (Forall_forall _ _) Hfree _ Hxg) as Hnone.
      cbv beta in Hnone. rewrite <- Hx in Hnone. simpl in Hnone. subst v.
      unfold free. pose proof (Hknown x Hin) as Hrx.
      rewrite <- Hx in Hrx. exact Hrx.
  + intros [(r & Hr & Hp) Hall]. by eapply Hcomplete.
Qed.

Lemma get_available_nodes_exact_witness :
StronglySorted lt [1%nat] /\
(forall n, n ∈ [1%nat] <->
   (exists r, known (Agenda.mk (<[0%nat := Some 0%nat]> (<[1%nat := None]> ∅))) r /\
      parent (Sample.platform COMPUTING IDLE) r = Some n) /\
   (forall r, known (Agenda.mk (<[0%nat := Some 0%nat]> (<[1%nat := None]> ∅))) r ->
      parent (Sample.platform COMPUTING IDLE) r = Some n ->
      free (Agenda.mk (<[0%nat := Some 0%nat]> (<[1%nat := None]> ∅))) r)) .
Proof.
apply (get_available_nodes_exact (Sample.platform COMPUTING IDLE)
         (Agenda.mk (<[0%nat := Some 0%nat]> (<[1%nat := None]> ∅)))
         (Agenda.mk (<[0%nat := Some 0%nat]> (<[1%nat := None]> ∅))) [1%nat]).
- intros r1 r2 n1 n2 [v1 H1] [v2 H2] Hle Hp1 Hp2.
  unfold reservation in H1, H2. simpl in H1, H2.
  destruct (decide (r1 = 0%nat)) as [->|];
    [|destruct (decide (r1 = 1%nat)) as [->|];
      [|rewrite !lookup_insert_ne, lookup_empty in H1 by done; done]];
  (destruct (decide (r2 = 0%nat)) as [->|];
    [|destruct (decide (r2 = 1%nat)) as [->|];
      [|rewrite !lookup_insert_ne, lookup_empty in H2 by done; done]]);
  vm_compute in Hp1, Hp2; injection Hp1 as <-; injection Hp2 as <-; lia.
- vm_compute. reflexivity.
Defined.

End NodeFacts.

(* ===================================================================== *)
(** * The beginning of a simulation *)
(* ===================================================================== *)

Module BeginFacts.
Import AgendaSpec HandlerViews.

Lemma reservation_init ids r :
reservation (Agenda.init ids) r = if decide (r ∈ ids) then Some None else None.
Proof.
unfold reservation, Agenda.init. cbn [Agenda.reservations].
induction ids as [|i ids IH].
- cbn [map list_to_map foldr]. rewrite lookup_empty.
  case_decide as H; [by apply elem_of_nil in H | done].
- cbn [map]. rewrite list_to_map_cons. cbn [fst snd].
  destruct (decide (r = i)) as [->|Hne].
  + rewrite lookup_insert_eq. rewrite decide_True; [done | by left].
  + rewrite lookup_insert_ne by done. rewrite IH.
    destruct (decide (r ∈ ids)) as [Hin|Hnin].
    * rewrite decide_True; [done | by right].
    * rewrite decide_False; [done|]. rewrite elem_of_cons. by intros [|].
Qed.

Lemma elem_of_resource_ids p r :
r ∈ map fst (map_to_list (Platform.resources p)) <->
is_Some (Platform.resources p !! r).
Proof.
change (map fst ?l) with (fst <$> l). rewrite list_elem_of_fmap. split.
- intros ([r' o] & -> & Hin). apply elem_of_map_to_list in Hin. simpl. eauto.
- intros [o Ho]. exists (r, o). split; [done|]. by apply elem_of_map_to_list.
Qed.

Lemma acceptable_assert simulation_time :
acceptable simulation_time ->
match simulation_time with
| Some t => falsy t || (0 <? t)
| None => true
end = true.
Proof. by destruct simulation_time. Qed.

(** X9: [start] on a handler that is not running, with a simulation
  time that is zero or positive, or none, begins the simulation: the handler runs
  at the time of the first batch, holds the platform of that batch, its
  cohorts are empty, every resource of the platform is available in
  the agenda and no other, and [CALL_ME_LATER] has been sent for the
  simulation time exactly when one is given that is not zero. *)
Theorem start_begins (s : RJMSHandler) (sim_time : option float) (t : float)
  (p : Platform.t) (rest : list Batch) :
is_running s = false -> acceptable sim_time ->
exists s',
  start sim_time (mkBatch t [SIMULATION_BEGINS p] :: rest) s = (Ok rest, s') /\
  is_running s' = true /\ current_time s' = t /\
  _jobs s' = Jobs.empty /\ submitter_ended s' = false /\
  platform s' = Some p /\
  (forall r, reservation_of s' r =
             if decide (is_Some (Platform.resources p !! r)) then Some None else None) /\
  requests s' = requests s ++
    match sim_time with
    | Some x => if falsy x then [] else [CALL_ME_LATER x]
    | None => []
    end.
Proof.
intros Hr Hacc. apply acceptable_assert in Hacc.
destruct sim_time as [x|]; [destruct (falsy x) eqn:Hz|];
  (eexists; split;
   [ unfold start;
     rewrite (bind_ok (gets is_running) _ s false s) by (unfold gets; by rewrite Hr);
     cbn [negb assert]; rewrite bind_ret_l; rewrite ?Hz; try rewrite Hacc; cbn [assert];
     rewrite bind_ret_l;
     unfold proceed_simulation, receive, deliver, on_simulation_begins, on_simulator, zoom;
     cbv beta iota delta [bind modify get ret for_ handle events now
                          on_simulation_begins];
     simpl; rewrite ?Hz; reflexivity
   | repeat split; try done;
     first
     [ intros r;
       match goal with
       | |- reservation_of ?s' r = _ =>
           change (reservation_of s' r)
             with (reservation
                     (Agenda.init (map fst (map_to_list (Platform.resources p)))) r)
       end;
       rewrite reservation_init;
       destruct (decide (is_Some (Platform.resources p !! r))) as [Hs|Hn];
       [ rewrite decide_True; [done | by apply elem_of_resource_ids]
       | rewrite decide_False; [done | by rewrite elem_of_resource_ids] ]
     | unfold requests; simpl; by rewrite ?app_nil_r ] ]).
Qed.

Lemma start_begins_witness :
exists s',
  start (Some 100) (mkBatch 0 [SIMULATION_BEGINS (Sample.platform IDLE IDLE)] :: [])
    (init false) = (Ok [], s') /\
  is_running s' = true /\ current_time s' = 0 /\
  _jobs s' = Jobs.empty /\ submitter_ended s' = false /\
  platform s' = Some (Sample.platform IDLE IDLE) /\
  (forall r, reservation_of s' r =
             if decide (is_Some (Platform.resources (Sample.platform IDLE IDLE) !! r))
             then Some None else None) /\
  requests s' = requests (init false) ++
    (if falsy 100 then [] else [CALL_ME_LATER 100]).
Proof.
apply (start_begins (init false) (Some 100) 0 (Sample.platform IDLE IDLE) []).
- reflexivity.
- reflexivity.
Defined.

(** X10: [start] refuses to begin twice or with a negative simulation
  time: on a handler that is running, or with a simulation time that
  is neither zero nor positive, it raises [AssertionError], consumes no event and leaves the
  handler as it was. *)
Theorem start_rejects (s : RJMSHandler) (sim_time : option float)
  (stream : list Batch) :
is_running s = true \/ ~ acceptable sim_time ->
start sim_time stream s = (Raised AssertionError, s).
Proof.
intros H. unfold start.
destruct (is_running s) eqn:Hr.
- rewrite (bind_ok (gets is_running) _ s true s) by (unfold gets; by rewrite Hr).
  reflexivity.
- destruct H as [|Hacc]; [done|].
  rewrite (bind_ok (gets is_running) _ s false s) by (unfold gets; by rewrite Hr).
  cbn [negb assert]. rewrite bind_ret_l.
  destruct sim_time as [x|]; [|by destruct Hacc].
  simpl in Hacc. apply not_true_is_false in Hacc. by rewrite Hacc.
Qed.

Lemma start_rejects_witness :
start None [Sample.begins] (Sample.finishing false)
  = (Raised AssertionError, Sample.finishing false).
Proof.
apply (start_rejects (Sample.finishing false) None [Sample.begins]).
left. reflexivity.
Defined.

End BeginFacts.

(* ===================================================================== *)
(** * The views, submission and completion *)
(* ===================================================================== *)

Module HandlerFacts.
Import AgendaSpec StartSpec HandlerViews.

Lemma read_only_assert {S} b : read_only (@assert S b).
Proof. by destruct b. Qed.

Lemma read_only_get_progress : read_only get_progress.
Proof.
unfold get_progress. apply read_only_bind; [apply read_only_get|]. intros s.
apply read_only_bind; [apply read_only_assert|]. intros _.
apply read_only_on_agenda. unfold Agenda.get_progress.
apply read_only_bind; [apply read_only_get|]. intros a.
apply read_only_mapM, AgendaFacts.read_only_progress_of.
Qed.

Lemma read_only_get_reserved_time : read_only get_reserved_time.
Proof.
unfold get_reserved_time. apply read_only_bind; [apply read_only_get|]. intros s.
apply read_only_bind; [apply read_only_assert|]. intros _.
apply read_only_on_agenda. unfold Agenda.get_reserved_time.
apply read_only_bind; [apply read_only_get|]. intros a.
apply read_only_mapM, AgendaListing.read_only_reserved_of.
Qed.

Lemma read_only_get_available_resources : read_only get_available_resources.
Proof.
unfold get_available_resources. apply read_only_bind; [apply read_only_get|]. intros s.
apply read_only_bind; [apply read_only_assert|]. intros _.
apply read_only_on_agenda. by intros a.
Qed.

Lemma read_only_agenda_nodes p : read_only (AgendaNodes.get_available_nodes p).
Proof.
intros a. destruct (AgendaNodes.get_available_nodes p a) as [[ns|e|] a'] eqn:E.
- by destruct (NodeFacts.get_available_nodes_runs _ _ _ _ E) as [-> _].
- revert E. unfold AgendaNodes.get_available_nodes.
  rewrite (bind_ok get _ a a a) by reflexivity. intros E.
  assert (Hm : read_only (mapM (AgendaNodes.with_parent p) (Agenda.items a))).
  { apply read_only_mapM. intros it b. unfold AgendaNodes.with_parent, bind, getitem.
    by destruct (_ !! _). }
  specialize (Hm a). unfold bind in E.
  destruct (mapM _ _ a) as [[keyed|e'|] a1]; simpl in Hm; subst a1;
    [|by injection E as _ <-|done].
  revert E. generalize (@nil nat). induction (groupby fst keyed) as [|[k g] groups IH];
    intros acc; simpl; [done|].
  destruct (forallb _ g); [|apply IH].
  unfold bind, getitem. destruct (_ !! k); [apply IH | by intros [= _ <-]].
- revert E. unfold AgendaNodes.get_available_nodes.
  rewrite (bind_ok get _ a a a) by reflexivity. intros E.
  assert (Hm : read_only (mapM (AgendaNodes.with_parent p) (Agenda.items a))).
  { apply read_only_mapM. intros it b. unfold AgendaNodes.with_parent, bind, getitem.
    by destruct (_ !! _). }
  specialize (Hm a). unfold bind in E.
  destruct (mapM _ _ a) as [[keyed|e'|] a1]; simpl in Hm; subst a1;
    [|done|by injection E as <-].
  revert E. generalize (@nil nat). induction (groupby fst keyed) as [|[k g] groups IH];
    intros acc; simpl; [done|].
  destruct (forallb _ g); [|apply IH].
  unfold bind, getitem. destruct (_ !! k); [apply IH | done].
Qed.

Lemma read_only_get_available_nodes : read_only get_available_nodes.
Proof.
unfold get_available_nodes. apply read_only_bind; [apply read_only_get|]. intros s.
apply read_only_bind; [apply read_only_assert|]. intros _.
destruct (platform s); [|apply read_only_raise].
apply read_only_on_agenda, read_only_agenda_nodes.
Qed.

(** X11: the four views of the handler ([get_progress],
  [get_reserved_time], [get_available_resources],
  [get_available_nodes]) never change the handler, whatever they
  return, and each raises [AssertionError] as long as no simulation
  has begun and the handler has no agenda. *)
Theorem views_observe (s : RJMSHandler) :
((get_progress s).2 = s /\ (get_reserved_time s).2 = s /\
 (get_available_resources s).2 = s /\ (get_available_nodes s).2 = s) /\
(_agenda s = None ->
 (get_progress s).1 = Raised AssertionError /\
 (get_reserved_time s).1 = Raised AssertionError /\
 (get_available_resources s).1 = Raised AssertionError /\
 (get_available_nodes s).1 = Raised AssertionError).
Proof.
split.
- repeat split.
  + apply read_only_get_progress.
  + apply read_only_get_reserved_time.
  + apply read_only_get_available_resources.
  + apply read_only_get_available_nodes.
- intros Ha.
  unfold get_progress, get_reserved_time, get_available_resources, get_available_nodes.
  rewrite !(bind_ok get _ s s s) by reflexivity. rewrite Ha.
  repeat split.
Qed.

Lemma views_observe_witness :
(get_progress (init true)).1 = Raised AssertionError /\
(get_reserved_time (init true)).1 = Raised AssertionError /\
(get_available_resources (init true)).1 = Raised AssertionError /\
(get_available_nodes (init true)).1 = Raised AssertionError.
Proof.
apply (proj2 (views_observe (init true))). reflexivity.
Defined.

(** X12: [on_job_submitted] on a platform of [n] resources. A job that
  asks for at most [n] resources (the bound is inclusive) is appended
  to the queue as it was submitted, and nothing is sent; a job that
  asks for more is rejected by a [REJECT_JOB] request and enters no
  cohort. Either way the call returns, and the other cohorts, the jobs
  known so far, the platform and the agenda are as before. *)
Theorem on_job_submitted_queues_or_rejects (job : Job.t) (s : RJMSHandler)
  (p : Platform.t) :
platform s = Some p ->
exists s', on_job_submitted job s = (Ok tt, s') /\
  platform s' = platform s /\ _agenda s' = _agenda s /\
  Jobs.running (_jobs s') = Jobs.running (_jobs s) /\
  Jobs.ready (_jobs s') = Jobs.ready (_jobs s) /\
  completed s' = completed s /\
  store s `prefix_of` store s' /\
  if decide (Job.res job <= Platform.nb_resources p)%nat then
    requests s' = requests s /\
    exists j, Jobs.queue (_jobs s') = Jobs.queue (_jobs s) ++ [j] /\
              store s' !! j = Some job
  else
    requests s' = requests s ++ [REJECT_JOB (Job.id job)] /\
    Jobs.queue (_jobs s') = Jobs.queue (_jobs s) /\ store s' = store s.
Proof.
intros Hp. unfold on_job_submitted.
rewrite (bind_ok (on_platform (gets Platform.nb_resources)) _ s
           (Platform.nb_resources p) s) by (by apply (on_platform_read _ s p)).
destruct (decide (Platform.nb_resources p < Job.res job)%nat) as [Hlt|Hge].
- eexists. split; [reflexivity|]. rewrite decide_False by lia.
  by repeat split.
- eexists. split; [reflexivity|]. rewrite decide_True by lia.
  repeat split; try done.
  + simpl. by apply prefix_app_r.
  + exists (length (store s)). split; [done|]. simpl.
    by rewrite lookup_app_r, Nat.sub_diag by lia.
Qed.

Lemma on_job_submitted_queues_or_rejects_witness :
exists s', on_job_submitted Sample.submitted_job (Sample.finishing false) = (Ok tt, s') /\
  platform s' = platform (Sample.finishing false) /\
  _agenda s' = _agenda (Sample.finishing false) /\
  Jobs.running (_jobs s') = Jobs.running (_jobs (Sample.finishing false)) /\
  Jobs.ready (_jobs s') = Jobs.ready (_jobs (Sample.finishing false)) /\
  completed s' = completed (Sample.finishing false) /\
  store (Sample.finishing false) `prefix_of` store s' /\
  if decide (Job.res Sample.submitted_job
             <= Platform.nb_resources (Sample.platform IDLE IDLE))%nat then
    requests s' = requests (Sample.finishing false) /\
    exists j, Jobs.queue (_jobs s') = Jobs.queue (_jobs (Sample.finishing false)) ++ [j] /\
              store s' !! j = Some Sample.submitted_job
  else
    requests s' = requests (Sample.finishing false)
                    ++ [REJECT_JOB (Job.id Sample.submitted_job)] /\
    Jobs.queue (_jobs s') = Jobs.queue (_jobs (Sample.finishing false)) /\
    store s' = store (Sample.finishing false).
Proof.
apply (on_job_submitted_queues_or_rejects Sample.submitted_job (Sample.finishing false)
         (Sample.platform IDLE IDLE)).
reflexivity.
Defined.

End HandlerFacts.

(* ===================================================================== *)
(** * The completion of a job *)
(* ===================================================================== *)

Module CompletionFacts.
Import AgendaSpec StartSpec HandlerViews.

Lemma release_on_platform s p r o :
platform s = Some p -> Platform.resources p !! r = Some o ->
Resource.state o = IDLE \/ Resource.state o = COMPUTING ->
on_platform (Platform.on_resource r Resource.release) s
  = (Ok tt, set_platform (Some (mark_idle [r] p)) s).
Proof.
intros Hp Ho Hst. unfold on_platform. rewrite Hp. unfold Platform.on_resource.
erewrite bind_ok by (by apply resource_ok).
assert (Resource.release o = (Ok tt, Resource.set_state IDLE o)) as ->.
{ unfold Resource.release, bind, get. by destruct Hst as [-> | ->]. }
unfold bind, modify, ret. do 3 f_equal. unfold mark_idle. f_equal. simpl.
apply map_eq. intros i. rewrite lookup_alter, lookup_insert.
destruct (decide (r = i)) as [->|]; [by rewrite Ho | done].
Qed.

Lemma release_on_agenda s a r :
_agenda s = Some a -> known a r ->
on_agenda (Agenda.release [r]) s = (Ok tt, set_agenda (Some (assign_all None [r] a)) s).
Proof.
intros Ha Hk. unfold on_agenda. rewrite Ha. unfold Agenda.release.
rewrite AgendaFacts.for_setitem; [done|]. by constructor.
Qed.

(** The loop of [on_job_completed] over the resources of the job. *)
Lemma release_all allocation s p a :
platform s = Some p -> _agenda s = Some a ->
spec_ready p allocation -> Forall (known a) allocation ->
for_ allocation (fun r =>
  on_platform (Platform.on_resource r Resource.release) >>
  on_agenda (Agenda.release [r])) s
= (Ok tt, set_agenda (Some (assign_all None allocation a))
            (set_platform (Some (mark_idle allocation p)) s)).
Proof.
revert s p a. induction allocation as [|r rest IH]; intros s p a Hp Ha Hready Hknown.
- simpl. destruct s, p, a. simpl in *. by subst.
- inversion Hready as [|? ? Hr Hrest]; subst.
  inversion Hknown as [|? ? Hk Hks]; subst.
  assert (exists o, Platform.resources p !! r = Some o /\
            (Resource.state o = IDLE \/ Resource.state o = COMPUTING))
    as (o & Ho & Hst).
  { destruct Hr as [Hr|Hr]; apply StartFacts.resource_state_Some in Hr as (o & ? & ?);
      eauto. }
  cbn [for_].
  rewrite (bind_ok _ _ s tt
             (set_agenda (Some (assign_all None [r] a))
                (set_platform (Some (mark_idle [r] p)) s))).
  2:{ erewrite bind_ok by (by eapply release_on_platform).
      apply release_on_agenda; [by destruct s|done]. }
  rewrite (IH _ (mark_idle [r] p) (assign_all None [r] a)).
  + destruct s; reflexivity.
  + by destruct s.
  + by destruct s.
  + eapply Forall_impl; [exact Hrest|]. intros i Hi. unfold resource_state, mark_idle.
    simpl. rewrite lookup_alter. destruct (decide (r = i)) as [->|]; [|done].
    rewrite Ho. simpl. by left.
  + eapply Forall_impl; [exact Hks|]. intros i. apply AgendaFacts.known_assign_all.
Qed.

Lemma mark_idle_state allocation p r :
spec_ready p allocation ->
resource_state (mark_idle allocation p) r =
  if decide (r ∈ allocation) then Some IDLE else resource_state p r.
Proof.
unfold resource_state, mark_idle. simpl. destruct p as [nodes resources]. simpl.
revert resources. induction allocation as [|x rest IH]; intros resources Hready;
  cbn [foldl].
- case_decide as H; [by apply elem_of_nil in H | done].
- inversion Hready as [|? ? Hx Hrest]; subst. simpl in *.
  rewrite IH.
  + destruct (decide (r ∈ rest)) as [Hin|Hnin].
    * rewrite decide_True; [done | by right].
    * destruct (decide (r = x)) as [->|Hne].
      -- rewrite decide_True by (by left). rewrite lookup_alter_eq.
         destruct Hx as [Hx|Hx]; unfold resource_state in Hx; simpl in Hx;
           by destruct (resources !! x).
      -- rewrite decide_False by (rewrite elem_of_cons; by intros [|]).
         by rewrite lookup_alter_ne.
  + eapply Forall_impl; [exact Hrest|]. intros i Hi.
    unfold resource_state in *. simpl in *. rewrite lookup_alter.
    destruct (decide (x = i)) as [->|]; [|done].
    destruct Hx as [Hx|Hx]; destruct (resources !! i); simpl in *; try done; by left.
Qed.

(** X13: [on_job_completed] for a running job whose resources are idle
  or computing and belong to the agenda. The call returns; the job
  leaves the running cohort, is terminated at the current time with
  the state of the event and is appended to the completed cohort; each
  resource of its allocation is idle and free afterwards; no other
  resource, no other cohort and no request is touched. *)
Theorem on_job_completed_releases (s : RJMSHandler) (job_id : string)
  (job_state : JobState) (job : ref) (o : Job.t) (allocation : list nat)
  (p : Platform.t) (a : Agenda.t) :
Jobs.running (_jobs s) !! job_id = Some job ->
store s !! job = Some o -> Job.allocation o = Some allocation ->
platform s = Some p -> _agenda s = Some a ->
spec_ready p allocation -> Forall (known a) allocation ->
exists s', on_job_completed job_id job_state s = (Ok tt, s') /\
  Jobs.running (_jobs s') = delete job_id (Jobs.running (_jobs s)) /\
  completed s' = completed s ++ [job] /\
  store s' = <[job := Job.terminate (current_time s) job_state o]> (store s) /\
  (forall r, state_of s' r = if decide (r ∈ allocation) then Some IDLE
                             else state_of s r) /\
  (forall r, reservation_of s' r = if decide (r ∈ allocation) then Some None
                                   else reservation_of s r) /\
  Jobs.queue (_jobs s') = Jobs.queue (_jobs s) /\
  Jobs.ready (_jobs s') = Jobs.ready (_jobs s) /\
  simulator s' = simulator s.
Proof.
intros Hrun Ho Hal Hp Ha Hready Hknown.
set (s1 := set_running (delete job_id (Jobs.running (_jobs s))) s).
set (o' := Job.terminate (current_time s) job_state o).
set (s2 := set_store (<[job := o']> (store s1)) s1).
eexists. split.
- unfold on_job_completed.
  rewrite (bind_ok (pop_running job_id) _ s job s1).
  2:{ unfold pop_running. rewrite (bind_ok get _ s s s) by reflexivity.
      rewrite Hrun. reflexivity. }
  rewrite (bind_ok (gets current_time) _ s1 (current_time s) s1) by reflexivity.
  rewrite (bind_ok (on_job job _) _ s1 tt s2) by (by apply on_job_ok).
  rewrite (bind_ok (release_resources job) _ s2 tt
             (set_agenda (Some (assign_all None allocation a))
                (set_platform (Some (mark_idle allocation p)) s2))).
  + reflexivity.
  + unfold release_resources.
    rewrite (bind_ok (job_of job) _ s2 o' s2).
    2:{ apply job_of_ok. unfold s2. simpl.
        apply list_lookup_insert_eq. by eapply lookup_lt_Some. }
    rewrite (bind_ok (on_platform _) _ s2 allocation s2).
    2:{ apply (on_platform_read _ s2 p); [done|]. simpl. rewrite Hal.
        apply get_resources_ok. eapply Forall_impl; [exact Hready|].
        intros r Hr. unfold resource_state in Hr.
        destruct (Platform.resources p !! r); [eauto | by destruct Hr]. }
    by apply release_all.
- simpl. repeat split; try done.
  + intros r. unfold state_of. simpl. rewrite Hp. simpl.
    change (Resource.state <$> Platform.resources ?q !! r) with (resource_state q r).
    by apply mark_idle_state.
  + intros r. unfold reservation_of. simpl. rewrite Ha. simpl.
    change (Agenda.reservations ?b !! r) with (reservation b r).
    apply AgendaFacts.reservation_assign_all.
Qed.

Lemma on_job_completed_releases_witness :
exists s', on_job_completed "w!0" COMPLETED_SUCCESSFULLY Sample.two_running = (Ok tt, s') /\
  Jobs.running (_jobs s') = delete "w!0" (Jobs.running (_jobs Sample.two_running)) /\
  completed s' = completed Sample.two_running ++ [0%nat] /\
  store s' = <[0%nat := Job.terminate (current_time Sample.two_running)
                          COMPLETED_SUCCESSFULLY Sample.running_job]>
               (store Sample.two_running) /\
  (forall r, state_of s' r = if decide (r ∈ [0%nat]) then Some IDLE
                             else state_of Sample.two_running r) /\
  (forall r, reservation_of s' r = if decide (r ∈ [0%nat]) then Some None
                                   else reservation_of Sample.two_running r) /\
  Jobs.queue (_jobs s') = Jobs.queue (_jobs Sample.two_running) /\
  Jobs.ready (_jobs s') = Jobs.ready (_jobs Sample.two_running) /\
  simulator s' = simulator Sample.two_running.
Proof.
apply (on_job_completed_releases Sample.two_running "w!0" COMPLETED_SUCCESSFULLY
         0%nat Sample.running_job [0%nat] (Sample.platform COMPUTING COMPUTING)
         (Agenda.mk (<[0%nat := Some 0%nat]> (<[1%nat := Some 1%nat]> ∅)))).
- reflexivity.
- reflexivity.
- reflexivity.
- reflexivity.
- reflexivity.
- constructor; [by right | constructor].
- constructor; [|constructor]. exists (Some 0%nat). reflexivity.
Defined.

(** X14: [on_job_completed] for a job id that is not running raises
  [KeyError] and leaves the handler as it was. *)
Theorem on_job_completed_unknown (s : RJMSHandler) (job_id : string)
  (job_state : JobState) :
Jobs.running (_jobs s) !! job_id = None ->
on_job_completed job_id job_state s = (Raised KeyError, s).
Proof.
intros Hrun. unfold on_job_completed, pop_running.
unfold bind at 1. unfold bind at 1. unfold get. unfold bind at 1.
by rewrite Hrun.
Qed.

Lemma on_job_completed_unknown_witness :
on_job_completed "w!7" COMPLETED_SUCCESSFULLY Sample.two_running
  = (Raised KeyError, Sample.two_running).
Proof.
apply (on_job_completed_unknown Sample.two_running "w!7" COMPLETED_SUCCESSFULLY).
reflexivity.
Defined.

End CompletionFacts.

(* ===================================================================== *)
(** * Allocation: what a successful call does *)
(* ===================================================================== *)

Module AllocationFacts.
Import AgendaSpec AllocateSpec HandlerViews.

Lemma find_first {A} (f : A -> bool) pre x post :
Forall (fun y => f y = false) pre -> f x = true ->
find f (pre ++ x :: post) = Some x.
Proof.
induction 1 as [|y pre Hy _ IH]; intros Hx; simpl.
- by rewrite Hx.
- rewrite Hy. by apply IH.
Qed.

Lemma list_remove_first (x : ref) pre post :
x ∉ pre -> list_remove x (pre ++ x :: post) = Some (pre ++ post).
Proof.
induction pre as [|y pre IH]; intros Hn; simpl.
- by rewrite decide_True.
- apply not_elem_of_cons in Hn as [Hne Hn].
  rewrite decide_False by done. by rewrite IH.
Qed.

Lemma dispatch_quiet job s o :
store s !! job = Some o ->
(forall call now j, call ∈ _callbacks s -> call now j = None) ->
_dispatch job s = (Ok tt, s).
Proof.
intros Ho Hq. unfold _dispatch. rewrite (bind_ok get _ s s s) by reflexivity.
induction (_callbacks s) as [|call calls IH]; [done|]. cbn [for_].
rewrite (bind_ok _ _ s tt s).
- apply IH. intros c now j Hc. apply Hq. by right.
- rewrite (bind_ok (gets current_time) _ s (current_time s) s) by reflexivity.
  rewrite (bind_ok (job_of job) _ s o s) by (by apply job_of_ok).
  rewrite Hq; [done | by left].
Qed.

(** X15: [allocate] of the first queued job with the given id on
  resources that are free, as many as the job requests, when no
  subscriber raises: the call returns, the job is bound to the
  resources and runnable, each of the resources is reserved for it and
  no other reservation changes, and the job has moved from the queue
  to the end of the ready cohort. Nothing is sent to the simulator and
  no resource changes state. *)
Theorem allocate_moves_job (state_value : ResourceState -> Z) (job_id : string)
  (ids : list nat) (s : RJMSHandler) (pre post : list ref) (job : ref)
  (o : Job.t) (a : Agenda.t) :
Jobs.queue (_jobs s) = pre ++ job :: post ->
Forall (fun j => forall o', store s !! j = Some o' -> Job.id o' <> job_id) pre ->
store s !! job = Some o -> Job.id o = job_id ->
length ids = Job.res o ->
_agenda s = Some a -> Forall (free a) ids ->
(forall call now j, call ∈ _callbacks s -> call now j = None) ->
exists s', allocate state_value job_id (Some ids) s = (Ok tt, s') /\
  Jobs.queue (_jobs s') = pre ++ post /\
  Jobs.ready (_jobs s') = Jobs.ready (_jobs s) ++ [job] /\
  store s' = <[job := Job.set_allocation ids o]> (store s) /\
  (forall r, reservation_of s' r = if decide (r ∈ ids) then Some (Some job)
                                   else reservation_of s r) /\
  Jobs.running (_jobs s') = Jobs.running (_jobs s) /\
  completed s' = completed s /\
  simulator s' = simulator s /\ platform s' = platform s.
Proof.
intros Hqueue Hpre Ho Hid Hlen Ha Hfree Hquiet.
assert (Hnotin : job ∉ pre).
{ intros Hin. pose proof (proj1 (Forall_forall _ _) Hpre _ Hin _ Ho). done. }
set (s1 := bound job o ids s).
set (a' := assign_all (Some job) ids a).
set (s2 := set_agenda (Some a') s1).
eexists. split.
- unfold allocate.
  rewrite (bind_ok (find_in_queue job_id) _ s job s).
  2:{ unfold find_in_queue. rewrite (bind_ok get _ s s s) by reflexivity.
      rewrite Hqueue, (find_first _ pre job post); [done| |].
      - eapply Forall_impl; [exact Hpre|]. intros j Hj. cbv beta.
        destruct (store s !! j) as [o'|] eqn:Ej; [|done].
        apply bool_decide_eq_false. by apply Hj.
      - rewrite Ho. by apply bool_decide_eq_true. }
  rewrite (bind_ok (job_of job) _ s o s) by (by apply job_of_ok).
  rewrite bind_ret_l. rewrite decide_False by (intros Hne; by apply Hne).
  rewrite (bind_ok (on_job job _) _ s tt s1) by (by apply on_job_ok).
  rewrite (bind_ok get _ s1 s1 s1) by reflexivity.
  rewrite (bind_ok (on_agenda _) _ s1 tt s2).
  2:{ unfold on_agenda. change (_agenda s1) with (_agenda s). rewrite Ha.
      erewrite AgendaFacts.reserve_ok; [reflexivity| | |exact Hfree].
      - unfold s1, bound. simpl. apply list_lookup_insert_eq. by eapply lookup_lt_Some.
      - reflexivity. }
  rewrite (bind_ok (_dispatch job) _ s2 tt s2).
  2:{ apply (dispatch_quiet job s2 (Job.set_allocation ids o)); [|done].
      unfold s2, s1, bound. simpl. apply list_lookup_insert_eq.
      by eapply lookup_lt_Some. }
  rewrite (bind_ok get _ s2 s2 s2) by reflexivity.
  rewrite (bind_ok (remove_from job _) _ s2 (pre ++ post) s2).
  2:{ unfold remove_from. change (Jobs.queue (_jobs s2)) with (Jobs.queue (_jobs s)).
      by rewrite Hqueue, list_remove_first. }
  reflexivity.
- simpl. repeat split; try done.
  intros r. unfold reservation_of. simpl. rewrite Ha. simpl.
  change (Agenda.reservations ?b !! r) with (reservation b r).
  apply AgendaFacts.reservation_assign_all.
Qed.

Lemma allocate_moves_job_witness :
exists s', allocate Sample.state_value "w!1" (Some [1%nat]) Sample.busy = (Ok tt, s') /\
  Jobs.queue (_jobs s') = [] ++ [] /\
  Jobs.ready (_jobs s') = Jobs.ready (_jobs Sample.busy) ++ [1%nat] /\
  store s' = <[1%nat := Job.set_allocation [1%nat] Sample.queued_job]> (store Sample.busy) /\
  (forall r, reservation_of s' r = if decide (r ∈ [1%nat]) then Some (Some 1%nat)
                                   else reservation_of Sample.busy r) /\
  Jobs.running (_jobs s') = Jobs.running (_jobs Sample.busy) /\
  completed s' = completed Sample.busy /\
  simulator s' = simulator Sample.busy /\ platform s' = platform Sample.busy.
Proof.
apply (allocate_moves_job Sample.state_value "w!1" [1%nat] Sample.busy [] [] 1%nat
         Sample.queued_job
         (Agenda.mk (<[0%nat := Some 0%nat]> (<[1%nat := None]> ∅)))).
- reflexivity.
- constructor.
- reflexivity.
- reflexivity.
- reflexivity.
- reflexivity.
- constructor; [reflexivity | constructor].
- intros call now j Hc. inversion Hc.
Defined.

Section Picking.
Variable state_value : ResourceState -> Z.








End Picking.


End AllocationFacts.

(* ===================================================================== *)
(** * Stopping and advancing *)
(* ===================================================================== *)

Module StopFacts.
Import ProceedSpec HandlerViews.

(** X17: [close] stops the simulation and is idempotent. It always
  returns; afterwards the simulation is not running; [FINISH] is sent
  if and only if the simulation was running; and a second [close]
  changes nothing. Jobs, platform and agenda are not touched. *)
Theorem close_stops_once (s : RJMSHandler) :
exists s', close s = (Ok tt, s') /\
  is_running s' = false /\
  requests s' = requests s ++ (if is_running s then [FINISH] else []) /\
  close s' = (Ok tt, s') /\
  _jobs s' = _jobs s /\ store s' = store s /\
  platform s' = platform s /\ _agenda s' = _agenda s /\
  current_time s' = current_time s.
Proof.
unfold close. destruct (is_running s) eqn:Hr.
- rewrite (bind_ok (gets is_running) _ s true s) by (unfold gets; by rewrite Hr).
  eexists. split; [reflexivity|]. by repeat split.
- rewrite (bind_ok (gets is_running) _ s false s) by (unfold gets; by rewrite Hr).
  exists s. repeat split; try done.
  + unfold requests. by rewrite app_nil_r.
  + by rewrite (bind_ok (gets is_running) _ s false s) by (unfold gets; by rewrite Hr).
Qed.

(** X18: [on_requested_call] never advances the simulation. Whatever
  the loop of [check_end_of_simulation] would do, the handler returns
  without entering it: when the simulation time is due and the
  simulation is running it sends [FINISH] and stops the simulation, and
  in every other case it leaves the handler as it was. *)
Theorem on_requested_call_stops_or_skips (loop : M RJMSHandler unit)
  (s : RJMSHandler) :
exists s', on_requested_call loop s = (Ok tt, s') /\
  (if due s && is_running s
   then is_running s' = false /\ requests s' = requests s ++ [FINISH] /\
        current_time s' = current_time s
   else s' = s) /\
  _jobs s' = _jobs s /\ store s' = store s /\
  platform s' = platform s /\ _agenda s' = _agenda s.
Proof.
rewrite (DrainFacts.on_requested_call_loop_irrelevant loop (ret tt)).
unfold on_requested_call, due. rewrite (bind_ok get _ s s s) by reflexivity.
destruct (simulation_time s) as [t|]; [|by exists s].
destruct (negb (falsy t) && (t <=? current_time s)); [|by exists s].
cbn [andb]. destruct (is_running s) eqn:Hr.
- eexists. split; [reflexivity|]. by repeat split.
- exists s. split; [|done].
  unfold check_end_of_simulation. rewrite (bind_ok get _ s s s) by reflexivity.
  by destruct (end_of_simulation s).
Qed.

Lemma assert_inv {S} (b : bool) (s s' : S) u :
assert b s = (Ok u, s') -> b = true /\ s' = s.
Proof. destruct b; [by intros [= _ <-] | done]. Qed.

Lemma proceed_until_post until stream s rest s' :
proceed_until until stream s = (Ok rest, s') ->
(is_running s' = false \/ (current_time s' <? until) = false) /\
exists consumed, stream = consumed ++ rest.
Proof.
revert s. induction stream as [|b stream IH]; intros s; cbn [proceed_until];
  rewrite (bind_ok get _ s s s) by reflexivity;
  destruct (is_running s && (current_time s <? until)) eqn:Hc.
- done.
- intros [= <- <-]. split; [|by exists []].
  apply andb_false_iff in Hc as [Hc|Hc]; [by left|].
  by right.
- intros H. apply bind_inv_ok in H as ([] & s1 & Hb & H).
  destruct (IH _ H) as (Hpost & consumed & ->). split; [done|].
  by exists (b :: consumed).
- intros [= <- <-]. split; [|by exists []].
  apply andb_false_iff in Hc as [Hc|Hc]; [by left|].
  by right.
Qed.

Lemma delivers_stopped_at s consumed s' : delivers s consumed s' -> is_running s' = false.
Proof. by induction 1. Qed.

(** X19: what [proceed_time] has reached when it returns from a call
  with a positive [until]: the simulation has stopped or the clock
  is at [until] or beyond (the test [current_time < until] is false);
  the wake-up call for [until + 0.001] has
  been sent; and the events that are left are a suffix of those that
  were to come. *)
Theorem proceed_time_reaches (until : float) (stream rest : list Batch)
  (s s' : RJMSHandler) :
(0 <? until) = true ->
proceed_time until stream s = (Ok rest, s') ->
(is_running s' = false \/ (current_time s' <? until) = false) /\
CALL_ME_LATER (until + 0.001) ∈ requests s' /\
exists consumed, stream = consumed ++ rest.
Proof.
intros Hpos H. unfold proceed_time in H.
apply bind_inv_ok in H as (running & s0 & Hrun & H). injection Hrun as <- <-.
apply bind_inv_ok in H as ([] & s0 & Has & H).
apply assert_inv in Has as [_ ->].
apply bind_inv_ok in H as ([] & s1 & Hsweep & H).
apply bind_inv_ok in H as (stream1 & s2 & Hadv & H).
unfold advance in Hadv. rewrite Hpos in Hadv.
apply bind_inv_ok in Hadv as (now & s3 & Hnow & Hadv). injection Hnow as <- <-.
apply bind_inv_ok in Hadv as ([] & s3 & Has2 & Hadv).
apply assert_inv in Has2 as [_ ->].
apply bind_inv_ok in Hadv as ([] & s4 & Hsend & Hadv).
set (x := CALL_ME_LATER (until + 0.001)) in *.
assert (Hsent : x ∈ requests s4).
{ injection Hsend as <-. unfold requests. simpl. apply elem_of_app. right. by left. }
destruct (proceed_until_post _ _ _ _ _ Hadv) as (Hpost & consumed & ->).
assert (Hsent2 : x ∈ requests s2).
{ pose proof (LastingFacts.lasting_proceed_until false 0%nat x until
                (consumed ++ stream1) s4) as [_ Hk].
  rewrite Hadv in Hk. by apply Hk. }
rewrite (bind_ok get _ s2 s2 s2) in H by reflexivity.
destruct (use_batsim s2).
- unfold check_end_of_simulation in H. rewrite (bind_ok get _ s2 s2 s2) in H by reflexivity.
  destruct (end_of_simulation s2).
  + pose proof (LastingFacts.lasting_drain false 0%nat x stream1 s2) as [_ Hk].
    rewrite H in Hk. apply DrainFacts.drain_inv in H as (consumed2 & -> & Hd).
    split; [left; by eapply delivers_stopped_at|]. split; [by apply Hk|].
    exists (consumed ++ consumed2). by rewrite app_assoc.
  + injection H as <- <-. split; [done|]. split; [done|]. by exists consumed.
- injection H as <- <-. split; [done|]. split; [done|]. by exists consumed.
Qed.

Lemma proceed_time_reaches_witness :
(is_running (proceed_time 15 Sample.last_batches (Sample.finishing false)).2 = false \/
 (current_time (proceed_time 15 Sample.last_batches (Sample.finishing false)).2 <? 15)
   = false) /\
CALL_ME_LATER (15 + 0.001)
  ∈ requests (proceed_time 15 Sample.last_batches (Sample.finishing false)).2 /\
exists consumed,
  Sample.last_batches = consumed ++ [mkBatch 30 [SIMULATION_ENDS]; mkBatch 40 []].
Proof.
apply (proceed_time_reaches 15 Sample.last_batches
         [mkBatch 30 [SIMULATION_ENDS]; mkBatch 40 []]
         (Sample.finishing false)
         (proceed_time 15 Sample.last_batches (Sample.finishing false)).2).
- reflexivity.
- vm_compute. reflexivity.
Defined.

End StopFacts.

(* ===================================================================== *)
(** * Invariants of the handler *)
(* ===================================================================== *)

Module InvariantFacts.
Import HandlerViews.

Global Instance grows_preorder : PreOrder grows.
Proof.
split.
- intros s. by split.
- intros s1 s2 s3 [H1 K1] [H2 K2]. split; by etrans.
Qed.

Lemma grows_same s s' :
requests s' = requests s -> completed s' = completed s -> grows s s'.
Proof. intros E1 E2. unfold grows. by rewrite E1, E2. Qed.

Lemma grows_keeps {A} (c : M RJMSHandler A) :
keeps (fun s => (requests s, completed s)) c -> preserves grows c.
Proof. intros H s. specialize (H s). injection H as H1 H2. by apply grows_same. Qed.

Lemma grows_send r : preserves grows (on_simulator (Simulator.send r)).
Proof. intros s. split; [|done]. unfold requests. simpl. by apply prefix_app_r. Qed.

Lemma grows_finish : preserves grows (on_simulator Simulator.finish).
Proof. intros s. split; [|done]. unfold requests. simpl. by apply prefix_app_r. Qed.

Ltac grows_leaf :=
first
  [ apply grows_send | apply grows_finish
  | apply grows_keeps; solve [keeps_tac]
  | apply preserves_modify; [apply _ | intros ?; by apply grows_same] ].

Ltac grows_step :=
first
  [ grows_leaf
  | apply preserves_bind; [apply _ | | intros ?]
  | apply preserves_if
  | apply preserves_for_all; [apply _ | intros ?]
  | match goal with |- preserves _ (match ?x with _ => _ end) => destruct x end ].

Ltac grows_tac := repeat grows_step.

Lemma grows_turn_on node_ids : preserves grows (turn_on node_ids).
Proof.
unfold turn_on. apply preserves_bind; [apply _ | |].
- apply grows_keeps. by apply turn_on_nodes_keeps.
- intros groups. apply preserves_for_all; [apply _|]. intros [ps ids]. apply grows_send.
Qed.

Lemma grows_initiate_resources resources : preserves grows (initiate_resources resources).
Proof.
unfold initiate_resources. generalize true, (∅ : gset nat).
induction resources as [|r rest IH]; intros ready visited; simpl.
- grows_tac.
- apply preserves_bind; [apply _ | grows_tac |]. intros o.
  apply preserves_if; [|apply IH].
  apply preserves_bind; [apply _ | | intros _; apply IH].
  apply preserves_if; [apply grows_turn_on | grows_tac].
Qed.

Lemma grows_start_if_ready j : preserves grows (start_if_ready j).
Proof.
unfold start_if_ready.
apply preserves_bind; [apply _ | grows_tac |]. intros o.
apply preserves_bind; [apply _ | grows_tac |]. intros resources.
apply preserves_bind; [apply _ | apply grows_initiate_resources |].
intros [|]; [|grows_tac].
apply preserves_bind; [apply _ | grows_tac |]. intros _.
apply preserves_bind; [apply _ | grows_tac |]. intros now.
apply preserves_bind; [apply _ | grows_tac |]. intros _.
apply preserves_bind; [apply _ | grows_tac |]. intros o'.
apply preserves_bind; [apply _ | apply grows_send |]. intros _.
apply preserves_bind; [apply _ | grows_tac |]. intros s0.
apply preserves_bind; [apply _ | unfold remove_from; grows_tac |]. intros ready'.
apply preserves_bind; [apply _ | grows_tac |]. intros _.
apply preserves_bind; [apply _ | grows_tac |]. intros o''.
grows_tac.
Qed.

Lemma grows_start_ready_jobs : preserves grows start_ready_jobs.
Proof.
unfold start_ready_jobs. apply preserves_bind; [apply _ | grows_tac |]. intros s.
apply preserves_for_all; [apply _|]. apply grows_start_if_ready.
Qed.

Lemma grows_release_resources j : preserves grows (release_resources j).
Proof. apply grows_keeps. unfold release_resources. keeps_tac. Qed.

Lemma grows_on_job_completed job_id job_state :
preserves grows (on_job_completed job_id job_state).
Proof.
unfold on_job_completed.
apply preserves_bind; [apply _ | apply grows_keeps; unfold pop_running; keeps_tac |].
intros j. apply preserves_bind; [apply _ | grows_tac |]. intros now.
apply preserves_bind; [apply _ | grows_tac |]. intros _.
apply preserves_bind; [apply _ | apply grows_release_resources |]. intros _.
apply preserves_modify. intros s. split; [done|].
unfold completed. simpl. by apply prefix_app_r.
Qed.

Lemma grows_close : preserves grows close.
Proof.
unfold close. apply preserves_bind; [apply _ | grows_tac |].
intros [|]; [apply grows_finish | grows_tac].
Qed.

Lemma grows_handle e : preserves grows (handle (ret tt) e).
Proof.
destruct e; simpl.
- unfold on_simulation_begins. grows_tac.
- grows_tac.
- unfold on_job_submitted. apply preserves_bind; [apply _ | grows_tac |]. intros nb.
  case_decide; [apply grows_send | grows_tac].
- apply preserves_bind; [apply _ | apply grows_on_job_completed |].
  intros _. apply grows_start_ready_jobs.
- apply preserves_bind; [apply _ | |intros _; apply grows_start_ready_jobs].
  apply grows_keeps. unfold on_job_killed, pop_running, release_resources. keeps_tac.
- apply preserves_bind; [apply _ | |intros _; apply grows_start_ready_jobs].
  apply grows_keeps. unfold on_resource_power_state_changed. keeps_tac.
- unfold on_requested_call. apply preserves_bind; [apply _ | grows_tac |]. intros s.
  destruct (simulation_time s); [|grows_tac].
  apply preserves_if; [|grows_tac]. apply preserves_if; [apply grows_finish|].
  unfold check_end_of_simulation. grows_tac.
- destruct type; simpl; [grows_tac | grows_tac | apply grows_close].
Qed.

Lemma grows_receive b : preserves grows (receive b).
Proof.
unfold receive, deliver. apply preserves_bind; [apply _ | grows_tac |].
intros _. apply preserves_for_all; [apply _|]. apply grows_handle.
Qed.

Lemma grows_drain stream : preserves grows (drain stream).
Proof.
induction stream as [|b rest IH]; simpl.
- grows_tac.
- apply preserves_bind; [apply _ | grows_tac |].
  intros [|]; [|grows_tac].
  apply preserves_bind; [apply _ | apply grows_receive | intros _; exact IH].
Qed.

Lemma grows_proceed_until until stream : preserves grows (proceed_until until stream).
Proof.
induction stream as [|b rest IH]; simpl.
- grows_tac.
- apply preserves_bind; [apply _ | grows_tac |]. intros s.
  apply preserves_if; [|grows_tac].
  apply preserves_bind; [apply _ | apply grows_receive | intros _; exact IH].
Qed.

Lemma grows_proceed_time until stream : preserves grows (proceed_time until stream).
Proof.
unfold proceed_time.
apply preserves_bind; [apply _ | grows_tac |]. intros running.
apply preserves_bind; [apply _ | grows_tac |]. intros _.
apply preserves_bind; [apply _ | apply grows_start_ready_jobs |]. intros _.
apply preserves_bind; [apply _ | |].
- unfold advance. apply preserves_if.
  + apply preserves_bind; [apply _ | grows_tac |]. intros now.
    apply preserves_bind; [apply _ | grows_tac |]. intros _.
    apply preserves_bind; [apply _ | apply grows_send |]. intros _.
    apply grows_proceed_until.
  + destruct stream as [|b rest]; simpl; [grows_tac|].
    apply preserves_bind; [apply _ | apply grows_receive | intros _; grows_tac].
- intros stream1. apply preserves_bind; [apply _ | grows_tac |]. intros s.
  apply preserves_if; [|grows_tac].
  unfold check_end_of_simulation. apply preserves_bind; [apply _ | grows_tac |].
  intros s'. apply preserves_if; [apply grows_drain | grows_tac].
Qed.

Lemma grows_allocate state_value job_id resource_ids :
preserves grows (allocate state_value job_id resource_ids).
Proof.
apply grows_keeps. unfold allocate, find_in_queue, pick_resources, _dispatch, remove_from.
keeps_tac.
Qed.

(** X20: nothing that was sent or completed is taken back. Through
  [proceed_time], [allocate], [turn_on] and [close], whatever their
  outcome, the requests sent to the simulator and the completed cohort
  only grow at their ends. *)
Theorem requests_and_completed_grow (s : RJMSHandler) :
(forall until stream, grows s (proceed_time until stream s).2) /\
(forall state_value job_id resource_ids,
   grows s (allocate state_value job_id resource_ids s).2) /\
(forall node_ids, grows s (turn_on node_ids s).2) /\
grows s (close s).2.
Proof.
split; [|split; [|split]].
- intros until stream. apply grows_proceed_time.
- intros state_value job_id resource_ids. apply grows_allocate.
- intros node_ids. apply grows_turn_on.
- apply grows_close.
Qed.

End InvariantFacts.

Module AlignedFacts.
Import HandlerViews.

Global Instance stays_aligned_preorder : PreOrder stays_aligned.
Proof.
split.
- by intros s H.
- intros s1 s2 s3 H1 H2 H. by apply H2, H1.
Qed.

Lemma aligned_sets s :
aligned s <->
forall r, (exists X, (resource_sets s).2 = Some X /\ r ∈ X) <->
          (exists X, (resource_sets s).1 = Some X /\ r ∈ X).
Proof.
unfold aligned, resource_sets, reservation_of, state_of. simpl.
apply forall_proper. intros r.
assert (is_Some (a ← _agenda s; Agenda.reservations a !! r) <->
        exists X, (fun a => dom (Agenda.reservations a)) <$> _agenda s = Some X /\ r ∈ X)
  as ->.
{ destruct (_agenda s) as [a|]; simpl.
  - rewrite <- elem_of_dom. split; [eauto | by intros (X & [= <-] & H)].
  - split; [by intros [? ?] | by intros (X & ? & _)]. }
assert (is_Some (p ← platform s; Resource.state <$> Platform.resources p !! r) <->
        exists X, (fun p => dom (Platform.resources p)) <$> platform s = Some X /\ r ∈ X)
  as ->; [|done].
destruct (platform s) as [p|]; simpl.
- rewrite fmap_is_Some, <- elem_of_dom. split; [eauto | by intros (X & [= <-] & H)].
- split; [by intros [? ?] | by intros (X & ? & _)].
Qed.

Lemma aligned_keeps {A} (c : M RJMSHandler A) :
keeps resource_sets c -> preserves stays_aligned c.
Proof.
intros H s Hs. apply aligned_sets. pose proof (proj1 (aligned_sets s) Hs) as Hs'.
intros r. rewrite (H s). apply Hs'.
Qed.

(** The methods of the platform and of the agenda keep their
  resources. *)
Lemma keeps_dom_on_resource {A} r (method : M Resource.t A) :
keeps (fun p => dom (Platform.resources p)) (Platform.on_resource r method).
Proof.
intros p. unfold Platform.on_resource, Platform.resource, bind, get, getitem.
destruct (Platform.resources p !! r) as [o|] eqn:Ho; simpl; [|done].
destruct (method o) as [[a|e|] o']; simpl; [|done|done].
apply dom_insert_lookup_L. eauto.
Qed.

Lemma keeps_dom_setitem r v :
keeps (fun a => dom (Agenda.reservations a)) (Agenda.setitem_reservation r v).
Proof.
intros a. unfold Agenda.setitem_reservation, bind, get.
destruct (Agenda.reservations a !! r) as [w|] eqn:Hr; simpl; [|done].
apply dom_insert_lookup_L. eauto.
Qed.

Ltac platform_step :=
first [ apply keeps_dom_on_resource | keeps_step ].

Ltac agenda_step :=
first [ apply keeps_dom_setitem | keeps_step ].

Lemma keeps_sets_on_platform {A} (c : M Platform.t A) :
keeps (fun p => dom (Platform.resources p)) c -> keeps resource_sets (on_platform c).
Proof.
intros H s. unfold on_platform. destruct (platform s) as [p|] eqn:Hp; [|done].
specialize (H p). destruct (c p) as [r p']. unfold resource_sets. simpl in *.
by rewrite Hp, H.
Qed.

Lemma keeps_sets_on_agenda {A} (c : M Agenda.t A) :
keeps (fun a => dom (Agenda.reservations a)) c -> keeps resource_sets (on_agenda c).
Proof.
intros H s. unfold on_agenda. destruct (_agenda s) as [a|] eqn:Ha; [|done].
specialize (H a). destruct (c a) as [r a']. unfold resource_sets. simpl in *.
by rewrite Ha, H.
Qed.

Lemma keeps_dom_get_resources ids :
keeps (fun p => dom (Platform.resources p)) (Platform.get_resources ids).
Proof. unfold Platform.get_resources. repeat platform_step. Qed.

Lemma keeps_dom_wakeup node :
keeps (fun p => dom (Platform.resources p)) (Platform.wakeup node).
Proof. unfold Platform.wakeup, Platform.resource. repeat platform_step. Qed.

Lemma keeps_dom_set_pstate r pstate :
keeps (fun p => dom (Platform.resources p)) (Platform.set_pstate r pstate).
Proof.
unfold Platform.set_pstate, Platform.resource, Platform.get_node. repeat platform_step.
Qed.

Lemma keeps_dom_reserve jobs job :
keeps (fun a => dom (Agenda.reservations a)) (Agenda.reserve jobs job).
Proof.
unfold Agenda.reserve, deref. apply keeps_bind; [repeat agenda_step|]. intros o.
apply keeps_bind; [repeat agenda_step|]. intros allocation.
apply keeps_bind.
{ intros a. by rewrite AllocateFacts.read_only_all_free. }
intros b. repeat agenda_step.
Qed.

Lemma keeps_dom_release ids :
keeps (fun a => dom (Agenda.reservations a)) (Agenda.release ids).
Proof. unfold Agenda.release. repeat agenda_step. Qed.

Ltac sets_step :=
first
  [ apply keeps_sets_on_platform;
    first [ apply keeps_dom_on_resource | apply keeps_dom_get_resources
          | apply keeps_dom_wakeup | apply keeps_dom_set_pstate
          | solve [unfold Platform.resource, Platform.get_node; repeat platform_step] ]
  | apply keeps_sets_on_agenda;
    first [ apply keeps_dom_reserve | apply keeps_dom_release
          | solve [repeat agenda_step] ]
  | keeps_step ].

Ltac sets_tac := repeat sets_step.

Lemma sets_turn_on node_ids : keeps resource_sets (turn_on node_ids).
Proof.
unfold turn_on. apply keeps_bind.
- generalize (@nil (nat * list nat)).
  induction node_ids as [|i rest IH]; intros groups; simpl; [sets_tac|].
  apply keeps_bind; [sets_tac|]. intros node.
  apply keeps_bind; [sets_tac|]. intros _.
  apply keeps_bind; [unfold next_power_state; sets_tac|]. intros ps. apply IH.
- intros groups. sets_tac.
Qed.

Lemma sets_start_ready_jobs : keeps resource_sets start_ready_jobs.
Proof.
unfold start_ready_jobs. apply keeps_bind; [sets_tac|]. intros s.
apply keeps_for. intros j. unfold start_if_ready.
apply keeps_bind; [sets_tac|]. intros o.
apply keeps_bind; [sets_tac|]. intros resources.
apply keeps_bind.
{ unfold initiate_resources. generalize true, (∅ : gset nat).
  induction resources as [|r rest IH]; intros ready visited; simpl; [sets_tac|].
  apply keeps_bind; [sets_tac|]. intros o'.
  apply keeps_if; [|apply IH].
  apply keeps_bind; [|intros _; apply IH].
  apply keeps_if; [apply sets_turn_on | sets_tac]. }
intros [|]; [|sets_tac]. unfold remove_from. sets_tac.
Qed.

Lemma aligned_on_simulation_begins p : preserves stays_aligned (on_simulation_begins p).
Proof.
intros s _. apply aligned_sets. intros r.
assert (resource_sets (on_simulation_begins p s).2 =
        (Some (dom (Platform.resources p)), Some (dom (Platform.resources p)))) as ->;
  [|done].
unfold on_simulation_begins.
cbv beta iota delta [bind modify get ret].
assert (dom (Agenda.reservations
               (Agenda.init (map fst (map_to_list (Platform.resources p)))))
        = dom (Platform.resources p)) as Hdom.
{ apply set_eq. intros i. rewrite !elem_of_dom.
  change (Agenda.reservations ?a !! i) with (AgendaSpec.reservation a i).
  rewrite BeginFacts.reservation_init.
  case_decide as Hi; apply BeginFacts.elem_of_resource_ids in Hi || idtac.
  - split; [done | eauto].
  - split; [by intros [? ?]|]. intros Hs. exfalso. apply Hi.
    by apply BeginFacts.elem_of_resource_ids. }
rewrite <- Hdom at 2.
destruct (simulation_time _) as [t|]; [destruct (falsy t)|]; reflexivity.
Qed.

Lemma aligned_handle e : preserves stays_aligned (handle (ret tt) e).
Proof.
destruct e; simpl.
- apply aligned_on_simulation_begins.
- apply aligned_keeps. sets_tac.
- apply aligned_keeps. unfold on_job_submitted. sets_tac.
- apply aligned_keeps. apply keeps_bind; [|intros _; apply sets_start_ready_jobs].
  unfold on_job_completed, pop_running, release_resources. sets_tac.
- apply aligned_keeps. apply keeps_bind; [|intros _; apply sets_start_ready_jobs].
  unfold on_job_killed, pop_running, release_resources. sets_tac.
- apply aligned_keeps. apply keeps_bind; [|intros _; apply sets_start_ready_jobs].
  unfold on_resource_power_state_changed. sets_tac.
- apply aligned_keeps. unfold on_requested_call, check_end_of_simulation. sets_tac.
- apply aligned_keeps. destruct type; simpl; unfold close; sets_tac.
Qed.

Lemma aligned_receive b : preserves stays_aligned (receive b).
Proof.
unfold receive, deliver. apply preserves_bind; [apply _ | |].
- apply aligned_keeps. sets_tac.
- intros _. apply preserves_for_all; [apply _|]. apply aligned_handle.
Qed.

Lemma aligned_proceed_simulation stream :
preserves stays_aligned (proceed_simulation stream).
Proof.
destruct stream as [|b rest]; simpl; [apply preserves_blocked; apply _|].
apply preserves_bind; [apply _ | apply aligned_receive |].
intros _. apply preserves_ret; apply _.
Qed.

Lemma aligned_drain stream : preserves stays_aligned (drain stream).
Proof.
induction stream as [|b rest IH]; simpl.
- apply aligned_keeps. sets_tac.
- apply preserves_bind; [apply _ | apply aligned_keeps; sets_tac |].
  intros [|]; [|apply preserves_ret; apply _].
  apply preserves_bind; [apply _ | apply aligned_receive | intros _; exact IH].
Qed.

Lemma aligned_proceed_until until stream :
preserves stays_aligned (proceed_until until stream).
Proof.
induction stream as [|b rest IH]; simpl.
- apply aligned_keeps. apply keeps_bind; [sets_tac|]. intros s. apply keeps_if; sets_tac.
- apply preserves_bind; [apply _ | apply aligned_keeps; sets_tac |]. intros s.
  apply preserves_if; [|apply preserves_ret; apply _].
  apply preserves_bind; [apply _ | apply aligned_receive | intros _; exact IH].
Qed.

Lemma aligned_proceed_time until stream :
preserves stays_aligned (proceed_time until stream).
Proof.
unfold proceed_time.
apply preserves_bind; [apply _ | apply aligned_keeps; sets_tac |]. intros running.
apply preserves_bind; [apply _ | apply aligned_keeps; sets_tac |]. intros _.
apply preserves_bind; [apply _ | apply aligned_keeps, sets_start_ready_jobs |].
intros _. apply preserves_bind; [apply _ | |].
- unfold advance. apply preserves_if; [|apply aligned_proceed_simulation].
  apply preserves_bind; [apply _ | apply aligned_keeps; sets_tac |]. intros now.
  apply preserves_bind; [apply _ | apply aligned_keeps; sets_tac |]. intros _.
  apply preserves_bind; [apply _ | apply aligned_keeps; sets_tac |]. intros _.
  apply aligned_proceed_until.
- intros stream1.
  apply preserves_bind; [apply _ | apply aligned_keeps; sets_tac |]. intros s.
  apply preserves_if; [|apply preserves_ret; apply _].
  unfold check_end_of_simulation.
  apply preserves_bind; [apply _ | apply aligned_keeps; sets_tac |]. intros s'.
  apply preserves_if; [apply aligned_drain | apply preserves_ret; apply _].
Qed.

Lemma aligned_start sim_time stream : preserves stays_aligned (start sim_time stream).
Proof.
unfold start.
apply preserves_bind; [apply _ | apply aligned_keeps; sets_tac |]. intros ?.
apply preserves_bind; [apply _ | apply aligned_keeps; sets_tac |]. intros ?.
apply preserves_bind; [apply _ | apply aligned_keeps; sets_tac |]. intros ?.
apply preserves_bind; [apply _ | apply aligned_keeps; sets_tac |]. intros ?.
apply preserves_bind; [apply _ | apply aligned_keeps; sets_tac |]. intros ?.
apply preserves_bind; [apply _ | apply aligned_proceed_simulation |]. intros ?.
apply aligned_keeps. sets_tac.
Qed.

Lemma sets_allocate state_value job_id resource_ids :
keeps resource_sets (allocate state_value job_id resource_ids).
Proof.
unfold allocate, find_in_queue, pick_resources, _dispatch, remove_from. sets_tac.
Qed.

(** X21: the agenda and the platform always hold the same resources.
  This is so on a new handler, and [start], [proceed_time],
  [allocate], [turn_on] and [close] keep it so, whatever the events
  that arrive and whatever the outcome of the call. *)
Theorem agenda_covers_platform (use_batsim : bool) :
aligned (init use_batsim) /\
forall s, aligned s ->
  (forall simulation_time stream, aligned (start simulation_time stream s).2) /\
  (forall until stream, aligned (proceed_time until stream s).2) /\
  (forall state_value job_id resource_ids,
     aligned (allocate state_value job_id resource_ids s).2) /\
  (forall node_ids, aligned (turn_on node_ids s).2) /\
  aligned (close s).2.
Proof.
split.
- intros r. unfold reservation_of, state_of. simpl. split; by intros [? ?].
- intros s Hs. repeat split.
all: first
  [ by apply aligned_start | by apply aligned_proceed_time
  | by apply (aligned_keeps _ (sets_allocate _ _ _))
  | by apply (aligned_keeps _ (sets_turn_on _))
  | apply (aligned_keeps close); [unfold close; sets_tac | done] ].
Qed.

Lemma agenda_covers_platform_witness :
aligned (init false) /\
(forall simulation_time stream, aligned (start simulation_time stream (init false)).2) /\
(forall until stream, aligned (proceed_time until stream (init false)).2) /\
(forall state_value job_id resource_ids,
   aligned (allocate state_value job_id resource_ids (init false)).2) /\
(forall node_ids, aligned (turn_on node_ids (init false)).2) /\
aligned (close (init false)).2.
Proof.
split.
- exact (proj1 (agenda_covers_platform false)).
- apply (proj2 (agenda_covers_platform false) (init false)).
  intros r. unfold reservation_of, state_of. simpl. split; by intros [? ?].
Defined.

End AlignedFacts.

(* ===================================================================== *)
(** * Power control, the sweep and the subscribers *)
(* ===================================================================== *)

Module ControlFacts.
Import HandlerViews PowerSpec.

Lemma extend_group_keys ps ids groups :
(extend_group ps ids groups).*1 =
  if decide (ps ∈ groups.*1) then groups.*1 else groups.*1 ++ [ps].
Proof.
induction groups as [|[k v] groups IH]; cbn [extend_group].
- case_decide as H; [by apply elem_of_nil in H | done].
- destruct (decide (k = ps)) as [->|Hne]; rewrite !fmap_cons; cbn [fst].
  + rewrite decide_True; [done | by left].
  + rewrite IH. destruct (decide (ps ∈ groups.*1)) as [Hin|Hnin].
    * rewrite decide_True; [done | by right].
    * rewrite decide_False; [done|]. rewrite elem_of_cons. by intros [|].
Qed.

Lemma extend_group_NoDup ps ids groups :
NoDup (groups.*1) -> NoDup ((extend_group ps ids groups).*1).
Proof.
intros H. rewrite extend_group_keys. case_decide as Hin; [done|].
apply NoDup_app. split; [done|]. split; [|apply NoDup_singleton].
intros x Hx Hx'. apply list_elem_of_singleton in Hx'. by subst.
Qed.

Lemma turn_on_nodes_NoDup node_ids groups s groups' s' :
NoDup (groups.*1) ->
turn_on_nodes node_ids groups s = (Ok groups', s') -> NoDup (groups'.*1).
Proof.
revert groups s. induction node_ids as [|i rest IH]; intros groups s Hnd H.
- by injection H as <- <-.
- cbn [turn_on_nodes] in H.
  apply bind_inv_ok in H as (node & s1 & _ & H).
  apply bind_inv_ok in H as ([] & s2 & _ & H).
  apply bind_inv_ok in H as (ps & s3 & _ & H).
  eapply IH; [|exact H]. by apply extend_group_NoDup.
Qed.

Lemma send_groups (groups : list (nat * list nat)) s :
for_ groups (fun '(ps_id, resources_ids) =>
  on_simulator (Simulator.set_resources_pstate resources_ids ps_id)) s
= (Ok tt,
   set_simulator
     (Simulator.mk (is_running s) (current_time s)
        (requests s ++ ((fun g => SET_RESOURCES_PSTATE g.2 g.1) <$> groups))) s).
Proof.
revert s. induction groups as [|[ps ids] groups IH]; intros s.
- simpl. unfold requests. rewrite app_nil_r. by destruct s as [? [] ? ? ? ? ? ? ?].
- cbn [for_]. unfold bind at 1. simpl. rewrite IH. unfold requests. simpl.
  by rewrite <- app_assoc.
Qed.


Lemma resources_under_cons t node nodes ps :
resources_under t (node :: nodes) ps =
  (if decide (power_state_id t node = Some ps) then Node.resources node else [])
  ++ resources_under t nodes ps.
Proof.
unfold resources_under. rewrite filter_cons.
destruct (decide (power_state_id t node = Some ps)); [|done].
by rewrite fmap_cons.
Qed.

Lemma extend_group_in ps ids (acc : list (nat * list nat)) :
ps ∈ acc.*1 -> NoDup (acc.*1) ->
extend_group ps ids acc =
  (fun g => (g.1, g.2 ++ if decide (g.1 = ps) then ids else [])) <$> acc.
Proof.
induction acc as [|[k v] acc IH]; intros Hin Hnd; [by apply elem_of_nil in Hin|].
rewrite fmap_cons in Hin, Hnd. cbn [fst] in Hin, Hnd.
apply NoDup_cons in Hnd as [Hk Hnd].
cbn [extend_group]. rewrite fmap_cons. cbn [fst snd].
destruct (decide (k = ps)) as [->|Hne].
- f_equal. clear IH Hin.
  induction acc as [|[k' v'] acc IH]; [done|].
  rewrite fmap_cons in Hk, Hnd. cbn [fst] in Hk, Hnd.
  apply not_elem_of_cons in Hk as [Hne Hk]. apply NoDup_cons in Hnd as [_ Hnd].
  rewrite fmap_cons. cbn [fst snd]. rewrite decide_False by done.
  rewrite app_nil_r. f_equal. by apply IH.
- rewrite app_nil_r. f_equal. apply IH; [|done].
  apply elem_of_cons in Hin as [?|?]; [by subst|done].
Qed.

Lemma extend_group_not_in ps ids (acc : list (nat * list nat)) :
ps ∉ acc.*1 -> extend_group ps ids acc = acc ++ [(ps, ids)].
Proof.
induction acc as [|[k v] acc IH]; intros Hnin; [done|].
rewrite fmap_cons in Hnin. cbn [fst] in Hnin.
apply not_elem_of_cons in Hnin as [Hne Hnin].
cbn [extend_group]. rewrite decide_False by done. simpl. f_equal. by apply IH.
Qed.

Lemma fmap_filter_ext {A B} (P Q : A -> Prop) `{!forall x, Decision (P x)}
  `{!forall x, Decision (Q x)} (f g : A -> B) (l : list A) :
(forall x, x ∈ l -> (P x <-> Q x)) ->
(forall x, x ∈ l -> P x -> f x = g x) ->
f <$> filter P l = g <$> filter Q l.
Proof.
induction l as [|x l IHl]; intros HPQ Hfg; [done|].
rewrite !filter_cons.
destruct (decide (P x)) as [HP|HP]; destruct (decide (Q x)) as [HQ|HQ].
- rewrite !fmap_cons. f_equal; [apply Hfg; [by left|done]|].
  apply IHl; intros; [apply HPQ|apply Hfg]; try done; by right.
- exfalso. apply HQ. apply HPQ; [by left|done].
- exfalso. apply HP. apply HPQ; [by left|done].
- apply IHl; intros; [apply HPQ|apply Hfg]; try done; by right.
Qed.

(** The loop of [turn_on] and [turn_off] on the groups, without the
  platform: from the groups [acc], node after node. *)
Lemma extend_groups_grouped t nodes pss (acc : list (nat * list nat)) :
Forall2 (fun node ps => power_state_id t node = Some ps) nodes pss ->
NoDup (acc.*1) ->
foldl (fun g x => extend_group x.2 (Node.resources x.1) g) acc (zip nodes pss) =
  ((fun g => (g.1, g.2 ++ resources_under t nodes g.1)) <$> acc) ++
  ((fun ps => (ps, resources_under t nodes ps)) <$>
     filter (fun ps => ps ∉ acc.*1) (first_occurrences (omap (power_state_id t) nodes))).
Proof.
intros H. revert acc. induction H as [|node ps nodes pss Hps _ IH]; intros acc Hnd.
- simpl. rewrite app_nil_r. induction acc as [|[k v] acc IHa]; [done|].
  rewrite fmap_cons. cbn [fst snd]. unfold resources_under at 1. simpl.
  rewrite app_nil_r. f_equal. apply IHa.
  rewrite fmap_cons in Hnd. by apply NoDup_cons in Hnd as [_ ?].
- cbn [zip_with foldl fst snd].
  assert (omap (power_state_id t) (node :: nodes)
          = ps :: omap (power_state_id t) nodes) as ->.
  { change (omap (power_state_id t) (node :: nodes))
      with (match power_state_id t node with
            | Some y => y :: omap (power_state_id t) nodes
            | None => omap (power_state_id t) nodes
            end). by rewrite Hps. }
  cbn [first_occurrences].
  destruct (decide (ps ∈ acc.*1)) as [Hin|Hnin].
  + rewrite IH by (by apply extend_group_NoDup).
    rewrite extend_group_keys, decide_True by done.
    rewrite extend_group_in by done. rewrite <- list_fmap_compose.
    rewrite filter_cons, decide_False by (by intros ?).
    f_equal.
    * apply list_fmap_ext. intros i [k v] _. simpl.
      rewrite resources_under_cons, Hps.
      destruct (decide (k = ps)) as [->|Hne].
      -- rewrite decide_True by done. by rewrite <- app_assoc.
      -- rewrite decide_False by congruence. by rewrite app_nil_r.
    * rewrite list_filter_filter.
      apply fmap_filter_ext.
      -- intros x _. split; [|tauto]. intros Hx. split; [done|]. by intros ->.
      -- intros x _ Hx. rewrite resources_under_cons, Hps.
         rewrite decide_False; [done|]. intros [= ->]. done.
  + rewrite IH by (by apply extend_group_NoDup).
    rewrite extend_group_keys, decide_False by done.
    rewrite extend_group_not_in by done.
    rewrite fmap_app, <- app_assoc. rewrite filter_cons, decide_True by done.
    f_equal.
    * apply list_fmap_ext. intros i [k v] Hi. simpl.
      rewrite resources_under_cons, Hps. rewrite decide_False; [done|].
      intros [= ->]. apply Hnin. apply list_elem_of_fmap. exists (k, v).
      split; [done|]. by eapply list_elem_of_lookup_2.
    * rewrite !fmap_cons. cbn [fst snd app fmap list_fmap].
      rewrite resources_under_cons, Hps.
      rewrite decide_True by done. f_equal.
      rewrite list_filter_filter.
      apply fmap_filter_ext.
      -- intros x _. rewrite elem_of_app, list_elem_of_singleton. tauto.
      -- intros x _ Hx. rewrite resources_under_cons, Hps.
         rewrite decide_False; [done|]. intros [= ->].
         apply Hx. apply elem_of_app. right. by apply list_elem_of_singleton.
Qed.


Lemma on_resource_wakeup_ok r p p' :
Platform.on_resource r Resource.wakeup p = (Ok tt, p') ->
exists o, Platform.resources p !! r = Some o /\ Resource.state o = SLEEPING /\
  p' = Platform.mk (Platform.nodes p)
         (<[r := Resource.set_state SWITCHING_ON o]> (Platform.resources p)).
Proof.
unfold Platform.on_resource, Platform.resource.
unfold bind at 1 2. unfold get, getitem.
destruct (Platform.resources p !! r) as [o|]; [|done]. simpl.
unfold Resource.wakeup, bind, get.
destruct (Resource.state o) eqn:Hst; try done.
simpl. intros [= <-]. by exists o.
Qed.

Lemma wakeup_loop_ok (l : list nat) p p' :
for_ l (fun r => Platform.on_resource r Resource.wakeup) p = (Ok tt, p') ->
Platform.nodes p' = Platform.nodes p /\
forall r, Platform.resources p' !! r =
  if decide (r ∈ l) then Resource.set_state SWITCHING_ON <$> Platform.resources p !! r
  else Platform.resources p !! r.
Proof.
revert p. induction l as [|x l IH]; intros p H.
- injection H as <-. split; [done|]. intros r.
  rewrite decide_False; [done | apply not_elem_of_nil].
- cbn [for_] in H. apply bind_inv_ok in H as ([] & p1 & E & H).
  apply on_resource_wakeup_ok in E as (o & Ho & Hst & ->).
  apply IH in H as [Hn Hr]. split; [done|]. intros r. rewrite Hr. simpl.
  destruct (decide (r = x)) as [->|Hne].
  + rewrite lookup_insert_eq, Ho. rewrite (decide_True (P := x ∈ x :: l)) by (by left).
    by destruct (decide (x ∈ l)).
  + rewrite lookup_insert_ne by done.
    destruct (decide (r ∈ l)) as [Hin|Hnin].
    * by rewrite decide_True by (by right).
    * rewrite decide_False; [done|]. rewrite elem_of_cons. tauto.
Qed.

Lemma mapM_resource_ok (l : list nat) p rs p' :
mapM Platform.resource l p = (Ok rs, p') ->
p' = p /\ Forall2 (fun r o => Platform.resources p !! r = Some o) l rs.
Proof.
revert rs p'. induction l as [|x l IH]; intros rs p' H.
- injection H as <- <-. split; [done | constructor].
- cbn [mapM] in H. apply bind_inv_ok in H as (o & p1 & E & H).
  apply bind_inv_ok in H as (os & p2 & E2 & H). injection H as <- <-.
  revert E. unfold Platform.resource, bind, get, getitem.
  destruct (Platform.resources p !! x) as [o'|] eqn:Hx; [|done].
  intros [= <- <-]. apply IH in E2 as [-> HF]. split; [done|]. by constructor.
Qed.

Lemma wakeup_ok node p p' :
Platform.wakeup node p = (Ok tt, p') ->
Platform.nodes p' = Platform.nodes p /\
(forall r, r ∈ Node.resources node ->
   Resource.state <$> Platform.resources p !! r = Some SLEEPING) /\
forall r, Platform.resources p' !! r =
  if decide (r ∈ Node.resources node)
  then Resource.set_state SWITCHING_ON <$> Platform.resources p !! r
  else Platform.resources p !! r.
Proof.
unfold Platform.wakeup. intros H.
apply bind_inv_ok in H as (rs & p1 & E & H).
apply mapM_resource_ok in E as [-> HF].
destruct (forallb Resource.is_sleeping rs) eqn:Hall; [|done].
apply wakeup_loop_ok in H as [Hn Hr]. split; [done|]. split; [|done].
intros r Hin. apply list_elem_of_lookup_1 in Hin as [i Hi].
destruct (Forall2_lookup_l _ _ _ _ _ HF Hi) as (o & Ho & Hro).
rewrite Hro. simpl. f_equal.
rewrite forallb_forall in Hall. specialize (Hall o).
unfold Resource.is_sleeping in Hall.
assert (In o rs) as Hin by (apply list_elem_of_In; by eapply list_elem_of_lookup_2).
apply Hall in Hin. by apply bool_decide_eq_true_1 in Hin.
Qed.

Lemma next_power_state_ok t node s ps s' :
next_power_state t node s = (Ok ps, s') ->
s' = s /\ power_state_id t node = Some ps.
Proof.
unfold next_power_state, power_state_id.
destruct (find _ _); [|done]. by intros [= <- <-].
Qed.

Lemma resources_of_cons node nodes :
resources_of (node :: nodes) = Node.resources node ++ resources_of nodes.
Proof. done. Qed.

Lemma state_of_resource_of s r : state_of s r = Resource.state <$> resource_of s r.
Proof. unfold state_of, resource_of. by destruct (platform s). Qed.

(** The first loop of [turn_on], when it returns. *)
Lemma turn_on_nodes_ok node_ids acc s groups s' :
turn_on_nodes node_ids acc s = (Ok groups, s') ->
exists nodes pss,
  names s node_ids nodes /\
  Forall2 (fun node ps => power_state_id computation node = Some ps) nodes pss /\
  groups = foldl (fun g x => extend_group x.2 (Node.resources x.1) g) acc
             (zip nodes pss) /\
  (forall i, node_of s' i = node_of s i) /\
  (forall r, r ∈ resources_of nodes -> state_of s r = Some SLEEPING) /\
  (forall r, resource_of s' r =
     if decide (r ∈ resources_of nodes)
     then Resource.set_state SWITCHING_ON <$> resource_of s r
     else resource_of s r).
Proof.
revert acc s. induction node_ids as [|i rest IH]; intros acc s H.
- injection H as <- <-. exists [], []. split; [constructor|]. split; [constructor|].
  split; [done|]. split; [done|]. split.
  + intros r Hr. by apply elem_of_nil in Hr.
  + intros r. rewrite decide_False; [done | apply not_elem_of_nil].
- cbn [turn_on_nodes] in H.
  apply bind_inv_ok in H as (node & s1 & E1 & H).
  apply bind_inv_ok in H as ([] & s2 & E2 & H).
  apply bind_inv_ok in H as (ps & s3 & E3 & H).
  apply next_power_state_ok in E3 as [-> Hps].
  unfold on_platform in E1, E2.
  destruct (platform s) as [p|] eqn:Hp; [|done].
  revert E1. unfold Platform.get_node, bind, get, getitem.
  destruct (Platform.nodes p !! i) as [node'|] eqn:Hi; [|done].
  intros [= -> <-]. cbn [platform set_platform] in E2.
  destruct (Platform.wakeup node p) as [r1 p2] eqn:Ew. injection E2 as -> <-.
  apply wakeup_ok in Ew as (Hn & Hsl & Hr).
  assert (platform (set_platform (Some p2) (set_platform (Some p) s)) = Some p2) as Hp2
    by (by destruct s).
  apply IH in H as (nodes & pss & Hnames & Hpss & -> & Hnode & Hsleep & Hres).
  exists (node :: nodes), (ps :: pss).
  assert (Hnode2 : forall j, node_of (set_platform (Some p2) (set_platform (Some p) s)) j
                             = node_of s j).
  { intros j. unfold node_of. rewrite Hp2, Hp. simpl. by rewrite Hn. }
  assert (Hres2 : forall r,
            resource_of (set_platform (Some p2) (set_platform (Some p) s)) r
            = if decide (r ∈ Node.resources node)
              then Resource.set_state SWITCHING_ON <$> resource_of s r
              else resource_of s r).
  { intros r. unfold resource_of. rewrite Hp2, Hp. simpl. apply Hr. }
  split.
  { constructor.
    - unfold node_of. rewrite Hp. simpl. done.
    - eapply Forall2_impl; [exact Hnames|]. intros j n Hj. by rewrite <- Hnode2. }
  split; [by constructor|]. split; [done|]. split.
  { intros j. by rewrite Hnode, Hnode2. }
  split.
  { intros r Hin. rewrite resources_of_cons in Hin. apply elem_of_app in Hin as [Hin|Hin].
    - unfold state_of. rewrite Hp. simpl. by apply Hsl.
    - specialize (Hsleep r Hin). revert Hsleep.
      rewrite !state_of_resource_of, Hres2. destruct (decide (r ∈ Node.resources node)); [|done].
      by destruct (resource_of s r). }
  intros r. rewrite Hres, Hres2, resources_of_cons.
  destruct (decide (r ∈ resources_of nodes)) as [H1|H1];
    destruct (decide (r ∈ Node.resources node)) as [H2|H2].
  + rewrite decide_True by (apply elem_of_app; by left).
    by destruct (resource_of s r).
  + by rewrite decide_True by (apply elem_of_app; by right).
  + by rewrite decide_True by (apply elem_of_app; by left).
  + rewrite decide_False; [done|]. rewrite elem_of_app. tauto.
Qed.

Lemma grouped_fold t nodes pss :
Forall2 (fun node ps => power_state_id t node = Some ps) nodes pss ->
foldl (fun g x => extend_group x.2 (Node.resources x.1) g) [] (zip nodes pss)
  = grouped t nodes.
Proof.
intros H. rewrite (extend_groups_grouped t) by (done || constructor).
rewrite fmap_nil, app_nil_l. unfold grouped. f_equal.
induction (first_occurrences _) as [|x l IH]; [done|].
rewrite filter_cons, decide_True by apply not_elem_of_nil. by rewrite IH.
Qed.

Lemma first_occurrences_NoDup l : NoDup (first_occurrences l).
Proof.
induction l as [|x l IH]; cbn [first_occurrences]; [constructor|].
apply NoDup_cons. split.
- rewrite list_elem_of_filter. by intros [? _].
- by apply NoDup_filter.
Qed.

Lemma grouped_NoDup t nodes : NoDup ((grouped t nodes).*1).
Proof.
unfold grouped. rewrite <- list_fmap_compose.
erewrite list_fmap_ext; [rewrite list_fmap_id|by intros]. apply first_occurrences_NoDup.
Qed.

(** X22: [turn_on] sends its requests only after every node has been
  looked up and woken. A call that fails has sent nothing. A call
  that returns has found every node id on the platform, each node
  with a computation power state; the resources of these nodes were
  all [SLEEPING] and are [SWITCHING_ON] afterwards, and no other
  resource has changed; and it has appended one [SET_RESOURCES_PSTATE]
  request for each computation power state id of the nodes, in the
  order in which the ids first occur and no two for the same id, each
  with the resources of all the nodes with that id. Either way the
  cohorts, the jobs and the agenda are as they were. *)
Theorem turn_on_sends_last (node_ids : list nat) (s s' : RJMSHandler)
  (r : result unit) :
turn_on node_ids s = (r, s') ->
_jobs s' = _jobs s /\ store s' = store s /\ _agenda s' = _agenda s /\
(is_ok r = false -> simulator s' = simulator s) /\
(is_ok r = true ->
   exists nodes : list Node.t,
     names s node_ids nodes /\
     Forall (fun node => is_Some (power_state_id computation node)) nodes /\
     requests s' = requests s ++
       ((fun g => SET_RESOURCES_PSTATE g.2 g.1) <$> grouped computation nodes) /\
     NoDup ((grouped computation nodes).*1) /\
     (forall x, x ∈ resources_of nodes -> state_of s x = Some SLEEPING) /\
     (forall x, resource_of s' x =
        if decide (x ∈ resources_of nodes)
        then Resource.set_state SWITCHING_ON <$> resource_of s x
        else resource_of s x)).
Proof.
intros H.
pose proof (turn_on_keeps_jobs node_ids s) as Hj.
pose proof (turn_on_keeps_store node_ids s) as Hs. rewrite H in Hj, Hs. simpl in Hj, Hs.
split; [done|]. split; [done|]. split.
{ assert (keeps _agenda (turn_on node_ids)) as Ha.
  { unfold turn_on. apply keeps_bind; [by apply turn_on_nodes_keeps|].
    intros groups. apply keeps_for. intros [ps ids]. keeps_tac. }
  specialize (Ha s). by rewrite H in Ha. }
unfold turn_on in H.
pose proof (turn_on_nodes_keeps simulator node_ids [] (fun _ _ => eq_refl) s) as Hsim.
apply bind_inv in H as [(groups & s1 & E & H) | (r0 & E & Hf & ->)].
- rewrite E in Hsim. simpl in Hsim. rewrite send_groups in H. injection H as <- <-.
  split; [done|]. intros _.
  apply turn_on_nodes_ok in E as (nodes & pss & Hnames & Hpss & -> & _ & Hsleep & Hres).
  rewrite (grouped_fold computation) by done.
  exists nodes. split; [done|]. split.
  { apply Forall_forall. intros node Hin.
    apply list_elem_of_lookup_1 in Hin as [i Hi].
    destruct (Forall2_lookup_l _ _ _ _ _ Hpss Hi) as (ps & _ & Hps). eauto. }
  split; [unfold requests in *; simpl; by rewrite Hsim|].
  split; [apply grouped_NoDup|]. split; [done|].
  intros x. rewrite <- Hres. unfold resource_of. by destruct s1.
- rewrite E in Hsim. simpl in Hsim. split; [done|].
  by destruct r0.
Qed.

Lemma turn_on_sends_last_witness :
let s := Sample.waiting false SLEEPING in
let s' := (turn_on [0%nat] s).2 in
_jobs s' = _jobs s /\ store s' = store s /\ _agenda s' = _agenda s /\
exists nodes : list Node.t,
  names s [0%nat] nodes /\
  Forall (fun node => is_Some (power_state_id computation node)) nodes /\
  requests s' = requests s ++
    ((fun g => SET_RESOURCES_PSTATE g.2 g.1) <$> grouped computation nodes) /\
  NoDup ((grouped computation nodes).*1) /\
  (forall x, x ∈ resources_of nodes -> state_of s x = Some SLEEPING) /\
  (forall x, resource_of s' x =
     if decide (x ∈ resources_of nodes)
     then Resource.set_state SWITCHING_ON <$> resource_of s x
     else resource_of s x).
Proof.
intros s s'.
destruct (turn_on_sends_last [0%nat] s s' (Ok tt) eq_refl) as (Hj & Hs & Ha & _ & H).
split; [exact Hj|]. split; [exact Hs|]. split; [exact Ha|].
apply H. reflexivity.
Defined.

(** X23: the sweep [start_ready_jobs] works on the ready and running
  cohorts only. Whatever its outcome, it never waits for events, and
  the queue, the completed cohort, the agenda, the clock and the
  running flag of the simulator are as they were. *)
Theorem start_ready_jobs_frame (s : RJMSHandler) :
(start_ready_jobs s).1 <> Blocked /\
Jobs.queue (_jobs (start_ready_jobs s).2) = Jobs.queue (_jobs s) /\
completed (start_ready_jobs s).2 = completed s /\
_agenda (start_ready_jobs s).2 = _agenda s /\
current_time (start_ready_jobs s).2 = current_time s /\
is_running (start_ready_jobs s).2 = is_running s.
Proof.
split; [apply never_blocks_start_ready_jobs|].
assert (keeps (fun s => (Jobs.queue (_jobs s), completed s, _agenda s)) start_ready_jobs)
  as Hk.
{ unfold start_ready_jobs. apply keeps_bind; [keeps_tac|]. intros s0.
  apply keeps_for. intros j. unfold start_if_ready.
  apply keeps_bind; [keeps_tac|]. intros o.
  apply keeps_bind; [keeps_tac|]. intros resources.
  apply keeps_bind.
  { unfold initiate_resources. apply initiate_resources_loop_keeps; [done|].
    intros ids. unfold turn_on. apply keeps_bind; [by apply turn_on_nodes_keeps|].
    intros groups. apply keeps_for. intros [ps rs]. keeps_tac. }
  intros [|]; [|keeps_tac]. unfold remove_from. keeps_tac. }
specialize (Hk s). injection Hk as Hq Hc Ha.
split; [done|]. split; [done|]. split; [done|].
split; [apply start_ready_jobs_keeps_current_time | apply start_ready_jobs_keeps_is_running].
Qed.

(** X24: a subscriber registered with [set_callback] is called by
  [_dispatch] after the subscribers registered before it, with the
  current time and the job; when those before it return, the outcome
  of the dispatch is the outcome of the new subscriber, and the
  dispatch changes nothing. *)
Theorem set_callback_subscribes_last (call : Callback) (job : ref) (o : Job.t)
  (s : RJMSHandler) :
store s !! job = Some o ->
(forall c, c ∈ _callbacks s -> c (current_time s) o = None) ->
(set_callback call >> _dispatch job) s =
  (match call (current_time s) o with
   | Some e => Raised e
   | None => Ok tt
   end, (set_callback call s).2).
Proof.
intros Ho Hquiet. unfold set_callback at 1. unfold bind at 1, modify. cbv beta iota.
unfold set_callback, modify. cbn [snd].
set (s1 := mkRJMSHandler _ _ _ _ _ _ _ _ _).
unfold _dispatch. rewrite (bind_ok get _ s1 s1 s1) by reflexivity.
change (_callbacks s1) with (_callbacks s ++ [call]).
rewrite for_app.
assert (Hstep : forall c,
          (let* now := gets current_time in
           let* j := job_of job in
           match c now j with Some e => raise e | None => ret tt end) s1
          = (match c (current_time s) o with Some e => Raised e | None => Ok tt end, s1)).
{ intros c.
  rewrite (bind_ok (gets current_time) _ s1 (current_time s) s1) by reflexivity.
  rewrite (bind_ok (job_of job) _ s1 o s1) by (by apply job_of_ok).
  by destruct (c (current_time s) o). }
rewrite (bind_ok _ _ s1 tt s1).
- cbn [for_]. unfold bind at 1. rewrite Hstep.
  by destruct (call (current_time s) o).
- clear -Hstep Hquiet. revert Hquiet. generalize (_callbacks s) as cs.
  induction cs as [|c cs IH]; intros Hquiet; [done|]. cbn [for_].
  rewrite (bind_ok _ _ s1 tt s1).
  + apply IH. intros c' Hc'. apply Hquiet. by right.
  + rewrite Hstep. rewrite Hquiet; [done | by left].
Qed.

Lemma set_callback_subscribes_last_witness :
(set_callback (fun _ _ => Some ValueError) >> _dispatch 0%nat) Sample.busy =
  (Raised ValueError, (set_callback (fun _ _ => Some ValueError) Sample.busy).2).
Proof.
apply (set_callback_subscribes_last (fun _ _ => Some ValueError) 0%nat
         Sample.running_job Sample.busy).
- reflexivity.
- intros c Hc. inversion Hc.
Defined.

End ControlFacts.

Module PowerFacts.
Import HandlerViews PowerSpec.

Section Methods.
Variable node_sleep : Node.t -> M Platform.t unit.
Variable node_set_pstate : Node.t -> nat -> M Platform.t unit.

Lemma turn_off_nodes_keeps {T} (f : RJMSHandler -> T) node_ids groups :
(forall x s, f (set_platform x s) = f s) ->
keeps f (turn_off_nodes node_sleep node_ids groups).
Proof.
intros H. revert groups. induction node_ids as [|i rest IH]; intros groups; simpl.
- apply keeps_ret.
- apply keeps_bind; [by apply keeps_on_platform|]. intros node.
apply keeps_bind; [by apply keeps_on_platform|]. intros _.
apply keeps_bind; [unfold next_power_state; keeps_tac|]. intros ps. apply IH.
Qed.

Lemma turn_off_nodes_NoDup node_ids groups s groups' s' :
NoDup (groups.*1) ->
turn_off_nodes node_sleep node_ids groups s = (Ok groups', s') -> NoDup (groups'.*1).
Proof.
revert groups s. induction node_ids as [|i rest IH]; intros groups s Hnd H.
- by injection H as <- <-.
- cbn [turn_off_nodes] in H.
apply bind_inv_ok in H as (node & s1 & _ & H).
apply bind_inv_ok in H as ([] & s2 & _ & H).
apply bind_inv_ok in H as (ps & s3 & _ & H).
eapply IH; [|exact H]. by apply ControlFacts.extend_group_NoDup.
Qed.

(** The first loop of [turn_off], when it returns, for a [node.sleep()]
that leaves the table of the nodes as it is. *)
Lemma turn_off_nodes_ok node_ids acc s groups s' :
(forall node, keeps Platform.nodes (node_sleep node)) ->
turn_off_nodes node_sleep node_ids acc s = (Ok groups, s') ->
exists nodes pss,
names s node_ids nodes /\
Forall2 (fun node ps => power_state_id sleep node = Some ps) nodes pss /\
groups = foldl (fun g x => extend_group x.2 (Node.resources x.1) g) acc
           (zip nodes pss) /\
(forall i, node_of s' i = node_of s i).
Proof.
intros Hkeeps. revert acc s. induction node_ids as [|i rest IH]; intros acc s H.
- injection H as <- <-. exists [], []. split; [constructor|]. split; [constructor|].
by split.
- cbn [turn_off_nodes] in H.
apply bind_inv_ok in H as (node & s1 & E1 & H).
apply bind_inv_ok in H as ([] & s2 & E2 & H).
apply bind_inv_ok in H as (ps & s3 & E3 & H).
apply ControlFacts.next_power_state_ok in E3 as [-> Hps].
unfold on_platform in E1, E2.
destruct (platform s) as [p|] eqn:Hp; [|done].
revert E1. unfold Platform.get_node, bind, get, getitem.
destruct (Platform.nodes p !! i) as [node'|] eqn:Hi; [|done].
intros [= -> <-]. cbn [platform set_platform] in E2.
pose proof (Hkeeps node p) as Hn.
destruct (node_sleep node p) as [r1 p2] eqn:Ew. injection E2 as -> <-.
simpl in Hn.
assert (platform (set_platform (Some p2) (set_platform (Some p) s)) = Some p2) as Hp2
  by (by destruct s).
apply IH in H as (nodes & pss & Hnames & Hpss & -> & Hnode).
exists (node :: nodes), (ps :: pss).
assert (Hnode2 : forall j, node_of (set_platform (Some p2) (set_platform (Some p) s)) j
                           = node_of s j).
{ intros j. unfold node_of. rewrite Hp2, Hp. simpl. by rewrite Hn. }
split.
{ constructor.
  - unfold node_of. rewrite Hp. simpl. done.
  - eapply Forall2_impl; [exact Hnames|]. intros j n Hj. by rewrite <- Hnode2. }
split; [by constructor|]. split; [done|].
intros j. by rewrite Hnode, Hnode2.
Qed.

(** X25: [turn_off], whatever [node.sleep()] does to the resources of
the platform, sends its requests only after every node has been
looked up and put to sleep. A call that fails has sent nothing.
When [node.sleep()] leaves the table of the nodes as it is, a call
that returns has found every node id on the platform, each node
with a sleep power state, and has appended one
[SET_RESOURCES_PSTATE] request for each sleep power state id of the
nodes, in the order in which the ids first occur and no two for the
same id, each with the resources of all the nodes with that id.
Either way the cohorts, the jobs and the agenda are as they were. *)
Theorem turn_off_sends_last (node_ids : list nat) (s s' : RJMSHandler)
(r : result unit) :
turn_off node_sleep node_ids s = (r, s') ->
_jobs s' = _jobs s /\ store s' = store s /\ _agenda s' = _agenda s /\
(is_ok r = false -> simulator s' = simulator s) /\
(is_ok r = true ->
(forall node, keeps Platform.nodes (node_sleep node)) ->
 exists nodes : list Node.t,
   names s node_ids nodes /\
   Forall (fun node => is_Some (power_state_id sleep node)) nodes /\
   requests s' = requests s ++
     ((fun g => SET_RESOURCES_PSTATE g.2 g.1) <$> grouped sleep nodes) /\
   NoDup ((grouped sleep nodes).*1) /\
   (forall i, node_of s' i = node_of s i)).
Proof.
intros H.
assert (keeps (fun s => (_jobs s, store s, _agenda s)) (turn_off node_sleep node_ids))
as Hk.
{ unfold turn_off. apply keeps_bind; [by apply turn_off_nodes_keeps|].
intros groups. apply keeps_for. intros [ps ids]. keeps_tac. }
specialize (Hk s). rewrite H in Hk. injection Hk as Hj Hs Ha.
split; [done|]. split; [done|]. split; [done|].
unfold turn_off in H.
pose proof (turn_off_nodes_keeps simulator node_ids [] (fun _ _ => eq_refl) s) as Hsim.
apply bind_inv in H as [(groups & s1 & E & H) | (r0 & E & Hf & ->)].
- rewrite E in Hsim. simpl in Hsim. rewrite ControlFacts.send_groups in H.
injection H as <- <-.
split; [done|]. intros _ Hkeeps.
apply turn_off_nodes_ok in E as (nodes & pss & Hnames & Hpss & -> & Hnode);
  [|done].
rewrite (ControlFacts.grouped_fold sleep) by done.
exists nodes. split; [done|]. split.
{ apply Forall_forall. intros node Hin.
  apply list_elem_of_lookup_1 in Hin as [i Hi].
  destruct (Forall2_lookup_l _ _ _ _ _ Hpss Hi) as (ps & _ & Hps). eauto. }
split; [unfold requests in *; simpl; by rewrite Hsim|].
split; [apply ControlFacts.grouped_NoDup|].
intros i. rewrite <- Hnode. unfold node_of. by destruct s1.
- rewrite E in Hsim. simpl in Hsim. split; [done|].
by destruct r0.
Qed.

Lemma set_pstate_nodes_keeps {T} (f : RJMSHandler -> T) node_ids pstate_id acc :
(forall x s, f (set_platform x s) = f s) ->
keeps f (set_pstate_nodes node_set_pstate node_ids pstate_id acc).
Proof.
intros H. revert acc. induction node_ids as [|i rest IH]; intros acc; simpl.
- apply keeps_ret.
- apply keeps_bind; [by apply keeps_on_platform|]. intros node.
apply keeps_bind; [by apply keeps_on_platform|]. intros _. apply IH.
Qed.

(** X26: [set_pstate], whatever [node.set_pstate()] does to the
platform, sends one request, and only after every node has been
looked up and set. A call that fails has sent nothing; a call that
returns has appended exactly one [SET_RESOURCES_PSTATE] request,
for the given power state, and it does so even when it is called
with no node, with an empty list of resources. Cohorts, jobs and
agenda are as they were. *)
Theorem set_pstate_sends_once (node_ids : list nat) (pstate_id : nat)
(s s' : RJMSHandler) (r : result unit) :
set_pstate node_set_pstate node_ids pstate_id s = (r, s') ->
_jobs s' = _jobs s /\ store s' = store s /\ _agenda s' = _agenda s /\
(is_ok r = false -> simulator s' = simulator s) /\
(is_ok r = true ->
 exists ids, requests s' = requests s ++ [SET_RESOURCES_PSTATE ids pstate_id] /\
             (node_ids = [] -> ids = [])).
Proof.
intros H.
assert (keeps (fun s => (_jobs s, store s, _agenda s))
        (set_pstate node_set_pstate node_ids pstate_id)) as Hk.
{ unfold set_pstate. apply keeps_bind; [by apply set_pstate_nodes_keeps|].
intros ids. keeps_tac. }
specialize (Hk s). rewrite H in Hk. injection Hk as Hj Hs Ha.
split; [done|]. split; [done|]. split; [done|].
unfold set_pstate in H.
pose proof (set_pstate_nodes_keeps simulator node_ids pstate_id []
            (fun _ _ => eq_refl) s) as Hsim.
apply bind_inv in H as [(ids & s1 & E & H) | (r0 & E & Hf & ->)].
- rewrite E in Hsim. simpl in Hsim. injection H as <- <-.
split; [done|]. intros _. exists ids. split.
+ unfold requests. simpl. by rewrite Hsim.
+ intros ->. by injection E as <-.
- rewrite E in Hsim. simpl in Hsim. split; [done|].
by destruct r0.
Qed.

End Methods.

Lemma turn_off_sends_last_witness :
let s := Sample.waiting false IDLE in
let s' := (turn_off (fun _ => ret tt) [0%nat; 1%nat] s).2 in
_jobs s' = _jobs s /\ store s' = store s /\ _agenda s' = _agenda s /\
exists nodes : list Node.t,
  names s [0%nat; 1%nat] nodes /\
  Forall (fun node => is_Some (power_state_id sleep node)) nodes /\
  requests s' = requests s ++
    ((fun g => SET_RESOURCES_PSTATE g.2 g.1) <$> grouped sleep nodes) /\
  NoDup ((grouped sleep nodes).*1) /\
  (forall i, node_of s' i = node_of s i).
Proof.
intros s s'.
destruct (turn_off_sends_last (fun _ => ret tt) [0%nat; 1%nat] s s' (Ok tt) eq_refl)
  as (Hj & Hs & Ha & _ & H).
split; [exact Hj|]. split; [exact Hs|]. split; [exact Ha|].
apply H; [reflexivity|]. intros node p. reflexivity.
Defined.

Lemma set_pstate_sends_once_witness :
_jobs (set_pstate (fun _ _ => ret tt) [] 3 (Sample.finishing false)).2
  = _jobs (Sample.finishing false) /\
store (set_pstate (fun _ _ => ret tt) [] 3 (Sample.finishing false)).2
  = store (Sample.finishing false) /\
_agenda (set_pstate (fun _ _ => ret tt) [] 3 (Sample.finishing false)).2
  = _agenda (Sample.finishing false) /\
(is_ok (Ok tt) = false ->
 simulator (set_pstate (fun _ _ => ret tt) [] 3 (Sample.finishing false)).2
   = simulator (Sample.finishing false)) /\
(is_ok (Ok tt) = true ->
 exists ids,
   requests (set_pstate (fun _ _ => ret tt) [] 3 (Sample.finishing false)).2
     = requests (Sample.finishing false) ++ [SET_RESOURCES_PSTATE ids 3] /\
   (@nil nat = [] -> ids = [])).
Proof.
apply (set_pstate_sends_once (fun _ _ => ret tt) [] 3 (Sample.finishing false)
         (set_pstate (fun _ _ => ret tt) [] 3 (Sample.finishing false)).2 (Ok tt)).
reflexivity.
Defined.

End PowerFacts.
